(** * QuestPlaySDK: session registry and cross-context message protocol

    A shallow embedding of the two variants of [class QuestPlaySDK] found in
    [questplay-sdk.js]:

    - [V1], the variant whose constructor takes a [debug] flag, registers one
      window listener per game and authenticates inbound messages by origin;
    - [V2], the variant whose constructor takes an [options] object, registers
      a single window listener and routes inbound messages by the identity of
      the sending window.

    The browser is modelled as far as the SDK touches it: the document's
    elements that [getElementById] can find, the iframe elements the SDK
    creates, the listeners registered on [window] and the effects a handler
    emits (messages posted to a window, host callbacks invoked, console
    output).  Host callbacks are opaque: invoking one is recorded as an
    effect, and it is assumed to return normally and not to re-enter the SDK. *)

From stdpp Require Import gmap strings pretty list fin_maps.
From Stdlib Require Import ZArith.

Set Warnings "-register-all".
Open Scope string_scope.
Open Scope list_scope.

(** ** JavaScript values *)

Module Js.

(** The values that flow through the SDK.  Numbers are integer valued;
    [JFun f] is a function object with identity [f]; [JObj] is a plain
    object given by its own properties.  The payload of a message is a
    value a message can carry: it holds no function. *)
Inductive jsval : Type :=
| JUndefined
| JNull
| JBool (b : bool)
| JNum (n : Z)
| JStr (s : string)
| JFun (f : nat)
| JObj (props : list (string * jsval)).

(** ToBoolean *)
Definition truthy (v : jsval) : bool :=
  match v with
  | JUndefined | JNull => false
  | JBool b => b
  | JNum n => negb (n =? 0)%Z
  | JStr s => negb (String.eqb s EmptyString)
  | JFun _ | JObj _ => true
  end.

(** [a || b] *)
Definition jor (a b : jsval) : jsval := if truthy a then a else b.

(** [typeof v === "function"] *)
Definition is_function (v : jsval) : bool :=
  match v with JFun _ => true | _ => false end.

(** [v === s] for a string literal [s] *)
Definition is_str (v : jsval) (s : string) : bool :=
  match v with JStr t => String.eqb t s | _ => false end.

(** [v === undefined || v === null]: the values that cannot be
    destructured and have no properties to read. *)
Definition nullish (v : jsval) : bool :=
  match v with JUndefined | JNull => true | _ => false end.

Fixpoint assoc (k : string) (ps : list (string * jsval)) : jsval :=
  match ps with
  | [] => JUndefined
  | (k', v) :: ps' => if String.eqb k' k then v else assoc k ps'
  end.

(** [v.k] on a value that is not nullish: an own property of an object,
    [undefined] on a primitive or a function. *)
Definition get (k : string) (v : jsval) : jsval :=
  match v with
  | JObj ps => assoc k ps
  | _ => JUndefined
  end.

(** Whether [k] is an own property. *)
Definition has (k : string) (ps : list (string * jsval)) : bool :=
  existsb (fun p => String.eqb (fst p) k) ps.

(** Whether a template string can turn [v] into text.  A plain object is
    turned into text by the [toString] it inherits; an own [toString]
    property hides that one and, not being a function, leaves the object
    without a conversion: the template throws [TypeError]. *)
Definition converts (v : jsval) : bool :=
  match v with
  | JObj ps => negb (has "toString" ps)
  | _ => true
  end.

(** The names every plain object [{}] inherits from [Object.prototype];
    each of them reads as a truthy value (a function, or the prototype
    itself for [__proto__]) that has none of the properties of a game. *)
Definition object_prototype_keys : list string :=
  [ "constructor"; "__defineGetter__"; "__defineSetter__"; "hasOwnProperty";
    "__lookupGetter__"; "__lookupSetter__"; "isPrototypeOf";
    "propertyIsEnumerable"; "toString"; "valueOf"; "__proto__";
    "toLocaleString" ].

Definition inherited (k : string) : bool :=
  bool_decide (k ∈ object_prototype_keys).

(** The result of reading [obj[k]] on an object used as a map. *)
Inductive slot (A : Type) : Type :=
| Own (a : A)
| Inherited
| Absent.
Arguments Own {A} a.
Arguments Inherited {A}.
Arguments Absent {A}.

Definition read {A} (own : option A) (k : string) : slot A :=
  match own with
  | Some a => Own a
  | None => if inherited k then Inherited else Absent
  end.

(** The double quote character, for the template strings of the source. *)
Definition dq : string := String (Ascii.ascii_of_nat 34) EmptyString.

End Js.
Export Js.

(** ** Effects, exceptions and the handler monad *)

Inductive level : Type := LLog | LWarn | LError.

(** What a handler does to the world outside the SDK object. *)
Inductive effect : Type :=
| Posted (w : nat) (payload : jsval) (targetOrigin : string)
    (* contentWindow.postMessage(payload, targetOrigin) on window [w] *)
| Invoked (f : nat) (args : list jsval)
    (* a call of the host function [f] *)
| Console (lvl : level) (text : string) (args : list jsval).

Inductive exn : Type :=
| TypeError (msg : string)
| SyntaxError (msg : string).

Inductive outcome (A : Type) : Type :=
| Ret (a : A)
| Throw (e : exn).
Arguments Ret {A} a.
Arguments Throw {A} e.

Definition is_posted (e : effect) : bool :=
  match e with Posted _ _ _ => true | _ => false end.
Definition is_invoked (e : effect) : bool :=
  match e with Invoked _ _ => true | _ => false end.
Definition is_console (e : effect) : bool :=
  match e with Console _ _ _ => true | _ => false end.

(** The messages posted, the host functions called, and both in order
    (everything but console output). *)
Definition posts (es : list effect) : list effect := List.filter is_posted es.
Definition calls (es : list effect) : list effect := List.filter is_invoked es.
Definition visible (es : list effect) : list effect :=
  List.filter (fun e => negb (is_console e)) es.

(** Everything but the lines written with [console.log]. *)
Definition is_log (e : effect) : bool :=
  match e with Console LLog _ _ => true | _ => false end.
Definition unlogged (es : list effect) : list effect :=
  List.filter (fun e => negb (is_log e)) es.

Section Monad.
Context {S : Type}.

(** A handler body: from a state to an outcome, the state it leaves and
    the effects it emitted, oldest first.  A [Throw] keeps the state and
    the effects produced before the exception. *)
Definition M (A : Type) : Type := S → outcome A * S * list effect.

Definition ret {A} (a : A) : M A := fun s => (Ret a, s, []).
Definition throw {A} (e : exn) : M A := fun s => (Throw e, s, []).
Definition bind {A B} (m : M A) (k : A → M B) : M B :=
  fun s =>
    match m s with
    | (Ret a, s1, es1) =>
        match k a s1 with
        | (o, s2, es2) => (o, s2, es1 ++ es2)
        end
    | (Throw e, s1, es1) => (Throw e, s1, es1)
    end.
Definition emit (e : effect) : M unit := fun s => (Ret tt, s, [e]).
Definition gets {A} (f : S → A) : M A := fun s => (Ret (f s), s, []).
Definition modify (f : S → S) : M unit := fun s => (Ret tt, f s, []).
Definition when (b : bool) (m : M unit) : M unit := if b then m else ret tt.

(** [f?.(args)] and the call of a callback that defaults to a no-op
    arrow function: [None] is the absent or default function. *)
Definition invoke (f : option nat) (args : list jsval) : M unit :=
  match f with
  | Some h => emit (Invoked h args)
  | None => ret tt
  end.

(** [m] returns [a] from [s], leaving [s'] and having emitted [es]. *)
Definition runs {A} (m : M A) (s : S) (a : A) (s' : S) (es : list effect) : Prop :=
  m s = (Ret a, s', es).

(** [m] relates every state to the state it leaves by [P]. *)
Definition keeps {A} (P : S → S → Prop) (m : M A) : Prop :=
  ∀ s, P s (m s).1.2.

(** [m] does from [f s] what it does from [s], lines of [console.log]
    aside: the outcome is the same, the other effects are the same, and
    the state it leaves is [f] of the state it leaves from [s]. *)
Definition commutes {A} (f : S → S) (m : M A) : Prop :=
  ∀ s, (m (f s)).1.1 = (m s).1.1 ∧ (m (f s)).1.2 = f (m s).1.2 ∧
       unlogged (m (f s)).2 = unlogged (m s).2.

(** Every effect [m] emits satisfies [P]. *)
Definition emits {A} (P : effect → Prop) (m : M A) : Prop :=
  ∀ s, Forall P (m s).2.
End Monad.

(** The effect of [invoke f args]. *)
Definition invocation (f : option nat) (args : list jsval) : list effect :=
  match f with
  | Some h => [Invoked h args]
  | None => []
  end.

Notation "'let!' x ':=' m 'in' k" := (bind m (fun x => k))
  (at level 10, x name, m at level 100, k at level 200, only parsing).
Notation "'do!' m 'in' k" := (bind m (fun _ => k))
  (at level 10, m at level 100, k at level 200, only parsing).

(** ** The browser *)

(** What the SDK asks of the platform: [window.location.origin] of the host
    page, and the URL parser behind [new URL(u).origin] and behind the
    [targetOrigin] argument of [postMessage]; [None] is a URL that does not
    parse, on which both throw. *)
Class Browser : Type := {
  location_origin : string;
  url_origin : string → option string;
}.

(** [MessageEvent]: the payload, the origin of the sender and the sending
    window ([None] is a null [source]). *)
Record message_event : Type := MessageEvent {
  data : jsval;
  origin : string;
  source : option nat;
}.

(** How an awaited [getUserBalance(userId)] settles: it resolves to a value,
    or it is rejected, which is also how a call that throws on the spot is
    taken (the [catch] clause is the same; such a call does not suspend
    [addGame], so the event loop below allows it more interleavings than it
    has). *)
Inductive settled : Type :=
| Resolved (v : jsval)
| Rejected (e : jsval).

(** The balance [addGame] goes on with: the value the call resolved to, or
    0 from the [catch] clause. *)
Definition settled_balance (b : settled) : jsval :=
  match b with
  | Resolved v => v
  | Rejected _ => JNum 0
  end.

(** The return paths of [addGame] and [removeGame].  In the source every
    one of them returns [undefined]; the constructor names the path:
    the three rejections, the suspension at the [await], and the end of the
    function body. *)
Inductive add_status (K : Type) : Type :=
| InvalidConfig
| DuplicateSession
| TargetNotFound
| Awaiting (k : K)
| Registered.
Arguments InvalidConfig {K}.
Arguments DuplicateSession {K}.
Arguments TargetNotFound {K}.
Arguments Awaiting {K} k.
Arguments Registered {K}.

Inductive remove_status : Type :=
| NotFound
| Removed.

(** An iframe element.  [contentWindow] is the window of the element's
    browsing context, which exists while the element is connected; the
    window is identified with the index of its element. *)
Record element (C : Type) : Type := Element {
  src : string;
  parentElement : option string;
  contentWindow : option nat;
  onload : option C;
}.
Arguments Element {C}.
Arguments src {C}.
Arguments parentElement {C}.
Arguments contentWindow {C}.
Arguments onload {C}.

Definition blank {C} : element C := Element EmptyString None None None.
Definition with_src {C} (u : string) (e : element C) : element C :=
  Element u (parentElement e) (contentWindow e) (onload e).
Definition attached {C} (c : string) (w : nat) (e : element C) : element C :=
  Element (src e) (Some c) (Some w) (onload e).
Definition detached {C} (e : element C) : element C :=
  Element (src e) None None (onload e).
Definition with_onload {C} (h : C) (e : element C) : element C :=
  Element (src e) (parentElement e) (contentWindow e) (Some h).

Definition defaultLocale : string := "en-US".
Definition defaultCurrency : string := "TZS".
Definition tag : string := "[QuestPlaySDK] ".

(** ** First variant: one listener per game, origin check *)

Module V1.

(** An entry of [this.games]. *)
Record game : Type := Game {
  iframe : nat;
  iframeUrl : string;
  userId : jsval;
  locale : jsval;
  currency : jsval;
  onError : option nat;
  onGameResult : option nat;
}.

(** What the arrow function assigned to [iframe.onload] closes over. *)
Record closure : Type := Closure {
  cl_gameId : string;
  cl_userId : jsval;
  cl_balance : jsval;
  cl_onGameLoad : option nat;
}.

(** The SDK object together with the part of the page it acts on.
    [elements] are the ids [document.getElementById] finds; [iframes] are
    the iframe elements created so far, in creation order; [listeners] are
    the [message] listeners on [window], each a bound copy of
    [handleMessage] with its own function identity and its bound game id;
    [next_fn] is the identity of the next function object [bind] makes. *)
Record sdk : Type := Sdk {
  games : gmap string game;
  debug : bool;
  elements : gset string;
  iframes : list (element closure);
  listeners : list (nat * string);
  next_fn : nat;
}.

Definition set_games (f : gmap string game → gmap string game) (s : sdk) : sdk :=
  Sdk (f (games s)) (debug s) (elements s) (iframes s) (listeners s) (next_fn s).
Definition set_iframes
    (f : list (element closure) → list (element closure)) (s : sdk) : sdk :=
  Sdk (games s) (debug s) (elements s) (f (iframes s)) (listeners s) (next_fn s).
Definition set_listeners
    (f : list (nat * string) → list (nat * string)) (s : sdk) : sdk :=
  Sdk (games s) (debug s) (elements s) (iframes s) (f (listeners s)) (next_fn s).
Definition set_next_fn (n : nat) (s : sdk) : sdk :=
  Sdk (games s) (debug s) (elements s) (iframes s) (listeners s) n.

(** [new QuestPlaySDK(debug)] on a page whose elements have ids [els]. *)
Definition constructor (dbg : bool) (els : gset string) : sdk :=
  Sdk ∅ dbg els [] [] 0.

(** The argument of [addGame]; [None] in an optional field is an omitted
    property. *)
Record config : Type := Config {
  c_gameId : jsval;
  c_containerId : option string;
  c_iframeUrl : option string;
  c_userId : jsval;
  c_getUserBalance : jsval;
  c_onError : option nat;
  c_onGameResult : option nat;
  c_locale : jsval;
  c_currency : jsval;
  c_onGameLoad : option nat;
}.

(** [addGame] suspended at [await getUserBalance(userId)]. *)
Record pending : Type := Pending {
  p_gameId : string;
  p_container : string;
  p_iframeUrl : string;
  p_cfg : config;
}.

(** [this.games[gameId]] *)
Definition lookup_game (gameId : string) : M (slot game) :=
  gets (fun s => read (games s !! gameId) gameId).

(** [log(message, data)] *)
Definition log (message : string) (d : jsval) : M (S:=sdk) unit :=
  let! dbg := gets debug in
  when dbg (emit (Console LLog (tag +:+ message) [jor d (JStr EmptyString)])).

(** [bind] makes a new function object on every call. *)
Definition bind_handler : M nat :=
  let! n := gets next_fn in
  do! modify (set_next_fn (S n)) in
  ret n.

(** [addGame], from its entry to the [await]. *)
Definition addGame_begin (arg : option config) : M (add_status pending) :=
  match arg with
  | None => throw (TypeError "Cannot destructure property 'gameId' of 'undefined'")
  | Some cfg =>
    match c_gameId cfg with
    | JStr gameId =>
      if String.eqb gameId EmptyString then
        do! emit (Console LError (tag +:+ "Invalid or missing gameId.") []) in
        ret InvalidConfig
      else
        let! slot := lookup_game gameId in
        match slot with
        | Own _ | Inherited =>
          do! emit (Console LWarn
                (tag +:+ "Game with ID " +:+ dq +:+ gameId +:+ dq +:+ " already exists.") []) in
          ret DuplicateSession
        | Absent =>
          let containerId := default "undefined" (c_containerId cfg) in
          let! els := gets elements in
          if negb (bool_decide (containerId ∈ els)) then
            do! emit (Console LError
                  (tag +:+ "Container with ID " +:+ dq +:+ containerId +:+ dq +:+ " not found.") []) in
            ret TargetNotFound
          else
            match c_iframeUrl cfg with
            | Some url =>
              if negb (String.eqb url EmptyString) && String.prefix "http" url then
                match c_getUserBalance cfg with
                | JFun f =>
                  do! emit (Invoked f [c_userId cfg]) in
                  ret (Awaiting (Pending gameId containerId url cfg))
                | _ =>
                  do! emit (Console LError (tag +:+ "getUserBalance must be a function.") []) in
                  ret InvalidConfig
                end
              else
                do! emit (Console LError (tag +:+ "Invalid iframe URL.") []) in
                ret InvalidConfig
            | None =>
              do! emit (Console LError (tag +:+ "Invalid iframe URL.") []) in
              ret InvalidConfig
            end
        end
    | _ =>
      do! emit (Console LError (tag +:+ "Invalid or missing gameId.") []) in
      ret InvalidConfig
    end
  end.

(** The object stored in [this.games] and the closure of the load
    handler, for the iframe element [r] and the balance [bal]. *)
Definition new_game (k : pending) (r : nat) : game :=
  Game r (p_iframeUrl k) (c_userId (p_cfg k))
       (jor (c_locale (p_cfg k)) (JStr defaultLocale))
       (jor (c_currency (p_cfg k)) (JStr defaultCurrency))
       (c_onError (p_cfg k)) (c_onGameResult (p_cfg k)).

Definition new_closure (k : pending) (bal : jsval) : closure :=
  Closure (p_gameId k) (c_userId (p_cfg k)) bal (c_onGameLoad (p_cfg k)).

(** [addGame], from the settling of the awaited balance to its end. *)
Definition addGame_resume (k : pending) (b : settled) : M unit :=
  let! balance :=
    match b with
    | Resolved v => ret v
    | Rejected e =>
      do! emit (Console LError (tag +:+ "Failed to fetch user balance:") [e]) in
      ret (JNum 0)
    end in
  let! r := gets (fun s => length (iframes s)) in
  do! modify (set_iframes (fun l => l ++ [blank])) in
  do! modify (set_iframes (alter (with_src (p_iframeUrl k)) r)) in
  do! modify (set_iframes (alter (attached (p_container k) r) r)) in
  do! modify (set_games (insert (p_gameId k) (new_game k r))) in
  do! modify (set_iframes (alter (with_onload (new_closure k balance)) r)) in
  let! h := bind_handler in
  modify (set_listeners (fun l => l ++ [(h, p_gameId k)])).

(** [removeGame] *)
Definition removeGame (gameId : string) : M remove_status :=
  let! slot := lookup_game gameId in
  match slot with
  | Absent =>
    do! emit (Console LWarn
          (tag +:+ "Game with ID " +:+ dq +:+ gameId +:+ dq +:+ " does not exist.") []) in
    ret NotFound
  | Inherited =>
    throw (TypeError "Cannot read properties of undefined (reading 'parentElement')")
  | Own game =>
    let! els := gets iframes in
    match els !! iframe game ≫= parentElement with
    | None => throw (TypeError "Cannot read properties of null (reading 'removeChild')")
    | Some _ =>
      do! modify (set_iframes (alter detached (iframe game))) in
      do! modify (set_games (delete gameId)) in
      do! emit (Console LLog
            (tag +:+ "Game with ID " +:+ dq +:+ gameId +:+ dq +:+ " removed.") []) in
      let! h := bind_handler in
      do! modify (set_listeners (List.filter (fun l => negb (Nat.eqb (fst l) h)))) in
      ret Removed
    end
  end.

(** [postMessage(gameId, data)]; posting to a [targetOrigin] that is not
    a URL throws. *)
Definition postMessage `{Browser} (gameId : string) (d : jsval) : M unit :=
  let! slot := lookup_game gameId in
  match slot with
  | Own game =>
    let! els := gets iframes in
    match els !! iframe game ≫= contentWindow with
    | Some w =>
      match url_origin (iframeUrl game) with
      | Some _ =>
        do! emit (Posted w d (iframeUrl game)) in
        log ("Message sent to Game ID " +:+ dq +:+ gameId +:+ dq +:+ ":") d
      | None => throw (SyntaxError "Invalid target origin in a call to 'postMessage'")
      end
    | None => ret tt
    end
  | Inherited | Absent => ret tt
  end.

Definition setParentDomain `{Browser} : jsval :=
  JObj [("action", JStr "setParentDomain"); ("domain", JStr location_origin)].

Definition userDetails (uid balance loc cur : jsval) : jsval :=
  JObj [("action", JStr "userDetails"); ("userId", uid); ("balance", balance);
        ("locale", loc); ("currency", cur)].

(** The body of the arrow function assigned to [iframe.onload]. *)
Definition run_onload `{Browser} (cl : closure) : M unit :=
  let gameId := cl_gameId cl in
  do! postMessage gameId setParentDomain in
  let! slot := lookup_game gameId in
  let! lc :=
    match slot with
    | Own game => ret (locale game, currency game)
    | Inherited => ret (JUndefined, JUndefined)
    | Absent => throw (TypeError "Cannot read properties of undefined (reading 'locale')")
    end in
  do! postMessage gameId (userDetails (cl_userId cl) (cl_balance cl) (fst lc) (snd lc)) in
  invoke (cl_onGameLoad cl) [].

(** The load event of the iframe element [r]. *)
Definition load_signal `{Browser} (r : nat) : M unit :=
  let! els := gets iframes in
  match els !! r ≫= onload with
  | Some cl => run_onload cl
  | None => ret tt
  end.

Definition with_locale (v : jsval) (g : game) : game :=
  Game (iframe g) (iframeUrl g) (userId g) v (currency g) (onError g) (onGameResult g).
Definition with_currency (v : jsval) (g : game) : game :=
  Game (iframe g) (iframeUrl g) (userId g) (locale g) v (onError g) (onGameResult g).

(** [handleMessage(gameId, event)] *)
Definition handleMessage `{Browser} (gameId : string) (event : message_event) : M unit :=
  let! slot := lookup_game gameId in
  match slot with
  | Absent => ret tt
  | Inherited => throw (TypeError "Invalid URL")
  | Own game =>
    match url_origin (iframeUrl game) with
    | None => throw (TypeError "Invalid URL")
    | Some allowedOrigin =>
      if negb (String.eqb (origin event) allowedOrigin) then
        emit (Console LWarn
          (tag +:+ "Ignoring message from unauthorized origin: " +:+ origin event) [])
      else if nullish (data event) then
        throw (TypeError "Cannot destructure property 'action' of 'event.data'")
      else
        let action := get "action" (data event) in
        let d := get "data" (data event) in
        let message := get "message" (data event) in
        let loc := get "locale" (data event) in
        let cur := get "currency" (data event) in
        do! when (is_str action "gameResult") (invoke (onGameResult game) [d]) in
        do! when (is_str action "updateLocaleAndCurrency")
              (do! when (truthy loc) (modify (set_games (alter (with_locale loc) gameId))) in
               do! when (truthy cur) (modify (set_games (alter (with_currency cur) gameId))) in
               log (tag +:+ "Locale and currency updated for Game ID "
                      +:+ dq +:+ gameId +:+ dq +:+ ":")
                   (JObj [("locale", loc); ("currency", cur)])) in
        when (is_str action "error")
          (do! emit (Console LError
                 (tag +:+ "Error from Game ID " +:+ dq +:+ gameId +:+ dq +:+ ":") [message]) in
           invoke (onError game) [message])
    end
  end.

(** What one event leaves behind: the state, the effects in order and the
    exceptions no handler caught. *)
Definition reaction (W : Type) : Type := W * list effect * list exn.

Definition uncaught {A} (o : outcome A) : list exn :=
  match o with Throw e => [e] | Ret _ => [] end.

(** A [message] event on [window] runs the listeners in registration
    order; an exception in one is reported and the next one still runs. *)
Fixpoint run_listeners `{Browser} (ls : list (nat * string)) (event : message_event)
    (s : sdk) : reaction sdk :=
  match ls with
  | [] => (s, [], [])
  | l :: ls' =>
    match handleMessage (snd l) event s with
    | (o, s1, es1) =>
      match run_listeners ls' event s1 with
      | (s2, es2, xs) => (s2, es1 ++ es2, uncaught o ++ xs)
      end
    end
  end.

Definition dispatch_message `{Browser} (event : message_event) (s : sdk) : reaction sdk :=
  run_listeners (listeners s) event s.

(** *** The event loop *)

(** The page and the calls of [addGame] that are suspended at their
    [await]. *)
Record world : Type := World {
  page : sdk;
  suspended : list pending;
}.

(** What can happen next: a host call, the settling of the [i]-th awaited
    balance, the load event of an iframe, a message event. *)
Inductive input : Type :=
| CallAddGame (arg : option config)
| Settle (i : nat) (b : settled)
| CallRemoveGame (gameId : string)
| Load (r : nat)
| Message (event : message_event).

Definition boot (dbg : bool) (els : gset string) : world :=
  World (constructor dbg els) [].

Definition step `{Browser} (w : world) (i : input) : reaction world :=
  match i with
  | CallAddGame arg =>
    match addGame_begin arg (page w) with
    | (Ret (Awaiting k), s, es) => (World s (suspended w ++ [k]), es, [])
    | (o, s, es) => (World s (suspended w), es, uncaught o)
    end
  | Settle i b =>
    match suspended w !! i with
    | Some k =>
      match addGame_resume k b (page w) with
      | (o, s, es) => (World s (delete i (suspended w)), es, uncaught o)
      end
    | None => (w, [], [])
    end
  | CallRemoveGame gameId =>
    match removeGame gameId (page w) with
    | (o, s, es) => (World s (suspended w), es, uncaught o)
    end
  | Load r =>
    match load_signal r (page w) with
    | (o, s, es) => (World s (suspended w), es, uncaught o)
    end
  | Message event =>
    match dispatch_message event (page w) with
    | (s, es, xs) => (World s (suspended w), es, xs)
    end
  end.

Definition after `{Browser} (w : world) (i : input) : world := (step w i).1.1.

Fixpoint run `{Browser} (w : world) (inputs : list input) : world :=
  match inputs with
  | [] => w
  | i :: rest => run (after w i) rest
  end.

(** The states the SDK can be in. *)
Inductive reachable `{Browser} : world → Prop :=
| reach_boot dbg els : reachable (boot dbg els)
| reach_step w i : reachable w → reachable (after w i).

(** *** Derived notions *)

(** The debug line [postMessage] writes after the message. *)
Definition sent_note (s : sdk) (id : string) (d : jsval) : list effect :=
  if debug s then
    [Console LLog (tag +:+ "Message sent to Game ID " +:+ dq +:+ id +:+ dq +:+ ":")
       [jor d (JStr EmptyString)]]
  else [].

(** A game after [if (locale) game.locale = locale; if (currency)
    game.currency = currency]. *)
Definition updated (loc cur : jsval) (g : game) : game :=
  Game (iframe g) (iframeUrl g) (userId g)
       (if truthy loc then loc else locale g)
       (if truthy cur then cur else currency g)
       (onError g) (onGameResult g).

(** *** Consistency of a state *)

(** The fields of a game that no handler assigns after registration. *)
Definition identity (g : game) : nat * string * jsval * option nat * option nat :=
  (iframe g, iframeUrl g, userId g, onError g, onGameResult g).

(** [s'] differs from [s] at most in the locale and currency of games. *)
Definition frames_kept (s s' : sdk) : Prop :=
  debug s' = debug s ∧ elements s' = elements s ∧ iframes s' = iframes s ∧
  listeners s' = listeners s ∧ next_fn s' = next_fn s ∧
  ∀ id, identity <$> games s' !! id = identity <$> games s !! id.

(** A registered game has a usable id and owns a connected iframe that
    shows its URL and whose load handler was made for it. *)
Definition registered (s : sdk) (id : string) (g : game) : Prop :=
  id ≠ EmptyString ∧ inherited id = false ∧
  ∃ e cl, iframes s !! iframe g = Some e ∧ is_Some (parentElement e) ∧
          contentWindow e = Some (iframe g) ∧ src e = iframeUrl g ∧
          onload e = Some cl ∧ cl_gameId cl = id ∧ cl_userId cl = userId g.

Record consistent (w : world) : Prop := Consistent {
  games_ok : ∀ id g, games (page w) !! id = Some g → registered (page w) id g;
  listeners_ok : ∀ l, l ∈ listeners (page w) → fst l < next_fn (page w);
  suspended_ok : ∀ k, k ∈ suspended w →
    p_gameId k ≠ EmptyString ∧ inherited (p_gameId k) = false;
}.

(** The page with the debug flag at [b]. *)
Definition set_debug (b : bool) (s : sdk) : sdk :=
  Sdk (games s) b (elements s) (iframes s) (listeners s) (next_fn s).
Definition debugging (b : bool) (w : world) : world :=
  World (set_debug b (page w)) (suspended w).
End V1.

(** ** Second variant: a single listener, routing by sending window *)

Module V2.

(** An entry of [this.games]. *)
Record game : Type := Game {
  iframe : nat;
  iframeUrl : string;
  tenantName : jsval;
  gameId : string;
  userId : jsval;
  callbackUrl : jsval;
  locale : jsval;
  currency : jsval;
  balance : jsval;
  onError : option nat;
  onGameResult : option nat;
  ready : bool;
}.

(** What the arrow function assigned to [iframe.onload] closes over. *)
Record closure : Type := Closure {
  cl_tenantName : jsval;
  cl_gameId : string;
  cl_userId : jsval;
  cl_balance : jsval;
  cl_callbackUrl : jsval;
  cl_onGameLoad : option nat;
}.

(** An entry of a game's log in the inspector (the time stamp is left
    out). *)
Record entry : Type := Entry {
  dir : string;
  action : jsval;
  payload : jsval;
}.

(** [games] keeps the order in which the ids were first assigned, the
    order [Object.values] enumerates (but for ids that are array indices,
    which JavaScript enumerates first; the lookup by sending window, the
    one place that enumerates, has one match at most in every state the
    SDK reaches, see [find_by_source_registered]); [inspector] is
    [this._inspector.games] when the inspector is on; [listeners] are the
    [message] listeners on [window], by function identity. *)
Record sdk : Type := Sdk {
  games : list (string * game);
  debug : bool;
  inspector : option (gmap string (list entry));
  elements : gset string;
  iframes : list (element closure);
  listeners : list nat;
}.

Definition set_games (f : list (string * game) → list (string * game)) (s : sdk) : sdk :=
  Sdk (f (games s)) (debug s) (inspector s) (elements s) (iframes s) (listeners s).
Definition set_inspector
    (f : gmap string (list entry) → gmap string (list entry)) (s : sdk) : sdk :=
  Sdk (games s) (debug s) (f <$> inspector s) (elements s) (iframes s) (listeners s).
Definition set_iframes
    (f : list (element closure) → list (element closure)) (s : sdk) : sdk :=
  Sdk (games s) (debug s) (inspector s) (elements s) (f (iframes s)) (listeners s).

(** [obj[k]], [obj[k] = v] and a change of the object stored at [k], on
    an object kept as the list of its own properties. *)
Fixpoint own {A} (k : string) (l : list (string * A)) : option A :=
  match l with
  | [] => None
  | (k', a) :: l' => if String.eqb k' k then Some a else own k l'
  end.

Fixpoint assign {A} (k : string) (a : A) (l : list (string * A)) : list (string * A) :=
  match l with
  | [] => [(k, a)]
  | (k', a') :: l' =>
    if String.eqb k' k then (k', a) :: l' else (k', a') :: assign k a l'
  end.

Fixpoint mutate {A} (f : A → A) (k : string) (l : list (string * A)) : list (string * A) :=
  match l with
  | [] => []
  | (k', a) :: l' =>
    if String.eqb k' k then (k', f a) :: l' else (k', a) :: mutate f k l'
  end.

(** [new QuestPlaySDK({debug, inspector})] on a page whose elements have
    ids [els]: the one listener is registered here, and the inspector
    panel brings the element [qp-games] into the document.  The page is
    taken to have no element of that id of its own, and a body to append
    the panel to. *)
Definition constructor (dbg insp : bool) (els : gset string) : sdk :=
  Sdk [] dbg (if insp then Some ∅ else None)
      (if insp then els ∪ {[ "qp-games" ]} else els) [] [0].

Record config : Type := Config {
  c_tenantName : jsval;
  c_gameId : option string;
  c_containerId : option string;
  c_iframeUrl : option string;
  c_userId : jsval;
  c_getUserBalance : jsval;
  c_onError : option nat;
  c_onGameResult : option nat;
  c_locale : jsval;
  c_currency : jsval;
  c_callbackUrl : jsval;
  c_onGameLoad : option nat;
}.

(** [config || {}] on an absent argument. *)
Definition empty_config : config :=
  Config JUndefined None None None JUndefined JUndefined None None
         JUndefined JUndefined JUndefined None.

(** [addGame] suspended at [await getUserBalance(userId)]. *)
Record pending : Type := Pending {
  p_gameId : string;
  p_container : string;
  p_iframeUrl : string;
  p_cfg : config;
}.

(** A string property that is present and not empty. *)
Definition filled (o : option string) : option string :=
  match o with
  | Some s => if String.eqb s EmptyString then None else Some s
  | None => None
  end.

Definition lookup_game (gameId : string) : M (slot game) :=
  gets (fun s => read (own gameId (games s)) gameId).

(** [_log(msg, data)] *)
Definition _log (msg : string) (d : jsval) : M (S:=sdk) unit :=
  let! dbg := gets debug in
  when dbg (emit (Console LLog (tag +:+ msg) [jor d (JStr EmptyString)])).

(** [_fail(msg)] *)
Definition _fail (msg : string) : M (S:=sdk) unit :=
  emit (Console LError (tag +:+ msg) []).

(** The id of the element the inspector writes its panel into. *)
Definition panel : string := "qp-games".

(** Whether the panel can be written: every entry it shows, the first
    five of each log, has an action that a template string can turn into
    text. *)
Definition renders (logs : gmap string (list entry)) : bool :=
  bool_decide (map_Forall (fun _ l => forallb (fun e => converts (action e)) (take 5 l) = true)
                          logs).

(** What the assignment to [root.innerHTML] does to an iframe: one that
    was appended to the panel element is thrown out of the document. *)
Definition thrown_out (e : element closure) : element closure :=
  if bool_decide (parentElement e = Some panel) then detached e else e.

(** [_renderInspector()].  The markup is built first, which throws when
    an action has no text, and then replaces the children of the panel
    element.  The text of an id or an action is taken to hold no markup
    of its own. *)
Definition _renderInspector : M unit :=
  let! els := gets elements in
  if bool_decide (panel ∈ els) then
    let! insp := gets inspector in
    match insp with
    | Some logs =>
      if renders logs then modify (set_iframes (fmap thrown_out))
      else throw (TypeError "Cannot convert object to primitive value")
    | None => throw (TypeError "Cannot read properties of undefined (reading 'games')")
    end
  else ret tt.

(** [this._inspector?.addGame(id)] *)
Definition inspector_addGame (id : string) : M unit :=
  let! insp := gets inspector in
  match insp with
  | None => ret tt
  | Some _ =>
    do! modify (set_inspector (insert id [])) in
    _renderInspector
  end.

(** [this._inspector?.log(id, dir, action, data)] and
    [this._inspector?.error(id, msg)]: the entry goes to the front of the
    log of [id], if there is one, and the panel is written anew. *)
Definition inspector_push (id : string) (e : entry) : M unit :=
  let! insp := gets inspector in
  match insp with
  | None => ret tt
  | Some logs =>
    do! match read (logs !! id) id with
        | Own _ => modify (set_inspector (alter (cons e) id))
        | Inherited =>
          throw (TypeError "Cannot read properties of undefined (reading 'unshift')")
        | Absent => ret tt
        end in
    _renderInspector
  end.

(** The object stored in [this.games] and the closure of the load
    handler, for the iframe element [r] and the balance [bal]. *)
Definition new_game (k : pending) (r : nat) (bal : jsval) : game :=
  Game r (p_iframeUrl k) (c_tenantName (p_cfg k)) (p_gameId k) (c_userId (p_cfg k))
       (c_callbackUrl (p_cfg k))
       (jor (c_locale (p_cfg k)) (JStr defaultLocale))
       (jor (c_currency (p_cfg k)) (JStr defaultCurrency))
       bal (c_onError (p_cfg k)) (c_onGameResult (p_cfg k)) false.

Definition new_closure (k : pending) (bal : jsval) : closure :=
  Closure (c_tenantName (p_cfg k)) (p_gameId k) (c_userId (p_cfg k)) bal
          (c_callbackUrl (p_cfg k)) (c_onGameLoad (p_cfg k)).

(** [addGame], from the end of the [try] statement on, with the balance
    it left behind. *)
Definition addGame_finish (k : pending) (bal : jsval) : M unit :=
  let! r := gets (fun s => length (iframes s)) in
  do! modify (set_iframes (fun l => l ++ [blank])) in
  do! modify (set_iframes (alter (with_src (p_iframeUrl k)) r)) in
  do! modify (set_iframes (alter (attached (p_container k) r) r)) in
  do! modify (set_games (assign (p_gameId k) (new_game k r bal))) in
  do! inspector_addGame (p_gameId k) in
  modify (set_iframes (alter (with_onload (new_closure k bal)) r)).

(** [addGame], from its entry to the [await].  A [getUserBalance] that is
    not a function makes the call throw inside the [try]; the [catch]
    leaves the balance at 0 and the function runs on without suspending. *)
Definition addGame_begin (arg : option config) : M (add_status pending) :=
  let cfg := default empty_config arg in
  match filled (c_gameId cfg), filled (c_containerId cfg), filled (c_iframeUrl cfg) with
  | Some id, Some containerId, Some url =>
    if truthy (c_tenantName cfg) && truthy (c_callbackUrl cfg) then
      let! slot := lookup_game id in
      match slot with
      | Own _ | Inherited =>
        do! _fail ("Game " +:+ id +:+ " already exists") in
        ret DuplicateSession
      | Absent =>
        let! els := gets elements in
        if negb (bool_decide (containerId ∈ els)) then
          do! _fail ("Container " +:+ containerId +:+ " not found") in
          ret TargetNotFound
        else
          let k := Pending id containerId url cfg in
          match c_getUserBalance cfg with
          | JFun f =>
            do! emit (Invoked f [c_userId cfg]) in
            ret (Awaiting k)
          | _ =>
            do! addGame_finish k (JNum 0) in
            ret Registered
          end
      end
    else
      do! _fail "Missing required game configuration" in
      ret InvalidConfig
  | _, _, _ =>
    do! _fail "Missing required game configuration" in
    ret InvalidConfig
  end.

(** [addGame], from the settling of the awaited balance to its end. *)
Definition addGame_resume (k : pending) (b : settled) : M unit :=
  addGame_finish k (settled_balance b).

(** The text a template string makes of a value that [converts];
    [None] where the model does not spell the text out: a number beyond
    the integers JavaScript holds exactly, and a function. *)
Definition text_of (v : jsval) : option string :=
  match v with
  | JUndefined => Some "undefined"
  | JNull => Some "null"
  | JBool true => Some "true"
  | JBool false => Some "false"
  | JNum n => if (Z.abs n <? 2 ^ 53)%Z then Some (pretty n) else None
  | JStr s => Some s
  | JFun _ => None
  | JObj _ => Some "[object Object]"
  end.

(** The message of the debug line for a received action,
    [`← ${action}`]; where the model has no text for the action the
    template stands in its place. *)
Definition arrow (act : jsval) : string :=
  "← " +:+ default "${action}" (text_of act).

(** [{ action, data }] *)
Definition envelope (act : string) (d : jsval) : jsval :=
  JObj [("action", JStr act); ("data", d)].

(** [_send(gameId, action, data)] *)
Definition _send (id act : string) (d : jsval) : M unit :=
  let! slot := lookup_game id in
  match slot with
  | Own game =>
    let! els := gets iframes in
    match els !! iframe game ≫= contentWindow with
    | Some w =>
      let p := envelope act d in
      do! emit (Posted w p "*") in
      do! _log ("→ " +:+ act) p in
      inspector_push id (Entry "SEND" (JStr act) d)
    | None => ret tt
    end
  | Inherited | Absent => ret tt
  end.

Definition userDetails (cl : closure) (loc cur : jsval) : jsval :=
  JObj [("tenantName", cl_tenantName cl); ("gameId", JStr (cl_gameId cl));
        ("userId", cl_userId cl); ("balance", cl_balance cl);
        ("callbackUrl", cl_callbackUrl cl); ("locale", loc); ("currency", cur)].

(** The body of the arrow function assigned to [iframe.onload]. *)
Definition run_onload `{Browser} (cl : closure) : M unit :=
  let id := cl_gameId cl in
  do! _send id "setParentDomain" (JStr location_origin) in
  let! slot := lookup_game id in
  let! lc :=
    match slot with
    | Own game => ret (locale game, currency game)
    | Inherited => ret (JUndefined, JUndefined)
    | Absent => throw (TypeError "Cannot read properties of undefined (reading 'locale')")
    end in
  do! _send id "userDetails" (userDetails cl (fst lc) (snd lc)) in
  invoke (cl_onGameLoad cl) [].

(** The load event of the iframe element [r]. *)
Definition load_signal `{Browser} (r : nat) : M unit :=
  let! els := gets iframes in
  match els !! r ≫= onload with
  | Some cl => run_onload cl
  | None => ret tt
  end.

(** [Object.values(this.games).find(g => g.iframe.contentWindow ===
    event.source)], with the key the game is stored under. *)
Fixpoint find_by_source (els : list (element closure)) (src : option nat)
    (gs : list (string * game)) : option (string * game) :=
  match gs with
  | [] => None
  | (k, g) :: gs' =>
    if bool_decide (els !! iframe g ≫= contentWindow = src) then Some (k, g)
    else find_by_source els src gs'
  end.

Definition set_ready (g : game) : game :=
  Game (iframe g) (iframeUrl g) (tenantName g) (gameId g) (userId g) (callbackUrl g)
       (locale g) (currency g) (balance g) (onError g) (onGameResult g) true.

(** [_handleMessage(event)] *)
Definition _handleMessage (event : message_event) : M unit :=
  let d0 := if truthy (data event) then data event else JObj [] in
  let act := get "action" d0 in
  let d := get "data" d0 in
  let message := get "message" d0 in
  if negb (truthy act) then ret tt
  else
    let! found := gets (fun s => find_by_source (iframes s) (source event) (games s)) in
    match found with
    | None => ret tt
    | Some (k, game) =>
      if converts act then
        do! _log (arrow act) d in
        do! inspector_push (gameId game) (Entry "RECV" act d) in
        if is_str act "gameLoaded" then modify (set_games (mutate set_ready k))
        else if is_str act "gameResult" then invoke (onGameResult game) [d]
        else if is_str act "error" then
          do! invoke (onError game) [message] in
          inspector_push (gameId game) (Entry "ERR" message JUndefined)
        else ret tt
      else throw (TypeError "Cannot convert object to primitive value")
    end.

Definition reaction (W : Type) : Type := W * list effect * list exn.

Definition uncaught {A} (o : outcome A) : list exn :=
  match o with Throw e => [e] | Ret _ => [] end.

(** A [message] event on [window] runs every registered listener; each
    of them is the bound [_handleMessage]. *)
Fixpoint run_listeners (ls : list nat) (event : message_event) (s : sdk) : reaction sdk :=
  match ls with
  | [] => (s, [], [])
  | _ :: ls' =>
    match _handleMessage event s with
    | (o, s1, es1) =>
      match run_listeners ls' event s1 with
      | (s2, es2, xs) => (s2, es1 ++ es2, uncaught o ++ xs)
      end
    end
  end.

Definition dispatch_message (event : message_event) (s : sdk) : reaction sdk :=
  run_listeners (listeners s) event s.

(** *** The event loop *)

Record world : Type := World {
  page : sdk;
  suspended : list pending;
}.

(** This variant has no [removeGame]. *)
Inductive input : Type :=
| CallAddGame (arg : option config)
| Settle (i : nat) (b : settled)
| Load (r : nat)
| Message (event : message_event).

Definition boot (dbg insp : bool) (els : gset string) : world :=
  World (constructor dbg insp els) [].

Definition step `{Browser} (w : world) (i : input) : reaction world :=
  match i with
  | CallAddGame arg =>
    match addGame_begin arg (page w) with
    | (Ret (Awaiting k), s, es) => (World s (suspended w ++ [k]), es, [])
    | (o, s, es) => (World s (suspended w), es, uncaught o)
    end
  | Settle i b =>
    match suspended w !! i with
    | Some k =>
      match addGame_resume k b (page w) with
      | (o, s, es) => (World s (delete i (suspended w)), es, uncaught o)
      end
    | None => (w, [], [])
    end
  | Load r =>
    match load_signal r (page w) with
    | (o, s, es) => (World s (suspended w), es, uncaught o)
    end
  | Message event =>
    match dispatch_message event (page w) with
    | (s, es, xs) => (World s (suspended w), es, xs)
    end
  end.

Definition after `{Browser} (w : world) (i : input) : world := (step w i).1.1.

Fixpoint run `{Browser} (w : world) (inputs : list input) : world :=
  match inputs with
  | [] => w
  | i :: rest => run (after w i) rest
  end.

Inductive reachable `{Browser} : world → Prop :=
| reach_boot dbg insp els : reachable (boot dbg insp els)
| reach_step w i : reachable w → reachable (after w i).

(** *** Derived notions *)

(** What [addGame] has checked when it gets past its guards. *)
Definition accepted (s : sdk) (arg : option config) (k : pending) : Prop :=
  arg = Some (p_cfg k) ∧ c_gameId (p_cfg k) = Some (p_gameId k) ∧
  inherited (p_gameId k) = false ∧ own (p_gameId k) (games s) = None ∧
  p_container k ∈ elements s ∧ c_iframeUrl (p_cfg k) = Some (p_iframeUrl k) ∧
  p_iframeUrl k ≠ EmptyString.

(** Every property [addGame] requires is there. *)
Definition complete (cfg : config) : Prop :=
  is_Some (filled (c_gameId cfg)) ∧ is_Some (filled (c_containerId cfg)) ∧
  is_Some (filled (c_iframeUrl cfg)) ∧
  truthy (c_tenantName cfg) = true ∧ truthy (c_callbackUrl cfg) = true.

(** The debug line [_send] writes after the message. *)
Definition sent_note (s : sdk) (act : string) (d : jsval) : list effect :=
  if debug s then
    [Console LLog (tag +:+ "→ " +:+ act) [jor (envelope act d) (JStr EmptyString)]]
  else [].

(** The fields of a game that no handler assigns after registration. *)
Definition identity (g : game) : game :=
  Game (iframe g) (iframeUrl g) (tenantName g) (gameId g) (userId g) (callbackUrl g)
       (locale g) (currency g) (balance g) (onError g) (onGameResult g) false.

(** [s'] differs from [s] at most in the [ready] flags and the inspector. *)
Definition frames_kept (s s' : sdk) : Prop :=
  debug s' = debug s ∧ elements s' = elements s ∧ iframes s' = iframes s ∧
  listeners s' = listeners s ∧ (games s').*1 = (games s).*1 ∧
  ∀ id, identity <$> own id (games s') = identity <$> own id (games s).

(** *** Consistency of a state *)

(** The load handler [cl] was made for the game [g]. *)
Definition made_for (g : game) (cl : closure) : Prop :=
  cl_gameId cl = gameId g ∧ cl_tenantName cl = tenantName g ∧
  cl_userId cl = userId g ∧ cl_balance cl = balance g ∧
  cl_callbackUrl cl = callbackUrl g.

(** A registered game is stored under its own id and owns a connected
    iframe whose load handler was made for it. *)
Definition registered (s : sdk) (id : string) (g : game) : Prop :=
  inherited id = false ∧ gameId g = id ∧
  ∃ e cl, iframes s !! iframe g = Some e ∧ contentWindow e = Some (iframe g) ∧
          onload e = Some cl ∧ made_for g cl.

Record consistent (w : world) : Prop := Consistent {
  games_ok : ∀ id g, own id (games (page w)) = Some g → registered (page w) id g;
  keys_ok : NoDup (games (page w)).*1;
  closures_ok : ∀ r e cl, iframes (page w) !! r = Some e → onload e = Some cl →
    is_Some (own (cl_gameId cl) (games (page w)));
  listeners_ok : listeners (page w) = [0];
  suspended_ok : ∀ k, k ∈ suspended w → inherited (p_gameId k) = false;
}.

(** From a state without the inspector: [s'] has none either, and
    differs from [s] at most in the [ready] flags. *)
Definition plain_frames (s s' : sdk) : Prop :=
  inspector s = None → frames_kept s s' ∧ inspector s' = None.

(** What no handler changes, with or without the inspector: the
    listeners, the debug flag, the document's elements, and whether there
    is an inspector. *)
Definition steady (s s' : sdk) : Prop :=
  listeners s' = listeners s ∧ debug s' = debug s ∧ elements s' = elements s ∧
  (inspector s' = None ↔ inspector s = None).

(** Every game of [s] that is ready is a game of [s'] and ready there. *)
Definition ready_kept (s s' : sdk) : Prop :=
  ∀ id g, own id (games s) = Some g → ready g = true →
  ∃ g', own id (games s') = Some g' ∧ ready g' = true.

(** The page with the debug flag at [b]. *)
Definition set_debug (b : bool) (s : sdk) : sdk :=
  Sdk (games s) b (inspector s) (elements s) (iframes s) (listeners s).
Definition debugging (b : bool) (w : world) : world :=
  World (set_debug b (page w)) (suspended w).
End V2.

(** ** A concrete page, for running the model *)

Module Sample.

Fixpoint host_part (s : string) : string :=
  match s with
  | EmptyString => EmptyString
  | String c r => if Ascii.eqb c (Ascii.ascii_of_nat 47) then EmptyString else String c (host_part r)
  end.

Definition after_scheme (scheme u : string) : option string :=
  if String.prefix scheme u then
    let h := host_part (String.substring (String.length scheme)
                          (String.length u - String.length scheme) u) in
    if String.eqb h EmptyString then None else Some (scheme +:+ h)
  else None.

(** Origins of [http://host/...] and [https://host/...] addresses; every
    other string fails to parse. *)
Definition sample_origin (u : string) : option string :=
  match after_scheme "https://" u with
  | Some o => Some o
  | None => after_scheme "http://" u
  end.

Definition browser : Browser :=
  {| location_origin := "https://host.example"; url_origin := sample_origin |}.

Definition page_elements : gset string := {[ "slot-a"; "slot-b" ]}.

Definition games_origin : string := "https://games.example".

(** Host functions, by identity. *)
Definition fn_balance : nat := 100.
Definition fn_error_a : nat := 101.
Definition fn_result_a : nat := 102.
Definition fn_load_a : nat := 103.
Definition fn_error_b : nat := 201.
Definition fn_result_b : nat := 202.
Definition fn_load_b : nat := 203.

Definition cfg_a : V1.config :=
  V1.Config (JStr "a") (Some "slot-a") (Some "https://games.example/dice")
    (JStr "u1") (JFun fn_balance) (Some fn_error_a) (Some fn_result_a)
    JUndefined JUndefined (Some fn_load_a).

Definition cfg_b : V1.config :=
  V1.Config (JStr "b") (Some "slot-b") (Some "https://games.example/slots")
    (JStr "u1") (JFun fn_balance) (Some fn_error_b) (Some fn_result_b)
    (JStr "sw-TZ") (JStr "KES") (Some fn_load_b).

(** A configuration that gives no callback. *)
Definition cfg_quiet : V1.config :=
  V1.Config (JStr "q") (Some "slot-a") (Some "https://games.example/dice")
    (JStr "u1") (JFun fn_balance) None None JUndefined JUndefined None.

Definition v1_boot : V1.world := V1.boot false page_elements.

(** [a] added and its balance resolved to 500. *)
Definition v1_one : V1.world :=
  V1.run (H:=browser) v1_boot
    [V1.CallAddGame (Some cfg_a); V1.Settle 0 (Resolved (JNum 500))].

(** [a] and [b], both served from [games_origin]. *)
Definition v1_two : V1.world :=
  V1.run (H:=browser) v1_one
    [V1.CallAddGame (Some cfg_b); V1.Settle 0 (Resolved (JNum 500))].

Definition cfg2_a : V2.config :=
  V2.Config (JStr "tenant") (Some "a") (Some "slot-a") (Some "https://games.example/dice")
    (JStr "u1") (JFun fn_balance) (Some fn_error_a) (Some fn_result_a)
    JUndefined JUndefined (JStr "https://host.example/callback") (Some fn_load_a).

Definition cfg2_b : V2.config :=
  V2.Config (JStr "tenant") (Some "b") (Some "slot-b") (Some "https://games.example/slots")
    (JStr "u1") (JFun fn_balance) (Some fn_error_b) (Some fn_result_b)
    (JStr "sw-TZ") (JStr "KES") (JStr "https://host.example/callback") (Some fn_load_b).


Definition v2_boot : V2.world := V2.boot false true page_elements.

Definition v2_one : V2.world :=
  V2.run (H:=browser) v2_boot
    [V2.CallAddGame (Some cfg2_a); V2.Settle 0 (Resolved (JNum 500))].

Definition v2_two : V2.world :=
  V2.run (H:=browser) v2_one
    [V2.CallAddGame (Some cfg2_b); V2.Settle 0 (Resolved (JNum 500))].

(** The same page and games with the inspector off. *)
Definition v2_plain_boot : V2.world := V2.boot false false page_elements.

Definition v2_plain_one : V2.world :=
  V2.run (H:=browser) v2_plain_boot
    [V2.CallAddGame (Some cfg2_a); V2.Settle 0 (Resolved (JNum 500))].

Definition v2_plain_two : V2.world :=
  V2.run (H:=browser) v2_plain_one
    [V2.CallAddGame (Some cfg2_b); V2.Settle 0 (Resolved (JNum 500))].

(** Messages a game window may send. *)
Definition msg (act : string) (fields : list (string * jsval)) (w : nat) : message_event :=
  MessageEvent (JObj (("action", JStr act) :: fields)) games_origin (Some w).

End Sample.

(** * Proofs *)

Ltac unmonad :=
  unfold bind, ret, throw, emit, gets, modify, when, invoke in *.

Section Keeps.
Context {S : Type}.

Context (P : S → S → Prop) `{!PreOrder P}.

Lemma keeps_ret {A} (a : A) : keeps P (ret a).
Proof. intros s. simpl. reflexivity. Qed.
Lemma keeps_throw {A} e : keeps P (throw (A:=A) e).
Proof. intros s. simpl. reflexivity. Qed.
Lemma keeps_emit e : keeps P (emit e).
Proof. intros s. simpl. reflexivity. Qed.
Lemma keeps_gets {A} (f : S → A) : keeps P (gets f).
Proof. intros s. simpl. reflexivity. Qed.
Lemma keeps_modify f : (∀ s, P s (f s)) → keeps P (modify f).
Proof. intros Hf s. simpl. apply Hf. Qed.
Lemma keeps_bind {A B} (m : M A) (k : A → M B) :
  keeps P m → (∀ a, keeps P (k a)) → keeps P (bind m k).
Proof.
  intros Hm Hk s. unfold bind. specialize (Hm s).
  destruct (m s) as [[[a|e] s1] es1]; simpl in *; [|done].
  specialize (Hk a s1). destruct (k a s1) as [[o s2] es2]. simpl in *.
  by etrans.
Qed.
Lemma keeps_when b m : keeps P m → keeps P (when b m).
Proof. destruct b; [done|]. intros _. apply keeps_ret. Qed.
Lemma keeps_invoke f args : keeps P (invoke f args).
Proof. destruct f; [apply keeps_emit|apply keeps_ret]. Qed.
End Keeps.

Lemma visible_app (es1 es2 : list effect) :
  visible (es1 ++ es2) = visible es1 ++ visible es2.
Proof. apply List.filter_app. Qed.

Section Runs.
Context {S : Type}.
Implicit Types s : S.

Lemma runs_ret {A} (a : A) s : runs (ret a) s a s [].
Proof. done. Qed.
Lemma runs_emit e s : runs (emit e) s tt s [e].
Proof. done. Qed.
Lemma runs_gets {A} (f : S → A) s : runs (gets f) s (f s) s [].
Proof. done. Qed.
Lemma runs_modify f s : runs (modify f) s tt (f s) [].
Proof. done. Qed.
Lemma runs_invoke f args s : runs (invoke f args) s tt s (invocation f args).
Proof. by destruct f. Qed.
Lemma runs_bind {A B} (m : M A) (k : A → M B) s a s1 es1 b s2 es2 :
  runs m s a s1 es1 → runs (k a) s1 b s2 es2 →
  runs (bind m k) s b s2 (es1 ++ es2).
Proof. unfold runs, bind. by intros -> ->. Qed.
Lemma runs_effects {A} (m : M A) s a s' es es' :
  runs m s a s' es → es = es' → runs m s a s' es'.
Proof. by intros ? <-. Qed.

Lemma bind_run {A B} (m : M A) (k : A → M B) s a s1 es1 :
  runs m s a s1 es1 →
  bind m k s = ((k a s1).1.1, (k a s1).1.2, es1 ++ (k a s1).2).
Proof. unfold runs, bind. intros ->. by destruct (k a s1) as [[??]?]. Qed.
End Runs.

(** Break a handler body down along its structure. *)
Ltac step_keeps :=
  first
    [ solve [apply keeps_ret; apply _] | solve [apply keeps_throw; apply _]
    | solve [apply keeps_emit; apply _] | solve [apply keeps_gets; apply _]
    | solve [apply keeps_invoke; apply _]
    | apply keeps_when; [apply _|]
    | apply keeps_bind; [apply _| |intros ?]
    | match goal with
      | |- keeps _ (match ?x with _ => _ end) => destruct x
      end ].
Section V1Facts.
Context `{Browser}.
Import V1.

Lemma alter_last {A} (f : A → A) (l : list A) (x : A) :
  alter f (length l) (l ++ [x]) = l ++ [f x].
Proof.
  replace (length l) with (length l + 0) by lia.
  by rewrite alter_app_r.
Qed.

Global Instance v1_frames_kept_preorder : PreOrder frames_kept.
Proof.
  split.
  - intros s. by repeat split.
  - intros s1 s2 s3 (?&?&?&?&?&Ha) (?&?&?&?&?&Hb).
    repeat split; first [congruence | intros id; by rewrite Hb, Ha].
Qed.

Lemma frames_kept_alter f id s :
  (∀ g, identity (f g) = identity g) →
  frames_kept s (set_games (alter f id) s).
Proof.
  intros Hf. repeat split; try done. intros id'. simpl.
  destruct (decide (id = id')) as [->|Hne].
  - rewrite lookup_alter_eq. destruct (games s !! id'); simpl; [by rewrite Hf|done].
  - by rewrite lookup_alter_ne.
Qed.

Lemma log_unchanged m d : keeps eq (log m d).
Proof. unfold log. repeat step_keeps. Qed.

Lemma addGame_begin_unchanged arg : keeps eq (addGame_begin arg).
Proof. unfold addGame_begin, lookup_game. repeat step_keeps. Qed.

Lemma postMessage_unchanged id d : keeps eq (postMessage id d).
Proof.
  unfold postMessage, lookup_game.
  repeat first [apply log_unchanged | step_keeps].
Qed.

Lemma load_signal_unchanged r : keeps eq (load_signal r).
Proof.
  unfold load_signal, run_onload, lookup_game.
  repeat first [apply postMessage_unchanged | step_keeps].
Qed.

Lemma handleMessage_frames id ev : keeps frames_kept (handleMessage id ev).
Proof.
  unfold handleMessage, lookup_game. cbv zeta.
  repeat first
    [ apply keeps_modify; intros ?; apply frames_kept_alter; by intros []
    | step_keeps ].
Qed.
End V1Facts.

Section V1Facts3.
Context `{Browser}.
Import V1.

Lemma addGame_resume_eq k b s :
  addGame_resume k b s =
    (Ret tt,
     Sdk (<[p_gameId k := new_game k (length (iframes s))]> (games s))
         (debug s) (elements s)
         (iframes s ++ [Element (p_iframeUrl k) (Some (p_container k))
                          (Some (length (iframes s)))
                          (Some (new_closure k (settled_balance b)))])
         (listeners s ++ [(next_fn s, p_gameId k)]) (S (next_fn s)),
     match b with
     | Resolved _ => []
     | Rejected e => [Console LError (tag +:+ "Failed to fetch user balance:") [e]]
     end).
Proof.
  unfold addGame_resume, bind_handler. unmonad.
  destruct b; simpl; unfold set_iframes, set_games, set_listeners; simpl;
    by rewrite !alter_last.
Qed.

Lemma removeGame_absent id s :
  read (games s !! id) id = Absent →
  removeGame id s =
    (Ret NotFound, s,
     [Console LWarn (tag +:+ "Game with ID " +:+ dq +:+ id +:+ dq +:+ " does not exist.") []]).
Proof. intros Hr. unfold removeGame, lookup_game. unmonad. simpl. by rewrite Hr. Qed.

Lemma removeGame_inherited id s :
  read (games s !! id) id = Inherited →
  removeGame id s =
    (Throw (TypeError "Cannot read properties of undefined (reading 'parentElement')"),
     s, []).
Proof. intros Hr. unfold removeGame, lookup_game. unmonad. simpl. by rewrite Hr. Qed.

Lemma removeGame_own id g s :
  games s !! id = Some g →
  is_Some (iframes s !! iframe g ≫= parentElement) →
  removeGame id s =
    (Ret Removed,
     Sdk (delete id (games s)) (debug s) (elements s)
         (alter detached (iframe g) (iframes s))
         (List.filter (fun l => negb (Nat.eqb (fst l) (next_fn s))) (listeners s))
         (S (next_fn s)),
     [Console LLog (tag +:+ "Game with ID " +:+ dq +:+ id +:+ dq +:+ " removed.") []]).
Proof.
  intros Hg [c Hc]. unfold removeGame, lookup_game, bind_handler. unmonad. simpl.
  rewrite Hg. simpl. by rewrite Hc.
Qed.

Lemma filter_fresh (ls : list (nat * string)) n :
  (∀ l, l ∈ ls → fst l < n) →
  List.filter (fun l => negb (Nat.eqb (fst l) n)) ls = ls.
Proof.
  intros Hlt. apply forallb_filter_id, forallb_forall. intros l Hin.
  apply list_elem_of_In, Hlt in Hin.
  apply negb_true_iff, Nat.eqb_neq. lia.
Qed.

Lemma read_absent {A} (o : option A) k :
  read o k = Absent ↔ o = None ∧ inherited k = false.
Proof. unfold read. destruct o, (inherited k); split; (done || by intros []). Qed.

Lemma read_own {A} (o : option A) k a : read o k = Own a ↔ o = Some a.
Proof. unfold read. destruct o, (inherited k); naive_solver. Qed.

(** What a suspended [addGame] has checked. *)
Lemma addGame_begin_awaiting arg s k s' es :
  addGame_begin arg s = (Ret (Awaiting k), s', es) →
  s' = s ∧ arg = Some (p_cfg k) ∧ c_gameId (p_cfg k) = JStr (p_gameId k) ∧
  p_gameId k ≠ EmptyString ∧ inherited (p_gameId k) = false ∧
  games s !! p_gameId k = None ∧ p_container k ∈ elements s ∧
  c_iframeUrl (p_cfg k) = Some (p_iframeUrl k) ∧
  String.prefix "http" (p_iframeUrl k) = true ∧
  ∃ f, c_getUserBalance (p_cfg k) = JFun f ∧ es = [Invoked f [c_userId (p_cfg k)]].
Proof.
  unfold addGame_begin, lookup_game. unmonad. destruct arg as [cfg|]; [|done].
  destruct (c_gameId cfg) eqn:Hid; try done.
  destruct (String.eqb s0 EmptyString) eqn:He; [done|]. simpl.
  destruct (read _ _) eqn:Hr; try done. simpl.
  destruct (bool_decide _) eqn:Hc; [|done]. simpl.
  destruct (c_iframeUrl cfg) eqn:Hu; [|done].
  destruct (negb _ && _) eqn:Hp; [|done].
  destruct (c_getUserBalance cfg) eqn:Hf; try done. simpl.
  intros [= <- <- <-]. simpl.
  apply read_absent in Hr as [? ?]. apply String.eqb_neq in He.
  apply bool_decide_eq_true in Hc. apply andb_true_iff in Hp as [_ Hp].
  rewrite Hid, Hu, Hf. eauto 15.
Qed.
End V1Facts3.

Section V1Consistency.
Context `{Browser}.
Import V1.

Lemma v1_run_listeners_frames ls ev s :
  frames_kept s (run_listeners ls ev s).1.1.
Proof.
  revert s. induction ls as [|l ls IH]; intros s; simpl; [reflexivity|].
  pose proof (handleMessage_frames (snd l) ev s) as Hh.
  destruct (handleMessage _ _ _) as [[o s1] es1]. simpl in Hh.
  specialize (IH s1). destruct (run_listeners _ _ _) as [[s2 es2] xs]. simpl in *.
  by etrans.
Qed.

Lemma v1_registered_frames s s' id g g' :
  frames_kept s s' → identity g' = identity g →
  registered s id g → registered s' id g'.
Proof.
  intros (_&_&Hi&_) [= Hg Hu Hv _ _] (?&?&e&cl&?). split_and!; [done..|].
  exists e, cl. by rewrite Hi, Hg, Hu, Hv.
Qed.

Lemma v1_consistent_frames w s' :
  consistent w → frames_kept (page w) s' → consistent (World s' (suspended w)).
Proof.
  intros [Hg Hl Hs] Hk. pose proof Hk as (_&_&_&Hls&Hn&Hgs).
  split; simpl.
  - intros id g' Hg'. specialize (Hgs id). rewrite Hg' in Hgs.
    destruct (games (page w) !! id) as [g|] eqn:Eg; [|done].
    assert (identity g' = identity g)
      by (change (Some (identity g') = Some (identity g)) in Hgs; congruence).
    eapply v1_registered_frames; eauto.
  - intros l. rewrite Hls, Hn. apply Hl.
  - done.
Qed.

Lemma v1_consistent_boot dbg els : consistent (boot dbg els).
Proof.
  split; simpl.
  - intros id g. by rewrite lookup_empty.
  - intros l Hl. by apply elem_of_nil in Hl.
  - intros k Hk. by apply elem_of_nil in Hk.
Qed.

Lemma v1_consistent_settle w i k b :
  consistent w → suspended w !! i = Some k →
  consistent (World (addGame_resume k b (page w)).1.2 (delete i (suspended w))).
Proof.
  intros [Hg Hl Hs] Hk. rewrite addGame_resume_eq. simpl.
  destruct (Hs k) as [Hne Hinh]; [by eapply list_elem_of_lookup_2|].
  split; simpl.
  - intros id g. rewrite lookup_insert. case_decide as Hid.
    + intros [= <-]. subst id. split_and!; [done..|].
      eexists _, _. simpl. split; [by apply list_lookup_middle|]. simpl. eauto 10.
    + intros Hin. destruct (Hg _ _ Hin) as (?&?&e0&cl&Hl0&?).
      split_and!; [done..|]. exists e0, cl. split; [|done].
      by apply lookup_app_l_Some.
  - intros l [Hin| ->%list_elem_of_singleton]%elem_of_app; simpl; [|lia].
    specialize (Hl _ Hin). lia.
  - intros k' Hk'. apply Hs. eapply elem_of_submseteq; [exact Hk'|].
    apply sublist_submseteq, sublist_delete.
Qed.

Lemma v1_consistent_remove w id :
  consistent w →
  consistent (World (removeGame id (page w)).1.2 (suspended w)).
Proof.
  intros Hw. pose proof Hw as [Hg Hl Hs].
  destruct (read (games (page w) !! id) id) as [g| |] eqn:Hr.
  - apply read_own in Hr. destruct (Hg _ _ Hr) as (_&_&e&cl&He&[c Hc]&Hw0&_&Ho&Hid&_).
    rewrite (removeGame_own _ _ _ Hr); [|rewrite He; simpl; eauto]. simpl.
    rewrite filter_fresh by done.
    split; simpl; [|intros l Hin; specialize (Hl _ Hin); lia|done].
    intros id' g'. rewrite lookup_delete. case_decide as Hne; [done|].
    intros Hin. destruct (Hg _ _ Hin) as (?&?&e'&cl'&He'&?&?&?&Ho'&Hid'&?).
    split_and!; [done..|]. exists e', cl'. split; [|done]. simpl.
    rewrite list_lookup_alter_ne; [done|].
    intros Heq. rewrite Heq, He' in He. congruence.
  - rewrite removeGame_inherited by done. by destruct w.
  - rewrite removeGame_absent by done. by destruct w.
Qed.

Lemma v1_consistent_step w i : consistent w → consistent (after w i).
Proof.
  intros Hw. unfold after, step. destruct i as [arg|i b|id|r|ev].
  - pose proof (addGame_begin_unchanged arg (page w)) as Hp.
    destruct (addGame_begin arg (page w)) as [[o s] es] eqn:E. simpl in Hp. subst s.
    destruct o as [[| | |k|]|]; simpl; try by destruct w.
    apply addGame_begin_awaiting in E as (_&_&_&?&?&_).
    destruct Hw as [Hg Hl Hs]. split; simpl; [done..|].
    intros k' [?| ->%list_elem_of_singleton]%elem_of_app; [by apply Hs|done].
  - destruct (suspended w !! i) as [k|] eqn:Hk; [|done].
    pose proof (v1_consistent_settle w i k b Hw Hk) as Hc.
    by destruct (addGame_resume _ _ _) as [[o s] es].
  - pose proof (v1_consistent_remove w id Hw) as Hc.
    by destruct (removeGame _ _) as [[o s] es].
  - pose proof (load_signal_unchanged r (page w)) as Hp.
    destruct (load_signal _ _) as [[o s] es]. simpl in *. subst s. by destruct w.
  - pose proof (v1_run_listeners_frames (listeners (page w)) ev (page w)) as Hf.
    unfold dispatch_message. destruct (run_listeners _ _ _) as [[s es] xs]. simpl in *.
    by apply v1_consistent_frames.
Qed.

Lemma v1_reachable_consistent w : reachable w → consistent w.
Proof.
  induction 1 as [dbg els|w i _ IH]; [apply v1_consistent_boot|by apply v1_consistent_step].
Qed.
End V1Consistency.

Section V1Handlers.
Context `{Browser}.
Import V1.

Lemma postMessage_own id g d s e w o :
  games s !! id = Some g → iframes s !! iframe g = Some e →
  contentWindow e = Some w → url_origin (iframeUrl g) = Some o →
  postMessage id d s = (Ret tt, s, Posted w d (iframeUrl g) :: sent_note s id d).
Proof.
  intros Hg He Hw Ho. unfold postMessage, lookup_game, log, sent_note. unmonad. simpl.
  rewrite Hg. simpl. rewrite He. simpl. rewrite Hw, Ho. simpl.
  by destruct (debug s).
Qed.

Lemma postMessage_absent id d s :
  games s !! id = None → postMessage id d s = (Ret tt, s, []).
Proof.
  intros Hg. unfold postMessage, lookup_game. unmonad. simpl. rewrite Hg.
  unfold read. by destruct (inherited id).
Qed.

Lemma postMessage_runs id g d s e w o :
  games s !! id = Some g → iframes s !! iframe g = Some e →
  contentWindow e = Some w → url_origin (iframeUrl g) = Some o →
  runs (postMessage id d) s tt s (Posted w d (iframeUrl g) :: sent_note s id d).
Proof. apply postMessage_own. Qed.

(** The load handler of a registered game whose URL parses. *)
Lemma load_registered s id g o :
  registered s id g → games s !! id = Some g →
  url_origin (iframeUrl g) = Some o →
  ∃ cl,
    iframes s !! iframe g ≫= onload = Some cl ∧ cl_gameId cl = id ∧
    cl_userId cl = userId g ∧
    load_signal (iframe g) s =
      (Ret tt, s,
       (Posted (iframe g) setParentDomain (iframeUrl g)
          :: sent_note s id setParentDomain) ++
       (Posted (iframe g)
          (userDetails (userId g) (cl_balance cl) (locale g) (currency g))
          (iframeUrl g)
          :: sent_note s id
               (userDetails (userId g) (cl_balance cl) (locale g) (currency g))) ++
       invocation (cl_onGameLoad cl) []).
Proof.
  intros (_&_&e&cl&He&_&Hw&_&Ho&Hid&Hu) Hg Hurl. exists cl.
  rewrite He. split_and!; [done..|].
  change (runs (load_signal (iframe g)) s tt s
    ((Posted (iframe g) setParentDomain (iframeUrl g)
          :: sent_note s id setParentDomain) ++
       (Posted (iframe g)
          (userDetails (userId g) (cl_balance cl) (locale g) (currency g))
          (iframeUrl g)
          :: sent_note s id
               (userDetails (userId g) (cl_balance cl) (locale g) (currency g))) ++
       invocation (cl_onGameLoad cl) [])).
  eapply runs_effects.
  - unfold load_signal. eapply runs_bind; [apply runs_gets|]. cbv beta.
    rewrite He. simpl. rewrite Ho. unfold run_onload. rewrite Hid, Hu.
    eapply runs_bind; [eapply postMessage_runs; eassumption|].
    eapply runs_bind; [apply runs_gets|]. cbv beta. rewrite Hg. simpl.
    eapply runs_bind; [apply runs_ret|].
    eapply runs_bind; [eapply postMessage_runs; eassumption|].
    apply runs_invoke.
  - done.
Qed.

(** Without console output, the handshake is two messages and the call
    of [onGameLoad]. *)
Lemma visible_handshake s id a b f w1 d1 o1 w2 d2 o2 :
  visible ((Posted w1 d1 o1 :: sent_note s id a) ++
           (Posted w2 d2 o2 :: sent_note s id b) ++ invocation f [])
  = [Posted w1 d1 o1; Posted w2 d2 o2] ++ invocation f [].
Proof. unfold sent_note. by destruct (debug s), f. Qed.

(** A message no game's origin matches: no handler gets past its check. *)
Lemma handleMessage_unresolved id ev s :
  (∀ g, games s !! id = Some g → url_origin (iframeUrl g) ≠ Some (origin ev)) →
  (handleMessage id ev s).1.2 = s ∧ visible (handleMessage id ev s).2 = [].
Proof.
  intros Hno. unfold handleMessage, lookup_game. unmonad. simpl.
  destruct (games s !! id) as [g|] eqn:Hg; simpl.
  - specialize (Hno g eq_refl).
    destruct (url_origin (iframeUrl g)) as [allowed|]; [|done].
    destruct (String.eqb_spec (origin ev) allowed) as [Heq|Hne]; [congruence|done].
  - unfold read. by destruct (inherited id).
Qed.

Lemma run_listeners_unresolved ls ev s :
  (∀ id g, games s !! id = Some g → url_origin (iframeUrl g) ≠ Some (origin ev)) →
  (run_listeners ls ev s).1.1 = s ∧ visible (run_listeners ls ev s).1.2 = [].
Proof.
  intros Hno. induction ls as [|l ls [IHs IHe]]; simpl; [done|].
  destruct (handleMessage_unresolved (snd l) ev s (Hno (snd l))) as [Hs He].
  destruct (handleMessage _ _ _) as [[o s1] es1]. simpl in *. subst s1.
  destruct (run_listeners _ _ _) as [[s2 es2] xs]. simpl in *.
  by rewrite visible_app, He, IHe.
Qed.

(** The listener never looks at the sending window. *)
Lemma handleMessage_ignores_source id d o src src' s :
  handleMessage id (MessageEvent d o src) s = handleMessage id (MessageEvent d o src') s.
Proof. reflexivity. Qed.

(** A handler whose game is gone returns at once. *)
Lemma handleMessage_gone id ev s :
  read (games s !! id) id = Absent → handleMessage id ev s = (Ret tt, s, []).
Proof. intros Hr. unfold handleMessage, lookup_game. unmonad. simpl. by rewrite Hr. Qed.

(** [updateLocaleAndCurrency] from the game's origin. *)
Lemma handleMessage_update id g ev s :
  games s !! id = Some g →
  url_origin (iframeUrl g) = Some (origin ev) →
  nullish (data ev) = false →
  is_str (get "action" (data ev)) "updateLocaleAndCurrency" = true →
  (handleMessage id ev s).1.1 = Ret tt ∧
  (handleMessage id ev s).1.2 =
    set_games (insert id (updated (get "locale" (data ev))
                                  (get "currency" (data ev)) g)) s ∧
  visible (handleMessage id ev s).2 = [].
Proof.
  intros Hg Hurl Hnull Hact.
  assert (∀ a b : string, a ≠ b → is_str (get "action" (data ev)) a = true →
          is_str (get "action" (data ev)) b = false) as Hex.
  { intros a b Hab. unfold is_str. destruct (get "action" (data ev)); try done.
    intros ->%String.eqb_eq. by apply String.eqb_neq. }
  destruct s as [gs dbg els ifr ls n]. simpl in Hg.
  unfold handleMessage, lookup_game, log. unmonad. simpl.
  rewrite Hg. simpl. rewrite Hurl, String.eqb_refl, Hnull. simpl.
  rewrite (Hex "updateLocaleAndCurrency" "gameResult"), (Hex "updateLocaleAndCurrency" "error"), Hact
    by done.
  simpl. unfold updated.
  destruct (truthy (get "locale" (data ev))), (truthy (get "currency" (data ev)));
    simpl; destruct dbg; simpl; split_and!; try done;
    unfold set_games; simpl; f_equal; apply map_eq; intros j;
    (destruct (decide (id = j)) as [<-|?];
     [ rewrite ?lookup_alter_eq, ?lookup_insert_eq, ?Hg; simpl; by destruct g
     | by rewrite ?lookup_alter_ne, ?lookup_insert_ne ]).
Qed.
End V1Handlers.

Section V1Scenarios.
Context `{Browser}.
Import V1.

(** [addGame] on an id that is registered. *)
Lemma addGame_begin_duplicate cfg id g s :
  games s !! id = Some g → id ≠ EmptyString → c_gameId cfg = JStr id →
  addGame_begin (Some cfg) s =
    (Ret DuplicateSession, s,
     [Console LWarn (tag +:+ "Game with ID " +:+ dq +:+ id +:+ dq +:+ " already exists.") []]).
Proof.
  intros Hg Hne Hid. unfold addGame_begin, lookup_game. unmonad. rewrite Hid.
  apply String.eqb_neq in Hne. rewrite Hne. simpl. by rewrite Hg.
Qed.

(** In a consistent state [removeGame] leaves the listeners as they are. *)
Lemma removeGame_listeners w id :
  consistent w → listeners (removeGame id (page w)).1.2 = listeners (page w).
Proof.
  intros [Hg Hl _].
  destruct (read (games (page w) !! id) id) as [g| |] eqn:Hr.
  - apply read_own in Hr. destruct (Hg _ _ Hr) as (_&_&e&cl&He&[c Hc]&_).
    rewrite (removeGame_own _ _ _ Hr); [|rewrite He; simpl; eauto]. simpl.
    by apply filter_fresh.
  - by rewrite removeGame_inherited.
  - by rewrite removeGame_absent.
Qed.

(** No event takes a listener away. *)
Lemma listeners_prefix w i :
  consistent w → listeners (page w) `prefix_of` listeners (page (after w i)).
Proof.
  intros Hw. unfold after, step. destruct i as [arg|i b|id|r|ev].
  - pose proof (addGame_begin_unchanged arg (page w)) as Hp.
    destruct (addGame_begin arg (page w)) as [[o s] es]. simpl in Hp. subst s.
    by destruct o as [[| | |k|]|].
  - destruct (suspended w !! i) as [k|]; [|done].
    rewrite addGame_resume_eq. simpl. by apply prefix_app_r.
  - pose proof (removeGame_listeners w id Hw) as Hl.
    destruct (removeGame _ _) as [[o s] es]. simpl in *. by rewrite Hl.
  - pose proof (load_signal_unchanged r (page w)) as Hp.
    destruct (load_signal _ _) as [[o s] es]. simpl in *. by subst s.
  - pose proof (v1_run_listeners_frames (listeners (page w)) ev (page w)) as (_&_&_&Hl&_).
    unfold dispatch_message. destruct (run_listeners _ _ _) as [[s es] xs].
    simpl in *. by rewrite Hl.
Qed.

(** Every [addGame] that runs to its end registers one more listener. *)
Lemma settle_adds_listener k b s :
  listeners (addGame_resume k b s).1.2 = listeners s ++ [(next_fn s, p_gameId k)].
Proof. by rewrite addGame_resume_eq. Qed.

(** A second [removeGame] of an id finds nothing. *)
Lemma removeGame_again w id :
  consistent w → (removeGame id (page w)).1.1 = Ret Removed →
  read (games (removeGame id (page w)).1.2 !! id) id = Absent.
Proof.
  intros [Hg _ _] Hrm.
  destruct (read (games (page w) !! id) id) as [g| |] eqn:Hr.
  - apply read_own in Hr. destruct (Hg _ _ Hr) as (_&Hinh&e&cl&He&[c Hc]&_).
    rewrite (removeGame_own _ _ _ Hr); [|rewrite He; simpl; eauto]. simpl.
    apply read_absent. by rewrite lookup_delete_eq.
  - by rewrite removeGame_inherited in Hrm.
  - by rewrite removeGame_absent in Hrm.
Qed.

(** A game is added, its balance settles, it is removed, and then the
    load event of its iframe arrives. *)
Lemma load_after_removal arg s0 s0' es0 k b s :
  addGame_begin arg s0 = (Ret (Awaiting k), s0', es0) →
  let r := length (iframes s) in
  let s1 := (addGame_resume k b s).1.2 in
  let s2 := (removeGame (p_gameId k) s1).1.2 in
  games s1 !! p_gameId k = Some (new_game k r) ∧
  (removeGame (p_gameId k) s1).1.1 = Ret Removed ∧
  games s2 !! p_gameId k = None ∧
  iframes s2 !! r ≫= onload = Some (new_closure k (settled_balance b)) ∧
  load_signal r s2 =
    (Throw (TypeError "Cannot read properties of undefined (reading 'locale')"), s2, []).
Proof.
  intros (_&_&_&_&Hinh&_)%addGame_begin_awaiting. intros r s1 s2.
  assert (games s1 !! p_gameId k = Some (new_game k r)) as Hg1.
  { unfold s1. rewrite addGame_resume_eq. simpl. apply lookup_insert_eq. }
  assert (iframes s1 !! r =
          Some (Element (p_iframeUrl k) (Some (p_container k)) (Some r)
                  (Some (new_closure k (settled_balance b))))) as He1.
  { unfold s1. rewrite addGame_resume_eq. simpl. by apply list_lookup_middle. }
  assert (removeGame (p_gameId k) s1 =
    (Ret Removed,
     Sdk (delete (p_gameId k) (games s1)) (debug s1) (elements s1)
         (alter detached r (iframes s1))
         (List.filter (fun l => negb (Nat.eqb (fst l) (next_fn s1))) (listeners s1))
         (S (next_fn s1)),
     [Console LLog (tag +:+ "Game with ID " +:+ dq +:+ p_gameId k +:+ dq +:+ " removed.") []]))
    as Hrm.
  { apply (removeGame_own _ _ _ Hg1). simpl. rewrite He1. simpl. eauto. }
  assert (games s2 !! p_gameId k = None) as Hg2.
  { unfold s2. rewrite Hrm. simpl. apply lookup_delete_eq. }
  assert (iframes s2 !! r ≫= onload = Some (new_closure k (settled_balance b))) as He2.
  { unfold s2. rewrite Hrm. simpl. rewrite list_lookup_alter_eq, He1. done. }
  split_and!; [done|by rewrite Hrm|done..|].
  unfold load_signal.
  erewrite bind_run by apply runs_gets. rewrite He2. unfold run_onload. simpl.
  erewrite bind_run by (apply postMessage_absent, Hg2).
  unfold lookup_game.
  erewrite (bind_run (gets _)) by apply runs_gets. rewrite Hg2.
  unfold read. rewrite Hinh. done.
Qed.
End V1Scenarios.

Section V1Await.
Context `{Browser}.
Import V1.

(** [removeGame] while [addGame] for the same id still awaits the
    balance: there is no game yet, and nothing changes. *)
Lemma removeGame_during_await arg s k s' es :
  addGame_begin arg s = (Ret (Awaiting k), s', es) →
  (removeGame (p_gameId k) s).1.1 = Ret NotFound ∧
  (removeGame (p_gameId k) s).1.2 = s.
Proof.
  intros (_&_&_&_&Hinh&Hg&_)%addGame_begin_awaiting.
  rewrite removeGame_absent; [done|]. apply read_absent. by split.
Qed.
End V1Await.

(** ** Second variant *)

Section Alist.
Context {A : Type}.
Implicit Types l : list (string * A).
Import V2.

Lemma own_assign_eq k a l : own k (assign k a l) = Some a.
Proof.
  induction l as [|[k' a'] l IH]; simpl.
  - by rewrite String.eqb_refl.
  - destruct (String.eqb k' k) eqn:E; simpl; by rewrite E.
Qed.

Lemma own_assign_ne k k' a l : k ≠ k' → own k' (assign k a l) = own k' l.
Proof.
  intros Hne. induction l as [|[k0 a0] l IH]; simpl.
  - apply String.eqb_neq in Hne. by rewrite Hne.
  - destruct (String.eqb_spec k0 k) as [->|?]; simpl.
    + apply String.eqb_neq in Hne. by rewrite Hne.
    + by rewrite IH.
Qed.

Lemma own_assign k k' a l :
  own k' (assign k a l) = if decide (k = k') then Some a else own k' l.
Proof.
  case_decide as Hk; [subst; apply own_assign_eq|by apply own_assign_ne].
Qed.

Lemma own_None k l : own k l = None ↔ k ∉ l.*1.
Proof.
  induction l as [|[k' a'] l IH]; csimpl.
  - split; [intros _; apply not_elem_of_nil|done].
  - rewrite not_elem_of_cons. destruct (String.eqb_spec k' k) as [->|?].
    + split; [done|]. by intros [[] _].
    + rewrite IH. split; [by split|by intros []].
Qed.

Lemma own_elem k a l : own k l = Some a → (k, a) ∈ l.
Proof.
  induction l as [|[k' a'] l IH]; simpl; [done|].
  destruct (String.eqb_spec k' k) as [->|?].
  - intros [= ->]. apply elem_of_cons. by left.
  - intros ?. apply elem_of_cons. right. by apply IH.
Qed.

Lemma elem_own k a l : NoDup l.*1 → (k, a) ∈ l → own k l = Some a.
Proof.
  induction l as [|[k' a'] l IH]; csimpl; [by intros _ ?%elem_of_nil|].
  intros [Hk Hl]%NoDup_cons [[= -> ->]|Hin]%elem_of_cons.
  - by rewrite String.eqb_refl.
  - destruct (String.eqb_spec k' k) as [->|?]; [|by apply IH].
    destruct Hk. apply list_elem_of_fmap. by exists (k, a).
Qed.

Lemma assign_keys k a l :
  (assign k a l).*1 = match own k l with Some _ => l.*1 | None => l.*1 ++ [k] end.
Proof.
  induction l as [|[k' a'] l IH]; csimpl; [done|].
  destruct (String.eqb_spec k' k) as [->|?]; csimpl; [done|].
  rewrite IH. by destruct (own k l).
Qed.

Lemma assign_NoDup k a l : NoDup l.*1 → NoDup (assign k a l).*1.
Proof.
  intros Hl. rewrite assign_keys. destruct (own k l) eqn:E; [done|].
  apply NoDup_app. split_and!; [done| |apply NoDup_singleton].
  intros x Hx ->%list_elem_of_singleton. by apply own_None in E.
Qed.

Lemma mutate_keys f k l : (mutate f k l).*1 = l.*1.
Proof.
  induction l as [|[k' a'] l IH]; csimpl; [done|].
  destruct (String.eqb k' k); csimpl; by rewrite ?IH.
Qed.

Lemma own_mutate f k k' l :
  own k' (mutate f k l) = (if decide (k = k') then f else id) <$> own k' l.
Proof.
  induction l as [|[k0 a0] l IH]; simpl; [done|].
  destruct (String.eqb_spec k0 k) as [->|Hne]; simpl.
  - destruct (String.eqb_spec k k') as [->|?]; [by rewrite decide_True|].
    rewrite decide_False by done. by destruct (own k' l).
  - destruct (String.eqb_spec k0 k') as [->|?]; [|done].
    by rewrite decide_False by done.
Qed.
End Alist.

Section V2Facts.
Context `{Browser}.
Import V2.

(** Without the inspector its calls are skipped. *)
Lemma inspector_addGame_plain id s :
  inspector s = None → inspector_addGame id s = (Ret tt, s, []).
Proof. intros Hs. unfold inspector_addGame. unmonad. by rewrite Hs. Qed.

Lemma inspector_push_plain id e s :
  inspector s = None → inspector_push id e s = (Ret tt, s, []).
Proof. intros Hs. unfold inspector_push. unmonad. by rewrite Hs. Qed.

Lemma addGame_finish_eq k bal s :
  inspector s = None →
  addGame_finish k bal s =
    (Ret tt,
     Sdk (assign (p_gameId k) (new_game k (length (iframes s)) bal) (games s))
         (debug s) None (elements s)
         (iframes s ++ [Element (p_iframeUrl k) (Some (p_container k))
                          (Some (length (iframes s))) (Some (new_closure k bal))])
         (listeners s),
     []).
Proof.
  intros Hs. unfold addGame_finish.
  erewrite bind_run by apply runs_gets.
  erewrite bind_run by apply runs_modify.
  erewrite bind_run by apply runs_modify.
  erewrite bind_run by apply runs_modify.
  erewrite bind_run by apply runs_modify.
  erewrite bind_run by (apply inspector_addGame_plain; exact Hs).
  unmonad. simpl. unfold set_iframes, set_games. simpl. rewrite Hs.
  by rewrite !alter_last.
Qed.

Lemma filled_Some o s : filled o = Some s ↔ o = Some s ∧ s ≠ EmptyString.
Proof.
  unfold filled. destruct o as [t|]; [|split; [done|by intros []]].
  destruct (String.eqb_spec t EmptyString) as [->|?].
  - split; [done|]. by intros [[= <-] ?].
  - split; [by intros [= ->]|by intros [[= ->] _]].
Qed.

(** The return paths of [addGame] up to the [await]. *)
Lemma addGame_begin_cases arg s :
  (∃ st es, addGame_begin arg s = (Ret st, s, es) ∧ visible es = [] ∧
     (st = InvalidConfig ∨ st = DuplicateSession ∨ st = TargetNotFound)) ∨
  (∃ k f, accepted s arg k ∧ c_getUserBalance (p_cfg k) = JFun f ∧
     addGame_begin arg s = (Ret (Awaiting k), s, [Invoked f [c_userId (p_cfg k)]])) ∨
  (∃ k, accepted s arg k ∧ is_function (c_getUserBalance (p_cfg k)) = false ∧
     addGame_begin arg s =
       bind (addGame_finish k (JNum 0)) (fun _ => ret Registered) s).
Proof.
  unfold addGame_begin, lookup_game, _fail.
  destruct (filled (c_gameId (default empty_config arg))) as [id|] eqn:Hid;
    [|left; eauto 10].
  destruct (filled (c_containerId _)) as [c|] eqn:Hc; [|left; eauto 10].
  destruct (filled (c_iframeUrl _)) as [u|] eqn:Hu; [|left; eauto 10].
  destruct (truthy _ && truthy _) eqn:Ht; [|left; eauto 10].
  erewrite bind_run by apply runs_gets. simpl.
  destruct (read (own id (games s)) id) eqn:Hr; simpl; [left; eauto 10..|].
  erewrite bind_run by apply runs_gets. simpl.
  destruct (bool_decide (c ∈ elements s)) eqn:He; simpl; [|left; eauto 10].
  apply filled_Some in Hid as [Hid ?], Hc as [Hc ?], Hu as [Hu ?].
  apply read_absent in Hr as [? ?]. apply bool_decide_eq_true in He.
  destruct arg as [cfg|]; [|done]. simpl in *.
  assert (accepted s (Some cfg) (Pending id c u cfg)) by (by repeat split).
  destruct (c_getUserBalance cfg) as [| |b|n|t|f|ps] eqn:Hf; simpl;
    try (right; right; exists (Pending id c u cfg); simpl; rewrite Hf;
         split_and!; [done|done|]; by destruct (bind _ _ s) as [[??]?]).
  right; left. exists (Pending id c u cfg), f. by simpl.
Qed.

(** The same without the inspector, where the end of [addGame] is known. *)
Lemma addGame_begin_plain arg s :
  inspector s = None →
  (∃ st es, addGame_begin arg s = (Ret st, s, es) ∧ visible es = [] ∧
     (st = InvalidConfig ∨ st = DuplicateSession ∨ st = TargetNotFound)) ∨
  (∃ k f, accepted s arg k ∧ c_getUserBalance (p_cfg k) = JFun f ∧
     addGame_begin arg s = (Ret (Awaiting k), s, [Invoked f [c_userId (p_cfg k)]])) ∨
  (∃ k, accepted s arg k ∧ is_function (c_getUserBalance (p_cfg k)) = false ∧
     addGame_begin arg s = (Ret Registered, (addGame_finish k (JNum 0) s).1.2, [])).
Proof.
  intros Hs.
  destruct (addGame_begin_cases arg s) as [?|[?|(k&Ha&Hf&Hb)]]; [by left|by right; left|].
  right; right. exists k. split_and!; [done..|].
  rewrite Hb. unfold bind. by rewrite addGame_finish_eq.
Qed.
End V2Facts.

Section V2Frames.
Context `{Browser}.
Import V2.

Global Instance v2_frames_kept_preorder : PreOrder frames_kept.
Proof.
  split.
  - intros s. by repeat split.
  - intros s1 s2 s3 (?&?&?&?&?&Ha) (?&?&?&?&?&Hb).
    repeat split; first [congruence | intros id; by rewrite Hb, Ha].
Qed.

Global Instance plain_frames_preorder : PreOrder plain_frames.
Proof.
  split.
  - intros s Hs. split; [reflexivity|done].
  - intros s1 s2 s3 H12 H23 Hs.
    destruct (H12 Hs) as [Hf Hs2]. destruct (H23 Hs2) as [Hf' Hs3].
    split; [by etrans|done].
Qed.

Global Instance steady_preorder : PreOrder steady.
Proof.
  split.
  - intros s. by repeat split.
  - intros s1 s2 s3 (?&?&?&Ha) (?&?&?&Hb).
    split_and!; [congruence..|]. by rewrite Hb, Ha.
Qed.

Lemma frames_kept_ready k s : frames_kept s (set_games (mutate set_ready k) s).
Proof.
  repeat split; simpl; [apply mutate_keys|].
  intros id. rewrite own_mutate. case_decide; destruct (own id (games s)); done.
Qed.

Lemma plain_frames_ready k s : plain_frames s (set_games (mutate set_ready k) s).
Proof. intros Hs. split; [apply frames_kept_ready|done]. Qed.

Lemma inspector_push_frames id e : keeps plain_frames (inspector_push id e).
Proof.
  intros s Hs. rewrite inspector_push_plain by done. simpl. by split.
Qed.

Lemma inspector_push_runs id e s :
  inspector s = None → runs (inspector_push id e) s tt s [].
Proof. intros Hs. by apply inspector_push_plain. Qed.

Lemma _log_frames m d : keeps plain_frames (_log m d).
Proof. unfold _log. repeat step_keeps. Qed.

Lemma _send_frames id act d : keeps plain_frames (_send id act d).
Proof.
  unfold _send, lookup_game.
  repeat first [apply inspector_push_frames | apply _log_frames | step_keeps].
Qed.

Lemma load_signal_frames r : keeps plain_frames (load_signal r).
Proof.
  unfold load_signal, run_onload, lookup_game.
  repeat first [apply _send_frames | step_keeps].
Qed.

Lemma _handleMessage_frames ev : keeps plain_frames (_handleMessage ev).
Proof.
  unfold _handleMessage. cbv zeta.
  repeat first
    [ apply inspector_push_frames | apply _log_frames
    | apply keeps_modify; intros ?; apply plain_frames_ready
    | step_keeps ].
Qed.

Lemma v2_run_listeners_frames ls ev s : plain_frames s (run_listeners ls ev s).1.1.
Proof.
  revert s. induction ls as [|l ls IH]; intros s; simpl; [reflexivity|].
  pose proof (_handleMessage_frames ev s) as Hh.
  destruct (_handleMessage _ _) as [[o s1] es1]. simpl in Hh.
  specialize (IH s1). destruct (run_listeners _ _ _) as [[s2 es2] xs]. simpl in *.
  by etrans.
Qed.
End V2Frames.

Section V2Steady.
Context `{Browser}.
Import V2.

Lemma steady_inspector f s : steady s (set_inspector f s).
Proof. repeat split; simpl; by destruct (inspector s). Qed.

Lemma steady_iframes f s : steady s (set_iframes f s).
Proof. by repeat split. Qed.

Lemma steady_games f s : steady s (set_games f s).
Proof. by repeat split. Qed.

Ltac step_steady :=
  first
    [ apply keeps_modify; intros ?;
      first [apply steady_inspector | apply steady_iframes | apply steady_games]
    | step_keeps ].

Lemma _renderInspector_steady : keeps steady _renderInspector.
Proof. unfold _renderInspector. repeat step_steady. Qed.

Lemma inspector_addGame_steady id : keeps steady (inspector_addGame id).
Proof.
  unfold inspector_addGame. repeat first [apply _renderInspector_steady | step_steady].
Qed.

Lemma inspector_push_steady id e : keeps steady (inspector_push id e).
Proof.
  unfold inspector_push. repeat first [apply _renderInspector_steady | step_steady].
Qed.

Lemma _log_steady m d : keeps steady (_log m d).
Proof. unfold _log. repeat step_steady. Qed.

Lemma addGame_finish_steady k bal : keeps steady (addGame_finish k bal).
Proof.
  unfold addGame_finish. repeat first [apply inspector_addGame_steady | step_steady].
Qed.

Lemma addGame_begin_steady arg : keeps steady (addGame_begin arg).
Proof.
  unfold addGame_begin, lookup_game, _fail. cbv zeta.
  repeat first [apply addGame_finish_steady | step_steady].
Qed.

Lemma _send_steady id act d : keeps steady (_send id act d).
Proof.
  unfold _send, lookup_game. cbv zeta.
  repeat first [apply inspector_push_steady | apply _log_steady | step_steady].
Qed.

Lemma load_signal_steady r : keeps steady (load_signal r).
Proof.
  unfold load_signal, run_onload, lookup_game. cbv zeta.
  repeat first [apply _send_steady | step_steady].
Qed.

Lemma _handleMessage_steady ev : keeps steady (_handleMessage ev).
Proof.
  unfold _handleMessage. cbv zeta.
  repeat first [apply inspector_push_steady | apply _log_steady | step_steady].
Qed.

Lemma run_listeners_steady ls ev s : steady s (run_listeners ls ev s).1.1.
Proof.
  revert s. induction ls as [|l ls IH]; intros s; simpl; [reflexivity|].
  pose proof (_handleMessage_steady ev s) as Hh.
  destruct (_handleMessage _ _) as [[o s1] es1]. simpl in Hh.
  specialize (IH s1). destruct (run_listeners _ _ _) as [[s2 es2] xs]. simpl in *.
  by etrans.
Qed.

(** No event adds or removes a listener, or turns the inspector on or
    off. *)
Lemma step_steady_page w i : steady (page w) (page (after w i)).
Proof.
  unfold after, step. destruct i as [arg|i b|r|ev].
  - pose proof (addGame_begin_steady arg (page w)) as Hs.
    destruct (addGame_begin arg (page w)) as [[o s] es]. simpl in Hs.
    by destruct o as [[| | |k|]|e].
  - destruct (suspended w !! i) as [k|]; [|reflexivity].
    pose proof (addGame_finish_steady k (settled_balance b) (page w)) as Hs.
    unfold addGame_resume. by destruct (addGame_finish _ _ _) as [[o s] es].
  - pose proof (load_signal_steady r (page w)) as Hs.
    by destruct (load_signal _ _) as [[o s] es].
  - pose proof (run_listeners_steady (listeners (page w)) ev (page w)) as Hs.
    unfold dispatch_message. by destruct (run_listeners _ _ _) as [[s es] xs].
Qed.
End V2Steady.

Section V2Consistency.
Context `{Browser}.
Import V2.

Lemma identity_fields g g' :
  identity g' = identity g →
  iframe g' = iframe g ∧ gameId g' = gameId g ∧ tenantName g' = tenantName g ∧
  userId g' = userId g ∧ balance g' = balance g ∧ callbackUrl g' = callbackUrl g ∧
  locale g' = locale g ∧ currency g' = currency g ∧
  onError g' = onError g ∧ onGameResult g' = onGameResult g.
Proof. unfold identity. intros [= ? ? ? ? ? ? ? ? ? ? ?]. by repeat split. Qed.

Lemma v2_registered_frames s s' id g g' :
  iframes s' = iframes s → identity g' = identity g →
  registered s id g → registered s' id g'.
Proof.
  intros Hi (Hf&Hid&Ht&Hu&Hb&Hc&_)%identity_fields (?&?&e&cl&?&?&?&Hm).
  split_and!; [done|congruence|]. exists e, cl. rewrite Hi, Hf.
  split_and!; [done..|]. unfold made_for in *. rewrite Hid, Ht, Hu, Hb, Hc. done.
Qed.

Lemma frames_own s s' id g' :
  frames_kept s s' → own id (games s') = Some g' →
  ∃ g, own id (games s) = Some g ∧ identity g' = identity g.
Proof.
  intros (_&_&_&_&_&Hid) Hg'. specialize (Hid id). rewrite Hg' in Hid.
  destruct (own id (games s)) as [g|]; [|done].
  exists g. split; [done|]. simpl in Hid. congruence.
Qed.

Lemma frames_own_is_Some s s' id :
  frames_kept s s' → is_Some (own id (games s)) → is_Some (own id (games s')).
Proof.
  intros (_&_&_&_&_&Hid) [g Hg]. specialize (Hid id). rewrite Hg in Hid.
  destruct (own id (games s')); [done|done].
Qed.

Lemma v2_consistent_frames w s' :
  consistent w → frames_kept (page w) s' → consistent (World s' (suspended w)).
Proof.
  intros [Hg Hk Hc Hl Hs] Hf. pose proof Hf as (_&_&Hi&Hls&Hks&_).
  split; simpl.
  - intros id g' Hg'. destruct (frames_own _ _ _ _ Hf Hg') as (g&Hgo&Hid).
    eapply v2_registered_frames; eauto.
  - by rewrite Hks.
  - intros r e cl. rewrite Hi. intros He Ho.
    eapply frames_own_is_Some; eauto.
  - by rewrite Hls.
  - done.
Qed.

Lemma v2_consistent_boot dbg insp els : consistent (boot dbg insp els).
Proof.
  split; simpl; try done.
  - apply NoDup_nil_2.
  - intros k Hk. by apply elem_of_nil in Hk.
Qed.

Lemma v2_consistent_finish w k bal susp :
  consistent w → inspector (page w) = None → inherited (p_gameId k) = false →
  (∀ k', k' ∈ susp → k' ∈ suspended w ∨ k' = k) →
  consistent (World (addGame_finish k bal (page w)).1.2 susp).
Proof.
  intros [Hg Hk Hc Hl Hs] Hi Hinh Hsusp. rewrite addGame_finish_eq by done. simpl.
  split; simpl.
  - intros id g. rewrite own_assign. case_decide as Hid.
    + intros [= <-]. subst id. split_and!; [done..|].
      eexists _, _. simpl. split; [by apply list_lookup_middle|]. simpl.
      by repeat split.
    + intros Hin. destruct (Hg _ _ Hin) as (?&?&e0&cl&Hl0&?).
      split_and!; [done..|]. exists e0, cl. split; [|done].
      by apply lookup_app_l_Some.
  - by apply assign_NoDup.
  - intros r e cl Hr Ho. rewrite own_assign. case_decide; [done|].
    apply lookup_app_Some in Hr as [Hr|[_ Hr]].
    + by eapply Hc.
    + destruct (r - length _) as [|n]; [|done]. simpl in Hr.
      injection Hr as <-. simpl in Ho. injection Ho as <-. done.
  - done.
  - intros k' [?| ->]%Hsusp; [by apply Hs|done].
Qed.

Lemma v2_consistent_step w i :
  inspector (page w) = None → consistent w → consistent (after w i).
Proof.
  intros Hi Hw. unfold after, step. destruct i as [arg|i b|r|ev].
  - destruct (addGame_begin_plain arg (page w) Hi)
      as [(st&es&->&_&Hst)|[(k&f&Ha&Hf&->)|(k&Ha&Hf&->)]].
    + destruct Hst as [->|[->| ->]]; by destruct w.
    + simpl. destruct Ha as (_&_&?&_). destruct Hw as [Hg Hk Hc Hl Hs].
      split; simpl; [done..|].
      intros k' [?| ->%list_elem_of_singleton]%elem_of_app; [by apply Hs|done].
    + simpl. destruct Ha as (_&_&?&_). apply v2_consistent_finish; auto.
  - destruct (suspended w !! i) as [k|] eqn:Hk; [|done].
    assert (inherited (p_gameId k) = false).
    { destruct Hw as [_ _ _ _ Hs]. apply Hs. by eapply list_elem_of_lookup_2. }
    pose proof (v2_consistent_finish w k (settled_balance b) (delete i (suspended w)) Hw Hi)
      as Hc.
    unfold addGame_resume.
    destruct (addGame_finish _ _ _) as [[o s] es]. simpl in *. apply Hc; [done|].
    intros k' Hk'. left. eapply elem_of_submseteq; [exact Hk'|].
    apply sublist_submseteq, sublist_delete.
  - pose proof (load_signal_frames r (page w) Hi) as [Hp _].
    destruct (load_signal _ _) as [[o s] es]. simpl in *. by apply v2_consistent_frames.
  - pose proof (v2_run_listeners_frames (listeners (page w)) ev (page w) Hi) as [Hf _].
    unfold dispatch_message. destruct (run_listeners _ _ _) as [[s es] xs]. simpl in *.
    by apply v2_consistent_frames.
Qed.

(** The states reached without the inspector are consistent. *)
Lemma v2_reachable_consistent w :
  reachable w → inspector (page w) = None → consistent w.
Proof.
  induction 1 as [dbg insp els|w i _ IH]; intros Hi; [apply v2_consistent_boot|].
  assert (inspector (page w) = None) as Hi'.
  { by apply (step_steady_page w i). }
  by apply v2_consistent_step; [|apply IH].
Qed.
End V2Consistency.

Section V2Handlers.
Context `{Browser}.
Import V2.

Lemma _send_runs id g act d s w :
  inspector s = None →
  own id (games s) = Some g →
  iframes s !! iframe g ≫= contentWindow = Some w →
  runs (_send id act d) s tt s (Posted w (envelope act d) "*" :: sent_note s act d).
Proof.
  intros Hi Hg Hw. unfold _send, lookup_game.
  eapply runs_effects.
  - eapply runs_bind; [apply runs_gets|]. cbv beta. rewrite Hg. simpl.
    eapply runs_bind; [apply runs_gets|]. cbv beta. rewrite Hw.
    eapply runs_bind; [apply runs_emit|].
    eapply (runs_bind _ _ _ tt s (sent_note s act d));
      [|by apply inspector_push_runs].
    unfold runs, _log, sent_note, envelope. unmonad. by destruct (debug s).
  - simpl. by rewrite app_nil_r.
Qed.

(** The load handler of a registered game, run by itself. *)
Lemma run_onload_registered s id g cl :
  inspector s = None →
  registered s id g → own id (games s) = Some g → cl_gameId cl = id →
  run_onload cl s =
    (Ret tt, s,
     (Posted (iframe g) (envelope "setParentDomain" (JStr location_origin)) "*"
        :: sent_note s "setParentDomain" (JStr location_origin)) ++
     (Posted (iframe g)
        (envelope "userDetails" (userDetails cl (locale g) (currency g))) "*"
        :: sent_note s "userDetails" (userDetails cl (locale g) (currency g))) ++
     invocation (cl_onGameLoad cl) []).
Proof.
  intros Hi (Hinh&Hid&e&cl0&He&Hw&_) Hg Hcl.
  eapply runs_effects.
  - unfold run_onload. rewrite Hcl.
    eapply runs_bind; [eapply _send_runs; eauto; by rewrite He|].
    unfold lookup_game.
    eapply runs_bind; [apply runs_gets|]. cbv beta. rewrite Hg. simpl.
    eapply runs_bind; [apply runs_ret|].
    eapply runs_bind.
    { eapply _send_runs; [done|done|]. rewrite He. done. }
    apply runs_invoke.
  - done.
Qed.

(** The load handler of a registered game. *)
Lemma v2_load_registered s id g :
  inspector s = None →
  registered s id g → own id (games s) = Some g →
  ∃ cl,
    iframes s !! iframe g ≫= onload = Some cl ∧ made_for g cl ∧
    load_signal (iframe g) s =
      (Ret tt, s,
       (Posted (iframe g) (envelope "setParentDomain" (JStr location_origin)) "*"
          :: sent_note s "setParentDomain" (JStr location_origin)) ++
       (Posted (iframe g)
          (envelope "userDetails" (userDetails cl (locale g) (currency g))) "*"
          :: sent_note s "userDetails" (userDetails cl (locale g) (currency g))) ++
       invocation (cl_onGameLoad cl) []).
Proof.
  intros Hi Hreg Hg. pose proof Hreg as (Hinh&Hid&e&cl&He&Hw&Ho&Hm). exists cl.
  rewrite He. split_and!; [done..|].
  assert (cl_gameId cl = id) as Hcl by (destruct Hm as [-> _]; done).
  unfold load_signal. erewrite bind_run by apply runs_gets.
  rewrite He. simpl. rewrite Ho.
  by rewrite (run_onload_registered s id g cl).
Qed.

(** In a consistent state every load handler finds its game. *)
Lemma load_signal_returns w r :
  consistent w → inspector (page w) = None → (load_signal r (page w)).1.1 = Ret tt.
Proof.
  intros [Hg _ Hc _ _] Hi. unfold load_signal. erewrite bind_run by apply runs_gets.
  destruct (iframes (page w) !! r) as [e|] eqn:He; [|done]. simpl.
  destruct (onload e) as [cl|] eqn:Ho; [|done].
  destruct (Hc r e cl He Ho) as [g Hgo].
  by rewrite (run_onload_registered (page w) (cl_gameId cl) g cl); auto.
Qed.

Lemma v2_visible_sent_note s act d : visible (sent_note s act d) = [].
Proof. unfold sent_note. by destruct (debug s). Qed.

Lemma find_by_source_elem els src gs k g :
  find_by_source els src gs = Some (k, g) →
  (k, g) ∈ gs ∧ els !! iframe g ≫= contentWindow = src.
Proof.
  induction gs as [|[k' g'] gs IH]; simpl; [done|].
  case_bool_decide as Hw.
  - intros [= -> ->]. split; [apply elem_of_cons; by left|done].
  - intros [? ?]%IH. split; [apply elem_of_cons; by right|done].
Qed.

Lemma find_by_source_None els src gs :
  find_by_source els src gs = None ↔
  ∀ k g, (k, g) ∈ gs → els !! iframe g ≫= contentWindow ≠ src.
Proof.
  induction gs as [|[k' g'] gs IH]; simpl.
  - split; [by intros _ k g ?%elem_of_nil|done].
  - case_bool_decide as Hw.
    + split; [done|]. intros Hall. destruct (Hall k' g'); [apply elem_of_cons; by left|done].
    + rewrite IH. split.
      * intros Hall k g [[= -> ->]|?]%elem_of_cons; [done|by apply (Hall k)].
      * intros Hall k g ?. apply (Hall k g), elem_of_cons. by right.
Qed.

(** In a consistent state a window belongs to one game at most: the
    lookup by sending window finds the game whose iframe it is. *)
Lemma find_by_source_registered w a ga :
  consistent w → own a (games (page w)) = Some ga →
  find_by_source (iframes (page w)) (Some (iframe ga)) (games (page w)) = Some (a, ga).
Proof.
  intros [Hg Hk _ _ _] Ha.
  destruct (Hg _ _ Ha) as (_&Hida&ea&cla&Hea&Hwa&Hoa&Hma&_).
  destruct (find_by_source _ _ _) as [[k g]|] eqn:Hf.
  - apply find_by_source_elem in Hf as [Hin Hw].
    apply (elem_own _ _ _ Hk) in Hin.
    destruct (Hg _ _ Hin) as (_&Hid&e&cl&He&Hwe&Ho&Hm&_).
    rewrite He in Hw. simpl in Hw. rewrite Hwe in Hw. injection Hw as Hw.
    rewrite Hw, Hea in He. injection He as <-.
    rewrite Hoa in Ho. injection Ho as <-.
    assert (k = a) as -> by congruence. rewrite Ha in Hin. by injection Hin as ->.
  - exfalso. eapply find_by_source_None in Hf; [|by apply own_elem].
    apply Hf. by rewrite Hea.
Qed.

(** A message that names no action, or whose sender no game owns, is
    dropped before anything happens. *)
Lemma _handleMessage_unresolved ev s :
  find_by_source (iframes s) (source ev) (games s) = None →
  _handleMessage ev s = (Ret tt, s, []).
Proof.
  intros Hf. unfold _handleMessage. cbv zeta.
  destruct (negb _); [done|]. unmonad. simpl. by rewrite Hf.
Qed.

Lemma v2_run_listeners_unresolved ls ev s :
  find_by_source (iframes s) (source ev) (games s) = None →
  run_listeners ls ev s = (s, [], []).
Proof.
  intros Hf. induction ls as [|l ls IH]; simpl; [done|].
  by rewrite _handleMessage_unresolved, IH.
Qed.

(** Only [gameLoaded] touches a game, with or without the inspector. *)
Lemma _handleMessage_games ev s :
  is_str (get "action" (if truthy (data ev) then data ev else JObj [])) "gameLoaded" = false →
  games (_handleMessage ev s).1.2 = games s.
Proof.
  intros Hact.
  assert (keeps (fun s s' => games s' = games s) (_handleMessage ev)) as Hk; [|apply Hk].
  assert (PreOrder (fun s s' : sdk => games s' = games s)).
  { split; [done|]. intros ??? H1 H2. by rewrite H2. }
  assert (∀ id e, keeps (fun s s' : sdk => games s' = games s) (inspector_push id e)).
  { intros id e. unfold inspector_push, _renderInspector.
    repeat first [by apply keeps_modify | step_keeps]. }
  assert (∀ m d, keeps (fun s s' : sdk => games s' = games s) (_log m d)).
  { intros m d. unfold _log. repeat step_keeps. }
  unfold _handleMessage. cbv zeta. rewrite Hact.
  repeat first [done | step_keeps].
Qed.

(** The action, read off the payload itself. *)
Lemma get_payload k v : get k (if truthy v then v else JObj []) = get k v.
Proof. by destruct v as [| |[]|n|t|f|ps]; simpl; try destruct (_ =? _)%Z;
         try destruct (String.eqb _ _). Qed.

Lemma converts_str v a : is_str v a = true → converts v = true.
Proof. by destruct v. Qed.
End V2Handlers.

Section V2Dispatch.
Context `{Browser}.
Import V2.

(** What the handler does once it has found the game of the sender. *)
Lemma _handleMessage_found ev s k g :
  let d0 := if truthy (data ev) then data ev else JObj [] in
  inspector s = None →
  truthy (get "action" d0) = true → converts (get "action" d0) = true →
  find_by_source (iframes s) (source ev) (games s) = Some (k, g) →
  (_handleMessage ev s).1.1 = Ret tt ∧
  visible (_handleMessage ev s).2 =
    if is_str (get "action" d0) "gameLoaded" then []
    else if is_str (get "action" d0) "gameResult" then
      invocation (onGameResult g) [get "data" d0]
    else if is_str (get "action" d0) "error" then
      invocation (onError g) [get "message" d0]
    else [].
Proof.
  intros d0 Hi Hact Hconv Hfind.
  assert (∀ m d, ∃ es, runs (_log m d) s tt s es ∧ visible es = []) as Hlog.
  { intros m d. unfold runs, _log. unmonad. destruct (debug s); simpl; eauto. }
  assert (∃ s' es, runs (_handleMessage ev) s tt s' es ∧
    visible es =
      if is_str (get "action" d0) "gameLoaded" then []
      else if is_str (get "action" d0) "gameResult" then
        invocation (onGameResult g) [get "data" d0]
      else if is_str (get "action" d0) "error" then
        invocation (onError g) [get "message" d0]
      else []) as (s'&es&Hr&Hv); [|by rewrite Hr].
  unfold _handleMessage. cbv zeta. fold d0. rewrite Hact. simpl.
  destruct (Hlog (arrow (get "action" d0)) (get "data" d0)) as (es0&Hl0&Hv0).
  destruct (is_str (get "action" d0) "gameLoaded");
    [|destruct (is_str (get "action" d0) "gameResult");
      [|destruct (is_str (get "action" d0) "error")]];
    eexists _, _; (split;
      [ eapply runs_bind; [apply runs_gets|]; cbv beta; rewrite Hfind; cbv beta iota;
        rewrite Hconv;
        eapply runs_bind; [apply Hl0|];
        eapply runs_bind; [by apply inspector_push_runs|]
      | ]).
  - apply runs_modify.
  - by rewrite !visible_app, Hv0.
  - apply runs_invoke.
  - rewrite !visible_app, Hv0. by destruct (onGameResult g).
  - eapply runs_bind; [apply runs_invoke|]. by apply inspector_push_runs.
  - rewrite !visible_app, Hv0. by destruct (onError g).
  - apply runs_ret.
  - by rewrite !visible_app, Hv0.
Qed.

(** Without the inspector the message handler returns, unless its
    template string cannot turn the action into text. *)
Lemma _handleMessage_returns s ev :
  inspector s = None → converts (get "action" (data ev)) = true →
  (_handleMessage ev s).1.1 = Ret tt.
Proof.
  intros Hi Hconv. rewrite <- (get_payload "action") in Hconv.
  destruct (truthy (get "action" (if truthy (data ev) then data ev else JObj [])))
    eqn:Hact.
  - destruct (find_by_source (iframes s) (source ev) (games s)) as [[k g]|] eqn:Hf.
    + by eapply _handleMessage_found.
    + by rewrite _handleMessage_unresolved.
  - unfold _handleMessage. cbv zeta. by rewrite Hact.
Qed.

(** A [gameResult] from the window of a registered game reaches that
    game's [onGameResult] and nothing else. *)
Lemma v2_gameResult_routed w a ga ev :
  consistent w → inspector (page w) = None →
  own a (games (page w)) = Some ga →
  source ev = Some (iframe ga) →
  is_str (get "action" (data ev)) "gameResult" = true →
  visible (dispatch_message ev (page w)).1.2 =
    invocation (onGameResult ga) [get "data" (data ev)].
Proof.
  intros Hw Hi Ha Hsrc Hact.
  assert (truthy (data ev) = true) as Ht.
  { destruct (data ev) as [| |b|n|t|f|ps]; try done. }
  assert (truthy (get "action" (data ev)) = true) as Hta.
  { unfold is_str in Hact. destruct (get "action" (data ev)); try done.
    by apply String.eqb_eq in Hact as ->. }
  assert (is_str (get "action" (data ev)) "gameLoaded" = false) as Hl.
  { unfold is_str in *. destruct (get "action" (data ev)); try done.
    by apply String.eqb_eq in Hact as ->. }
  pose proof (find_by_source_registered w a ga Hw Ha) as Hf.
  pose proof Hw as [Hg _ _ Hls _].
  unfold dispatch_message. rewrite Hls. simpl.
  destruct (_handleMessage_found ev (page w) a ga) as [_ Hv].
  { done. } { by rewrite Ht. } { rewrite Ht. by eapply converts_str. }
  { by rewrite Hsrc. }
  rewrite Ht, Hl, Hact in Hv.
  destruct (_handleMessage ev (page w)) as [[o s1] es1]. simpl in *.
  by rewrite app_nil_r.
Qed.

(** [addGame] on an id that is registered. *)
Lemma v2_addGame_begin_duplicate arg s id g :
  own id (games s) = Some g → c_gameId (default empty_config arg) = Some id →
  ∃ st es, addGame_begin arg s = (Ret st, s, es) ∧ visible es = [] ∧
    (st = InvalidConfig ∨ st = DuplicateSession).
Proof.
  intros Hg Hid.
  destruct (addGame_begin_cases arg s)
    as [(st&es&Hb&Hv&[-> | [-> | ->]])|[(k&f&Ha&_)|(k&Ha&_)]]; eauto 10.
  - exfalso. revert Hb. unfold addGame_begin, lookup_game, _fail. rewrite Hid.
    destruct (filled (Some id)) as [id'|] eqn:Hfid; [|done].
    apply filled_Some in Hfid as [[= <-] _].
    destruct (filled (c_containerId _)); [|done].
    destruct (filled (c_iframeUrl _)); [|done].
    destruct (_ && _); [|done]. unmonad. simpl. by rewrite Hg.
  - destruct Ha as (->&Hk&_&Hn&_). simpl in Hid. congruence.
  - destruct Ha as (->&Hk&_&Hn&_). simpl in Hid. congruence.
Qed.

Lemma v2_addGame_begin_complete cfg s id g c u :
  own id (games s) = Some g →
  filled (c_gameId cfg) = Some id → filled (c_containerId cfg) = Some c →
  filled (c_iframeUrl cfg) = Some u →
  truthy (c_tenantName cfg) = true → truthy (c_callbackUrl cfg) = true →
  addGame_begin (Some cfg) s =
    (Ret DuplicateSession, s,
     [Console LError (tag +:+ "Game " +:+ id +:+ " already exists") []]).
Proof.
  intros Hg Hid Hc Hu Ht Hcb. unfold addGame_begin, lookup_game, _fail. simpl.
  rewrite Hid, Hc, Hu, Ht, Hcb. unmonad. simpl. by rewrite Hg.
Qed.
End V2Dispatch.

Section V2Total.
Context `{Browser}.
Import V2.

Lemma run_listeners_returns s ls ev :
  inspector s = None → converts (get "action" (data ev)) = true →
  (run_listeners ls ev s).2 = [].
Proof.
  revert s. induction ls as [|l ls IH]; intros s Hi Hconv; simpl; [done|].
  pose proof (_handleMessage_returns s ev Hi Hconv) as Hr.
  pose proof (_handleMessage_frames ev s Hi) as [_ Hi1].
  destruct (_handleMessage ev s) as [[o s1] es1]. simpl in *. subst o.
  specialize (IH s1 Hi1 Hconv).
  destruct (run_listeners ls ev s1) as [[s2 es2] xs]. simpl in *. done.
Qed.

(** Without the inspector no event ends in an exception, unless it is a
    message whose action the template string of the debug line cannot
    turn into text. *)
Theorem v2_no_uncaught_exception w i :
  reachable w → inspector (page w) = None →
  (∀ ev, i = Message ev → converts (get "action" (data ev)) = true) →
  (step w i).2 = [].
Proof.
  intros Hr Hi Hconv. pose proof (v2_reachable_consistent w Hr Hi) as Hw.
  unfold step. destruct i as [arg|i b|r|ev].
  - destruct (addGame_begin_plain arg (page w) Hi)
      as [(st&es&->&_&Hst)|[(k&f&_&_&->)|(k&_&_&->)]]; [|done..].
    by destruct Hst as [-> | [-> | ->]].
  - destruct (suspended w !! i) as [k|]; [|done].
    unfold addGame_resume. by rewrite addGame_finish_eq.
  - pose proof (load_signal_returns w r Hw Hi) as Hl.
    destruct (load_signal r (page w)) as [[o s] es]. simpl in *. by subst o.
  - pose proof (run_listeners_returns (page w) (listeners (page w)) ev Hi
                  (Hconv ev eq_refl)) as Hl.
    unfold dispatch_message. by destruct (run_listeners _ _ _) as [[s es] xs].
Qed.

(** The second variant has one message listener, whatever happens. *)
Theorem v2_single_listener w : reachable w → listeners (page w) = [0].
Proof.
  induction 1 as [dbg insp els|w i _ IH]; [done|].
  destruct (step_steady_page w i) as (Hl&_). by rewrite Hl.
Qed.
End V2Total.

(** ** The sample page *)

Section SampleFacts.
Import Sample.

Lemma v1_one_reachable : V1.reachable (H:=browser) v1_one.
Proof. unfold v1_one. simpl. repeat constructor. Qed.

Lemma v2_one_reachable : V2.reachable (H:=browser) v2_one.
Proof. unfold v2_one. simpl. repeat constructor. Qed.

Lemma v2_plain_one_reachable : V2.reachable (H:=browser) v2_plain_one.
Proof. unfold v2_plain_one. simpl. repeat constructor. Qed.
End SampleFacts.

(** ** Properties of the specification *)

Section Handshake.
Context `{Browser}.

(** The load handshake of the first variant, payloads written out. *)
Lemma v1_handshake s id g o :
  V1.registered s id g → V1.games s !! id = Some g →
  url_origin (V1.iframeUrl g) = Some o →
  ∃ cl,
    V1.iframes s !! V1.iframe g ≫= onload = Some cl ∧ V1.cl_gameId cl = id ∧
    V1.cl_userId cl = V1.userId g ∧
    (V1.load_signal (V1.iframe g) s).1.1 = Ret tt ∧
    (V1.load_signal (V1.iframe g) s).1.2 = s ∧
    visible (V1.load_signal (V1.iframe g) s).2 =
      [ Posted (V1.iframe g)
          (JObj [("action", JStr "setParentDomain"); ("domain", JStr location_origin)])
          (V1.iframeUrl g);
        Posted (V1.iframe g)
          (JObj [("action", JStr "userDetails"); ("userId", V1.cl_userId cl);
                 ("balance", V1.cl_balance cl); ("locale", V1.locale g);
                 ("currency", V1.currency g)])
          (V1.iframeUrl g) ] ++ invocation (V1.cl_onGameLoad cl) [].
Proof.
  intros Hreg Hg Ho.
  destruct (load_registered s id g o Hreg Hg Ho) as (cl&Hcl&Hid&Hu&Hrun).
  exists cl. rewrite Hrun. simpl. split_and!; [done..|].
  rewrite Hu. apply visible_handshake.
Qed.

(** The load handshake of the second variant without the inspector,
    payloads written out. *)
Lemma v2_handshake s id g :
  V2.inspector s = None → V2.registered s id g → V2.own id (V2.games s) = Some g →
  ∃ cl,
    V2.iframes s !! V2.iframe g ≫= onload = Some cl ∧ V2.cl_gameId cl = id ∧
    (V2.load_signal (V2.iframe g) s).1.1 = Ret tt ∧
    (V2.load_signal (V2.iframe g) s).1.2 = s ∧
    visible (V2.load_signal (V2.iframe g) s).2 =
      [ Posted (V2.iframe g)
          (JObj [("action", JStr "setParentDomain"); ("data", JStr location_origin)]) "*";
        Posted (V2.iframe g)
          (JObj [("action", JStr "userDetails");
                 ("data",
                  JObj [("tenantName", V2.cl_tenantName cl); ("gameId", JStr id);
                        ("userId", V2.cl_userId cl); ("balance", V2.cl_balance cl);
                        ("callbackUrl", V2.cl_callbackUrl cl);
                        ("locale", V2.locale g); ("currency", V2.currency g)])]) "*" ]
      ++ invocation (V2.cl_onGameLoad cl) [].
Proof.
  intros Hi Hreg Hg.
  destruct (v2_load_registered s id g Hi Hreg Hg) as (cl&Hcl&Hm&Hrun).
  assert (V2.cl_gameId cl = id) as Hid.
  { destruct Hm as (->&_). by destruct Hreg as (_&?&_). }
  exists cl. rewrite Hrun. simpl. split_and!; [done..|].
  rewrite !visible_app. simpl. rewrite !visible_app, !v2_visible_sent_note.
  unfold V2.envelope, V2.userDetails. rewrite Hid.
  by destruct (V2.cl_onGameLoad cl).
Qed.
End Handshake.

(** C1, as stated, fails by the design of the first variant.  Its
    [userDetails] carries the user id, the balance, the locale and the
    currency and nothing else: there is no tenant name and no callback URL
    in the payload that the load of game [a] posts.  And [onGameLoad] is
    optional: the load of a game whose configuration gave none posts the
    two messages and calls nothing. *)
Lemma C1_counterexample :
  visible (V1.step (H:=Sample.browser) Sample.v1_one (V1.Load 0)).1.2 =
    [ Posted 0
        (JObj [("action", JStr "setParentDomain"); ("domain", JStr "https://host.example")])
        "https://games.example/dice";
      Posted 0
        (JObj [("action", JStr "userDetails"); ("userId", JStr "u1"); ("balance", JNum 500);
               ("locale", JStr "en-US"); ("currency", JStr "TZS")])
        "https://games.example/dice";
      Invoked Sample.fn_load_a [] ] ∧
  let w := V1.run (H:=Sample.browser) Sample.v1_boot
             [V1.CallAddGame (Some Sample.cfg_quiet); V1.Settle 0 (Resolved (JNum 500))] in
  length (posts (V1.step (H:=Sample.browser) w (V1.Load 0)).1.2) = 2 ∧
  calls (V1.step (H:=Sample.browser) w (V1.Load 0)).1.2 = [].
Proof. split; [|split]; vm_compute; reflexivity. Qed.

(** C1, amended.  The load event of a game's iframe makes the handler post
    two messages to the window of that iframe, [setParentDomain] with the
    origin of the host page and then [userDetails], and after both call
    [onGameLoad] once if the configuration gave one and not at all if it
    gave none; console output aside nothing else happens, the state is as
    before and the handler returns.  In the first variant, for a game whose
    URL parses, [userDetails] carries the user id, the balance, the locale
    and the currency, and the messages go to the game's URL as target
    origin.  In the second variant, created without the inspector,
    [userDetails] carries the tenant name, the game id, the user id, the
    balance, the callback URL, the locale and the currency.  This holds for
    every registered game in every state the SDK reaches, and the values
    sent by the first load after a registration are those of the
    configuration and the settled balance. *)
Theorem C1_load_handshake `{Browser} :
  (∀ (w : V1.world) (id : string) (g : V1.game) (o : string),
     V1.reachable w → V1.games (V1.page w) !! id = Some g →
     url_origin (V1.iframeUrl g) = Some o →
     ∃ cl,
       V1.iframes (V1.page w) !! V1.iframe g ≫= onload = Some cl ∧
       V1.cl_gameId cl = id ∧ V1.cl_userId cl = V1.userId g ∧
       (V1.step w (V1.Load (V1.iframe g))).1.1 = w ∧
       (V1.step w (V1.Load (V1.iframe g))).2 = [] ∧
       visible (V1.step w (V1.Load (V1.iframe g))).1.2 =
         [ Posted (V1.iframe g)
             (JObj [("action", JStr "setParentDomain"); ("domain", JStr location_origin)])
             (V1.iframeUrl g);
           Posted (V1.iframe g)
             (JObj [("action", JStr "userDetails"); ("userId", V1.userId g);
                    ("balance", V1.cl_balance cl); ("locale", V1.locale g);
                    ("currency", V1.currency g)])
             (V1.iframeUrl g) ] ++ invocation (V1.cl_onGameLoad cl) []) ∧
  (∀ (cfg : V1.config) (s0 s : V1.sdk) (k : V1.pending) (b : settled) (url o : string),
     (V1.addGame_begin (Some cfg) s0).1.1 = Ret (Awaiting k) →
     V1.c_iframeUrl cfg = Some url → url_origin url = Some o →
     let r := length (V1.iframes s) in
     let s' := (V1.addGame_resume k b s).1.2 in
     (V1.load_signal r s').1.1 = Ret tt ∧ (V1.load_signal r s').1.2 = s' ∧
     visible (V1.load_signal r s').2 =
       [ Posted r
           (JObj [("action", JStr "setParentDomain"); ("domain", JStr location_origin)])
           url;
         Posted r
           (JObj [("action", JStr "userDetails"); ("userId", V1.c_userId cfg);
                  ("balance", settled_balance b);
                  ("locale", if truthy (V1.c_locale cfg) then V1.c_locale cfg
                             else JStr "en-US");
                  ("currency", if truthy (V1.c_currency cfg) then V1.c_currency cfg
                               else JStr "TZS")])
           url ] ++ invocation (V1.c_onGameLoad cfg) []) ∧
  (∀ (w : V2.world) (id : string) (g : V2.game),
     V2.reachable w → V2.inspector (V2.page w) = None →
     V2.own id (V2.games (V2.page w)) = Some g →
     ∃ cl,
       V2.iframes (V2.page w) !! V2.iframe g ≫= onload = Some cl ∧
       V2.cl_gameId cl = id ∧
       (V2.step w (V2.Load (V2.iframe g))).1.1 = w ∧
       (V2.step w (V2.Load (V2.iframe g))).2 = [] ∧
       visible (V2.step w (V2.Load (V2.iframe g))).1.2 =
         [ Posted (V2.iframe g)
             (JObj [("action", JStr "setParentDomain"); ("data", JStr location_origin)]) "*";
           Posted (V2.iframe g)
             (JObj [("action", JStr "userDetails");
                    ("data",
                     JObj [("tenantName", V2.tenantName g); ("gameId", JStr id);
                           ("userId", V2.userId g); ("balance", V2.balance g);
                           ("callbackUrl", V2.callbackUrl g);
                           ("locale", V2.locale g); ("currency", V2.currency g)])]) "*" ]
         ++ invocation (V2.cl_onGameLoad cl) []) ∧
  (∀ (cfg : V2.config) (s0 s : V2.sdk) (k : V2.pending) (b : settled) (id : string),
     (V2.addGame_begin (Some cfg) s0).1.1 = Ret (Awaiting k) →
     V2.c_gameId cfg = Some id → V2.inspector s = None →
     let r := length (V2.iframes s) in
     let s' := (V2.addGame_resume k b s).1.2 in
     (V2.load_signal r s').1.1 = Ret tt ∧ (V2.load_signal r s').1.2 = s' ∧
     visible (V2.load_signal r s').2 =
       [ Posted r
           (JObj [("action", JStr "setParentDomain"); ("data", JStr location_origin)]) "*";
         Posted r
           (JObj [("action", JStr "userDetails");
                  ("data",
                   JObj [("tenantName", V2.c_tenantName cfg); ("gameId", JStr id);
                         ("userId", V2.c_userId cfg); ("balance", settled_balance b);
                         ("callbackUrl", V2.c_callbackUrl cfg);
                         ("locale", if truthy (V2.c_locale cfg) then V2.c_locale cfg
                                    else JStr "en-US");
                         ("currency", if truthy (V2.c_currency cfg) then V2.c_currency cfg
                                      else JStr "TZS")])]) "*" ]
       ++ invocation (V2.c_onGameLoad cfg) []).
Proof.
  split_and!.
  - intros w id g o Hw%v1_reachable_consistent Hg Ho.
    destruct (v1_handshake (V1.page w) id g o) as (cl&Hcl&Hid&Hu&Hr&Hs&Hv);
      [by apply (V1.games_ok w Hw)|done..|].
    exists cl. unfold V1.step.
    destruct (V1.load_signal _ _) as [[o' s'] es]. simpl in *. subst o' s'.
    rewrite <- Hu. split_and!; [done|done|done|by destruct w|done|done].
  - intros cfg s0 s k b url o Hk Hu Ho r s'.
    destruct (V1.addGame_begin (Some cfg) s0) as [[st s0'] es0] eqn:Hb.
    simpl in Hk. subst st.
    apply addGame_begin_awaiting in Hb
      as (_&[= ->]&Hid&Hne&Hinh&_&_&Hurl&_&_).
    rewrite Hurl in Hu. injection Hu as <-.
    assert (s' = V1.Sdk (<[V1.p_gameId k := V1.new_game k r]> (V1.games s)) (V1.debug s)
                   (V1.elements s)
                   (V1.iframes s ++
                    [Element (V1.p_iframeUrl k) (Some (V1.p_container k)) (Some r)
                       (Some (V1.new_closure k (settled_balance b)))])
                   (V1.listeners s ++ [(V1.next_fn s, V1.p_gameId k)])
                   (S (V1.next_fn s))) as Hs'.
    { unfold s'. by rewrite addGame_resume_eq. }
    clearbody s'.
    assert (V1.iframes s' !! r =
            Some (Element (V1.p_iframeUrl k) (Some (V1.p_container k)) (Some r)
                    (Some (V1.new_closure k (settled_balance b))))) as Hr.
    { rewrite Hs'. simpl. by apply list_lookup_middle. }
    destruct (v1_handshake s' (V1.p_gameId k) (V1.new_game k r) o)
      as (cl&Hcl&_&_&Hret&Hst&Hv).
    + split_and!; [done..|]. eexists _, _. split; [exact Hr|]. simpl.
      split_and!; eauto.
    + rewrite Hs'. simpl. apply lookup_insert_eq.
    + done.
    + simpl in Hcl, Hret, Hst, Hv. rewrite Hr in Hcl. simpl in Hcl.
      injection Hcl as <-. split_and!; [done..|]. rewrite Hv. simpl.
      unfold jor, defaultLocale, defaultCurrency. done.
  - intros w id g Hr Hi Hg. pose proof (v2_reachable_consistent w Hr Hi) as Hw.
    pose proof (V2.games_ok w Hw id g Hg) as Hreg.
    destruct (v2_handshake (V2.page w) id g Hi Hreg Hg) as (cl&Hcl&Hid&Hret&Hst&Hv).
    assert (V2.made_for g cl) as (_&Ht&Hu&Hb&Hc).
    { destruct Hreg as (_&_&e&cl'&He&_&Ho&Hm). rewrite He in Hcl. simpl in Hcl.
      congruence. }
    exists cl. unfold V2.step.
    destruct (V2.load_signal _ _) as [[o' s'] es]. simpl in *. subst o' s'.
    rewrite <- Ht, <- Hu, <- Hb, <- Hc.
    split_and!; [done|done|by destruct w|done|done].
  - intros cfg s0 s k b id Hk Hid Hi r s'.
    assert (V2.accepted s0 (Some cfg) k) as ([= ->]&Hgid&Hinh&_).
    { destruct (addGame_begin_cases (Some cfg) s0)
        as [(st&es&Hb&_&Hst)|[(k'&f&Ha&_&Hb)|(k'&_&_&Hb)]]; rewrite Hb in Hk.
      - simpl in Hk. destruct Hst as [-> | [-> | ->]]; discriminate.
      - simpl in Hk. by injection Hk as <-.
      - unfold bind in Hk.
        by destruct (V2.addGame_finish k' (JNum 0) s0) as [[[[]|e] s1] es1]. }
    rewrite Hgid in Hid. injection Hid as <-.
    assert (s' = V2.Sdk (V2.assign (V2.p_gameId k) (V2.new_game k r (settled_balance b))
                           (V2.games s))
                   (V2.debug s) None (V2.elements s)
                   (V2.iframes s ++
                    [Element (V2.p_iframeUrl k) (Some (V2.p_container k)) (Some r)
                       (Some (V2.new_closure k (settled_balance b)))])
                   (V2.listeners s)) as Hs'.
    { unfold s', V2.addGame_resume. by rewrite addGame_finish_eq. }
    clearbody s'.
    assert (V2.iframes s' !! r =
            Some (Element (V2.p_iframeUrl k) (Some (V2.p_container k)) (Some r)
                    (Some (V2.new_closure k (settled_balance b))))) as Hr.
    { rewrite Hs'. simpl. by apply list_lookup_middle. }
    destruct (v2_handshake s' (V2.p_gameId k) (V2.new_game k r (settled_balance b)))
      as (cl&Hcl&_&Hret&Hst&Hv).
    + by rewrite Hs'.
    + split_and!; [done..|]. eexists _, _. split; [exact Hr|]. simpl.
      by split_and!.
    + rewrite Hs'. simpl. apply own_assign_eq.
    + simpl in Hcl, Hret, Hst, Hv. rewrite Hr in Hcl. simpl in Hcl.
      injection Hcl as <-. split_and!; [done..|]. rewrite Hv. simpl.
      unfold jor, defaultLocale, defaultCurrency. done.
Qed.

(** The handshake of game [a] on the sample page, in both variants. *)
Lemma C1_load_handshake_witness :
  (∃ cl,
     V1.iframes (V1.page Sample.v1_one) !! 0 ≫= onload = Some cl ∧
     V1.cl_gameId cl = "a" ∧
     (V1.step (H:=Sample.browser) Sample.v1_one (V1.Load 0)).1.1 = Sample.v1_one ∧
     (V1.step (H:=Sample.browser) Sample.v1_one (V1.Load 0)).2 = [] ∧
     visible (V1.step (H:=Sample.browser) Sample.v1_one (V1.Load 0)).1.2 =
       [ Posted 0
           (JObj [("action", JStr "setParentDomain");
                  ("domain", JStr "https://host.example")])
           "https://games.example/dice";
         Posted 0
           (JObj [("action", JStr "userDetails"); ("userId", JStr "u1");
                  ("balance", V1.cl_balance cl); ("locale", JStr "en-US");
                  ("currency", JStr "TZS")])
           "https://games.example/dice" ] ++ invocation (V1.cl_onGameLoad cl) []) ∧
  (∃ cl,
     V2.iframes (V2.page Sample.v2_plain_one) !! 0 ≫= onload = Some cl ∧
     V2.cl_gameId cl = "a" ∧
     visible (V2.step (H:=Sample.browser) Sample.v2_plain_one (V2.Load 0)).1.2 =
       [ Posted 0
           (JObj [("action", JStr "setParentDomain");
                  ("data", JStr "https://host.example")]) "*";
         Posted 0
           (JObj [("action", JStr "userDetails");
                  ("data",
                   JObj [("tenantName", JStr "tenant"); ("gameId", JStr "a");
                         ("userId", JStr "u1"); ("balance", JNum 500);
                         ("callbackUrl", JStr "https://host.example/callback");
                         ("locale", JStr "en-US"); ("currency", JStr "TZS")])]) "*" ]
       ++ invocation (V2.cl_onGameLoad cl) []).
Proof.
  split.
  - destruct (proj1 (C1_load_handshake (H:=Sample.browser)) Sample.v1_one "a"
                (V1.Game 0 "https://games.example/dice" (JStr "u1")
                         (JStr "en-US") (JStr "TZS")
                         (Some Sample.fn_error_a) (Some Sample.fn_result_a))
                "https://games.example" v1_one_reachable eq_refl eq_refl)
      as (cl&Hcl&Hid&_&Hw&Hx&Hv).
    exists cl. split_and!; [exact Hcl|exact Hid|exact Hw|exact Hx|exact Hv].
  - destruct (proj1 (proj2 (proj2 (C1_load_handshake (H:=Sample.browser))))
                Sample.v2_plain_one "a"
                (V2.Game 0 "https://games.example/dice" (JStr "tenant") "a" (JStr "u1")
                   (JStr "https://host.example/callback") (JStr "en-US") (JStr "TZS")
                   (JNum 500) (Some Sample.fn_error_a) (Some Sample.fn_result_a) false)
                v2_plain_one_reachable eq_refl eq_refl) as (cl&Hcl&Hid&_&_&Hv).
    exists cl. split_and!; [exact Hcl|exact Hid|exact Hv].
Defined.

(** C2.  [addGame] with the id of a registered game changes nothing: the
    page and the suspended calls are as before, no host function is called
    and no message is posted; all that happens is a line of console output.
    The first variant takes the already-exists path whatever else the
    configuration holds.  The second variant checks the required properties
    first, so it takes the already-exists path when they are all there and
    the missing-configuration path otherwise. *)
Theorem C2_duplicate_id_rejected `{Browser} :
  (∀ (w : V1.world) (cfg : V1.config) (id : string) (g : V1.game),
     V1.reachable w → V1.games (V1.page w) !! id = Some g →
     V1.c_gameId cfg = JStr id →
     V1.addGame_begin (Some cfg) (V1.page w) =
       (Ret DuplicateSession, V1.page w,
        [Console LWarn
           (tag +:+ "Game with ID " +:+ dq +:+ id +:+ dq +:+ " already exists.") []]) ∧
     (V1.step w (V1.CallAddGame (Some cfg))).1.1 = w ∧
     (V1.step w (V1.CallAddGame (Some cfg))).2 = []) ∧
  (∀ (w : V2.world) (cfg : V2.config) (id : string) (g : V2.game),
     V2.reachable w → V2.own id (V2.games (V2.page w)) = Some g →
     V2.c_gameId cfg = Some id →
     ∃ st es,
       V2.addGame_begin (Some cfg) (V2.page w) = (Ret st, V2.page w, es) ∧
       visible es = [] ∧
       (V2.step w (V2.CallAddGame (Some cfg))).1.1 = w ∧
       (V2.step w (V2.CallAddGame (Some cfg))).2 = [] ∧
       (st = DuplicateSession ∨ st = InvalidConfig) ∧
       (V2.complete cfg → st = DuplicateSession)).
Proof.
  split.
  - intros w cfg id g Hw%v1_reachable_consistent Hg Hid.
    destruct (V1.games_ok w Hw id g Hg) as (Hne&_).
    pose proof (addGame_begin_duplicate cfg id g (V1.page w) Hg Hne Hid) as Hb.
    unfold V1.step. rewrite Hb. simpl. by destruct w.
  - intros w cfg id g _ Hg Hid.
    destruct (v2_addGame_begin_duplicate (Some cfg) (V2.page w) id g Hg Hid)
      as (st&es&Hb&Hv&Hst).
    exists st, es. unfold V2.step. rewrite Hb.
    assert (V2.complete cfg → st = DuplicateSession) as Hc.
    { intros ([id' Hi]&[c Hc]&[u Hu]&Ht&Hcb).
      rewrite (v2_addGame_begin_complete cfg (V2.page w) id' g c u) in Hb;
        [congruence|idtac..]; try done.
      apply filled_Some in Hi as Hi'. destruct Hi' as [Hi' _]. congruence. }
    destruct Hst as [-> | ->]; simpl; (split_and!; [done|done|by destruct w|done|auto|done]).
Qed.

(** A second [addGame] for game [a] of the sample page. *)
Lemma C2_duplicate_id_rejected_witness :
  (V1.step (H:=Sample.browser) Sample.v1_one (V1.CallAddGame (Some Sample.cfg_a))).1.1
    = Sample.v1_one ∧
  (∃ st es,
     V2.addGame_begin (Some Sample.cfg2_a) (V2.page Sample.v2_one)
       = (Ret st, V2.page Sample.v2_one, es) ∧
     st = DuplicateSession).
Proof.
  split.
  - exact (proj1 (proj2 (proj1 (C2_duplicate_id_rejected (H:=Sample.browser))
             Sample.v1_one Sample.cfg_a "a"
             (V1.Game 0 "https://games.example/dice" (JStr "u1")
                      (JStr "en-US") (JStr "TZS")
                      (Some Sample.fn_error_a) (Some Sample.fn_result_a))
             v1_one_reachable eq_refl eq_refl))).
  - destruct (proj2 (C2_duplicate_id_rejected (H:=Sample.browser))
                Sample.v2_one Sample.cfg2_a "a"
                (V2.Game 0 "https://games.example/dice" (JStr "tenant") "a" (JStr "u1")
                   (JStr "https://host.example/callback") (JStr "en-US") (JStr "TZS")
                   (JNum 500) (Some Sample.fn_error_a) (Some Sample.fn_result_a) false)
                v2_one_reachable eq_refl eq_refl) as (st&es&Hb&_&_&_&_&Hc).
    exists st, es. split; [exact Hb|]. apply Hc.
    repeat split; simpl; eauto.
Defined.

(** C3, at two games of the first variant that are served from the same
    origin.  A [gameResult] message sent by the window of game [a] runs the
    listener of [a] and the listener of [b]; both pass their origin check,
    and the [onGameResult] callbacks of both games are called. *)
Theorem C3_v1_same_origin_reaches_both :
  V1.iframe <$> V1.games (V1.page Sample.v1_two) !! "a" = Some 0 ∧
  V1.iframe <$> V1.games (V1.page Sample.v1_two) !! "b" = Some 1 ∧
  V1.iframes (V1.page Sample.v1_two) !! 0 ≫= contentWindow = Some 0 ∧
  (V1.step (H:=Sample.browser) Sample.v1_two
     (V1.Message (Sample.msg "gameResult" [("data", JNum 7)] 0))).1.2 =
    [Invoked Sample.fn_result_a [JNum 7]; Invoked Sample.fn_result_b [JNum 7]].
Proof. by vm_compute. Qed.

(** C4, at messages that no live game of the first variant has sent.  A
    listener takes the game under its bound id and compares the origin of
    the message with the origin of that game's URL; it never looks at the
    sending window.  On the page with the one game [a], whose window is 0,
    a [gameResult] with a null source and the origin of [a] calls the
    [onGameResult] of [a], and an [updateLocaleAndCurrency] from a window
    that is no game's changes the currency of [a].  On the page with [a]
    and [b], after [a] has been removed, a [gameResult] from the window
    that was [a]'s calls the [onGameResult] of [b]. *)
Theorem C4_v1_unknown_sender_is_handled :
  V1.iframe <$> V1.games (V1.page Sample.v1_one) !! "a" = Some 0 ∧
  length (V1.iframes (V1.page Sample.v1_one)) = 1 ∧
  (V1.step (H:=Sample.browser) Sample.v1_one
     (V1.Message (MessageEvent (JObj [("action", JStr "gameResult"); ("data", JNum 7)])
                               Sample.games_origin None))).1.2
    = [Invoked Sample.fn_result_a [JNum 7]] ∧
  V1.currency <$>
    V1.games (V1.page
      (V1.after (H:=Sample.browser) Sample.v1_one
         (V1.Message (Sample.msg "updateLocaleAndCurrency" [("currency", JStr "USD")] 99))))
      !! "a" = Some (JStr "USD") ∧
  let w := V1.after (H:=Sample.browser) Sample.v1_two (V1.CallRemoveGame "a") in
  V1.games (V1.page w) !! "a" = None ∧
  (V1.step (H:=Sample.browser) w
     (V1.Message (Sample.msg "gameResult" [("data", JNum 7)] 0))).1.2
    = [Invoked Sample.fn_result_b [JNum 7]].
Proof. by vm_compute. Qed.

(** C5, as stated, fails in two ways.  The second variant has no case for
    [updateLocaleAndCurrency]: a message from the window of game [a] that
    carries the currency USD leaves the currency of [a] at TZS.  The first
    variant tests the fields for truth, not for presence: a message that
    carries an empty locale and the currency USD changes the currency and
    leaves the locale at en-US. *)
Lemma C5_counterexample :
  V2.currency <$>
    V2.own "a" (V2.games (V2.page
      (V2.after (H:=Sample.browser) Sample.v2_one
         (V2.Message (Sample.msg "updateLocaleAndCurrency" [("currency", JStr "USD")] 0)))))
    = Some (JStr "TZS") ∧
  (fun g => (V1.locale g, V1.currency g)) <$>
    (V1.games (V1.page
      (V1.after (H:=Sample.browser) Sample.v1_one
         (V1.Message (Sample.msg "updateLocaleAndCurrency"
            [("locale", JStr EmptyString); ("currency", JStr "USD")] 0)))) !! "a")
    = Some (JStr "en-US", JStr "USD").
Proof. split; vm_compute; reflexivity. Qed.

(** C5, amended.  In the first variant, when the listener of a registered
    game receives [updateLocaleAndCurrency] from the origin of the game's
    URL, the game's locale becomes the locale of the payload if that is
    truthy and stays as it was otherwise, and the same holds for the
    currency; nothing else of the page changes, and no callback is called.
    In the second variant the handler leaves every game as it was on this
    action. *)
Theorem C5_update_locale_and_currency `{Browser} :
  (∀ (s : V1.sdk) (id : string) (g : V1.game) (ev : message_event),
     V1.games s !! id = Some g →
     url_origin (V1.iframeUrl g) = Some (origin ev) →
     nullish (data ev) = false →
     is_str (get "action" (data ev)) "updateLocaleAndCurrency" = true →
     (V1.handleMessage id ev s).1.1 = Ret tt ∧
     (V1.handleMessage id ev s).1.2 =
       V1.set_games
         (insert id (V1.updated (get "locale" (data ev)) (get "currency" (data ev)) g)) s ∧
     visible (V1.handleMessage id ev s).2 = []) ∧
  (∀ (s : V2.sdk) (ev : message_event),
     is_str (get "action" (data ev)) "updateLocaleAndCurrency" = true →
     V2.games (V2._handleMessage ev s).1.2 = V2.games s).
Proof.
  split.
  - intros s id g ev. apply handleMessage_update.
  - intros s ev Hact. apply _handleMessage_games.
    assert (truthy (data ev) = true) as ->.
    { destruct (data ev) as [| |b|n|t|f|ps]; try done. }
    unfold is_str in *. destruct (get "action" (data ev)); try done.
    by apply String.eqb_eq in Hact as ->.
Qed.

(** A message that carries only a currency, sent to game [a] of the sample
    page of either variant. *)
Lemma C5_update_locale_and_currency_witness :
  (V1.handleMessage (H:=Sample.browser) "a"
     (Sample.msg "updateLocaleAndCurrency" [("currency", JStr "USD")] 0)
     (V1.page Sample.v1_one)).1.2 =
    V1.set_games
      (insert "a" (V1.Game 0 "https://games.example/dice" (JStr "u1")
                           (JStr "en-US") (JStr "USD")
                           (Some Sample.fn_error_a) (Some Sample.fn_result_a)))
      (V1.page Sample.v1_one) ∧
  V2.games (V2._handleMessage
     (Sample.msg "updateLocaleAndCurrency" [("currency", JStr "USD")] 0)
     (V2.page Sample.v2_one)).1.2 = V2.games (V2.page Sample.v2_one).
Proof.
  split.
  - refine (proj1 (proj2 (proj1 (C5_update_locale_and_currency (H:=Sample.browser))
             (V1.page Sample.v1_one) "a"
             (V1.Game 0 "https://games.example/dice" (JStr "u1")
                      (JStr "en-US") (JStr "TZS")
                      (Some Sample.fn_error_a) (Some Sample.fn_result_a))
             (Sample.msg "updateLocaleAndCurrency" [("currency", JStr "USD")] 0)
             _ _ _ _))); vm_compute; reflexivity.
  - refine (proj2 (C5_update_locale_and_currency (H:=Sample.browser))
             (V2.page Sample.v2_one)
             (Sample.msg "updateLocaleAndCurrency" [("currency", JStr "USD")] 0) _).
    vm_compute. reflexivity.
Defined.

(** C6, at an id that [this.games] inherits.  No game is registered under
    [toString], yet [this.games["toString"]] is the function every object
    inherits, the guard takes it for a game, and reading
    [game.iframe.parentElement] throws. *)
Theorem C6_v1_removeGame_inherited_id_throws :
  V1.games (V1.page Sample.v1_one) !! "toString" = None ∧
  V1.removeGame "toString" (V1.page Sample.v1_one) =
    (Throw (TypeError "Cannot read properties of undefined (reading 'parentElement')"),
     V1.page Sample.v1_one, []).
Proof. split; vm_compute; reflexivity. Qed.

(** C7, at three runs of the first variant.  [removeGame] is called right
    after [addGame], while the balance is still awaited: it finds no game
    and changes nothing, the game is registered when the balance settles,
    and the load of its iframe posts the handshake and calls [onGameLoad].
    [removeGame] is called after the game is registered: the load of its
    iframe then ends in an exception that nothing catches.  The removed id
    is added again: the load of the first iframe posts the handshake, with
    the balance of the first call, to the window of the second iframe, and
    calls [onGameLoad]. *)
Theorem C7_v1_load_after_removeGame_not_inert :
  let handshake w bal :=
    [ Posted w
        (JObj [("action", JStr "setParentDomain"); ("domain", JStr "https://host.example")])
        "https://games.example/dice";
      Posted w
        (JObj [("action", JStr "userDetails"); ("userId", JStr "u1"); ("balance", JNum bal);
               ("locale", JStr "en-US"); ("currency", JStr "TZS")])
        "https://games.example/dice";
      Invoked Sample.fn_load_a [] ] in
  let w0 := V1.after (H:=Sample.browser) Sample.v1_boot
              (V1.CallAddGame (Some Sample.cfg_a)) in
  let w1 := V1.run (H:=Sample.browser) w0
              [V1.CallRemoveGame "a"; V1.Settle 0 (Resolved (JNum 500))] in
  let w2 := V1.after (H:=Sample.browser) Sample.v1_one (V1.CallRemoveGame "a") in
  let w3 := V1.run (H:=Sample.browser) w2
              [V1.CallAddGame (Some Sample.cfg_a); V1.Settle 0 (Resolved (JNum 7))] in
  (V1.step (H:=Sample.browser) w0 (V1.CallRemoveGame "a")).1.1 = w0 ∧
  (V1.step (H:=Sample.browser) w1 (V1.Load 0)).1.2 = handshake 0 500%Z ∧
  V1.games (V1.page w2) !! "a" = None ∧
  (V1.step (H:=Sample.browser) w2 (V1.Load 0)).2 =
    [TypeError "Cannot read properties of undefined (reading 'locale')"] ∧
  V1.iframe <$> V1.games (V1.page w3) !! "a" = Some 1 ∧
  (V1.step (H:=Sample.browser) w3 (V1.Load 0)).1.2 = handshake 1 500%Z.
Proof. by vm_compute. Qed.

(** C8, at a message whose payload is [null].  The listener of game [a]
    accepts the origin and then destructures [event.data]; that throws, and
    nothing in the handler catches it. *)
Theorem C8_v1_null_payload_throws :
  (V1.step (H:=Sample.browser) Sample.v1_one
     (V1.Message (MessageEvent JNull Sample.games_origin (Some 0)))).2 =
    [TypeError "Cannot destructure property 'action' of 'event.data'"].
Proof. by vm_compute. Qed.

Section BalanceFailure.
Context `{Browser}.

(** When the awaited balance is rejected, [addGame] of the first variant
    runs to its end: it writes the failure to the console, calls no host
    function, and registers the game with a connected iframe whose load
    handler holds the balance 0. *)
Lemma v1_balance_failure arg s0 s0' es0 k e s :
  V1.addGame_begin arg s0 = (Ret (Awaiting k), s0', es0) →
  let r := length (V1.iframes s) in
  let s' := (V1.addGame_resume k (Rejected e) s).1.2 in
  arg = Some (V1.p_cfg k) ∧
  (V1.addGame_resume k (Rejected e) s).1.1 = Ret tt ∧
  (V1.addGame_resume k (Rejected e) s).2 =
    [Console LError (tag +:+ "Failed to fetch user balance:") [e]] ∧
  V1.games s' !! V1.p_gameId k = Some (V1.new_game k r) ∧
  V1.iframes s' !! r =
    Some (Element (V1.p_iframeUrl k) (Some (V1.p_container k)) (Some r)
            (Some (V1.Closure (V1.p_gameId k) (V1.c_userId (V1.p_cfg k)) (JNum 0)
                     (V1.c_onGameLoad (V1.p_cfg k))))).
Proof.
  intros (_&Harg&_)%addGame_begin_awaiting r s'.
  unfold s', r. rewrite addGame_resume_eq. simpl.
  split_and!; [done..|apply lookup_insert_eq|by apply list_lookup_middle].
Qed.

(** The same in the second variant without the inspector; nothing is
    written to the console, and the game holds the balance 0 too. *)
Lemma v2_balance_failure_plain k e s :
  V2.inspector s = None →
  let r := length (V2.iframes s) in
  let s' := (V2.addGame_resume k (Rejected e) s).1.2 in
  (V2.addGame_resume k (Rejected e) s).1.1 = Ret tt ∧
  (V2.addGame_resume k (Rejected e) s).2 = [] ∧
  V2.balance <$> V2.own (V2.p_gameId k) (V2.games s') = Some (JNum 0) ∧
  V2.iframes s' !! r =
    Some (Element (V2.p_iframeUrl k) (Some (V2.p_container k)) (Some r)
            (Some (V2.Closure (V2.c_tenantName (V2.p_cfg k)) (V2.p_gameId k)
                     (V2.c_userId (V2.p_cfg k)) (JNum 0)
                     (V2.c_callbackUrl (V2.p_cfg k)) (V2.c_onGameLoad (V2.p_cfg k))))).
Proof.
  intros Hi r s'. unfold s', r, V2.addGame_resume.
  rewrite addGame_finish_eq by done. simpl. rewrite own_assign_eq.
  split_and!; [done..|by apply list_lookup_middle].
Qed.

(** With the inspector the game is stored with the balance 0 whatever
    the panel does afterwards. *)
Lemma v2_balance_failure_stored k e s :
  V2.balance <$>
    V2.own (V2.p_gameId k) (V2.games (V2.addGame_resume k (Rejected e) s).1.2)
  = Some (JNum 0).
Proof.
  unfold V2.addGame_resume, V2.addGame_finish. simpl.
  erewrite bind_run by apply runs_gets.
  erewrite bind_run by apply runs_modify.
  erewrite bind_run by apply runs_modify.
  erewrite bind_run by apply runs_modify.
  erewrite bind_run by apply runs_modify.
  cbn [fst snd].
  set (s4 := V2.set_games _ _).
  assert (V2.own (V2.p_gameId k) (V2.games s4) =
          Some (V2.new_game k (length (V2.iframes s)) (JNum 0))) as Hs4.
  { unfold s4. simpl. apply own_assign_eq. }
  assert (keeps (fun s s' : V2.sdk => V2.games s' = V2.games s)
            (bind (V2.inspector_addGame (V2.p_gameId k))
               (fun _ => modify (V2.set_iframes
                  (alter (with_onload (V2.new_closure k (JNum 0)))
                         (length (V2.iframes s)))))))
    as Hk.
  { assert (PreOrder (fun s s' : V2.sdk => V2.games s' = V2.games s)).
    { split; [done|]. intros ??? H1 H2. by rewrite H2. }
    unfold V2.inspector_addGame, V2._renderInspector.
    repeat first [by apply keeps_modify | step_keeps]. }
  pose proof (Hk s4) as Hk'. cbv beta in Hk'. rewrite Hk', Hs4. done.
Qed.
End BalanceFailure.


(** C10, at one game of the first variant that is added and removed, twice
    over.  [removeGame] hands [removeEventListener] a function that [bind]
    has just made, which is none of the registered ones; the listener that
    [addGame] registered for the game stays, and every round leaves one
    more behind. *)
Theorem C10_v1_listeners_accumulate :
  let round := [V1.CallAddGame (Some Sample.cfg_a); V1.Settle 0 (Resolved (JNum 500));
                V1.CallRemoveGame "a"] in
  let w1 := V1.run (H:=Sample.browser) Sample.v1_boot round in
  let w2 := V1.run (H:=Sample.browser) w1 round in
  V1.games (V1.page w1) !! "a" = None ∧
  V1.listeners (V1.page w1) = [(0, "a")] ∧
  V1.games (V1.page w2) !! "a" = None ∧
  V1.listeners (V1.page w2) = [(0, "a"); (2, "a")].
Proof. by vm_compute. Qed.

(** * Further properties of the code

    A posted message is the call of [postMessage] as the SDK makes it: the
    values handed to it are taken to be ones the browser can clone, as the
    configuration and the payloads of the protocol are. *)

Section Emits.
Context {S : Type} (P : effect → Prop).

Lemma emits_ret {A} (a : A) : emits (S:=S) P (ret a).
Proof. intros s. constructor. Qed.
Lemma emits_throw {A} e : emits (S:=S) P (throw (A:=A) e).
Proof. intros s. constructor. Qed.
Lemma emits_gets {A} (f : S → A) : emits P (gets f).
Proof. intros s. constructor. Qed.
Lemma emits_modify (f : S → S) : emits P (modify f).
Proof. intros s. constructor. Qed.
Lemma emits_emit e : P e → emits (S:=S) P (emit e).
Proof. intros He s. by repeat constructor. Qed.
Lemma emits_bind {A B} (m : M (S:=S) A) (k : A → M B) :
  emits P m → (∀ a, emits P (k a)) → emits P (bind m k).
Proof.
  intros Hm Hk s. unfold bind. specialize (Hm s).
  destruct (m s) as [[[a|e] s1] es1]; simpl in *; [|done].
  specialize (Hk a s1). destruct (k a s1) as [[o s2] es2]. simpl in *.
  by apply Forall_app.
Qed.
Lemma emits_when b (m : M (S:=S) unit) : emits P m → emits P (when b m).
Proof. destruct b; [done|]. intros _. apply emits_ret. Qed.
Lemma emits_invoke f args :
  (∀ h, P (Invoked h args)) → emits (S:=S) P (invoke f args).
Proof. intros HP. destruct f; [by apply emits_emit|apply emits_ret]. Qed.
End Emits.

(** Break a handler body down along its structure, for its effects. *)
Ltac step_emits :=
  first
    [ apply emits_ret | apply emits_throw | apply emits_gets | apply emits_modify
    | apply emits_emit; done
    | apply emits_invoke; done
    | apply emits_when
    | apply emits_bind; [|intros ?]
    | match goal with
      | |- emits _ (match ?x with _ => _ end) => destruct x
      end ].

(** ** First variant *)

Section V1More.
Context `{Browser}.
Import V1.

Lemma prefix_http_nonempty url :
  String.prefix "http" url = true → String.eqb url EmptyString = false.
Proof. by destruct url. Qed.

Lemma addGame_begin_accepts cfg s id url f :
  c_gameId cfg = JStr id → id ≠ EmptyString →
  read (games s !! id) id = Absent →
  default "undefined" (c_containerId cfg) ∈ elements s →
  c_iframeUrl cfg = Some url → String.prefix "http" url = true →
  c_getUserBalance cfg = JFun f →
  addGame_begin (Some cfg) s =
    (Ret (Awaiting (Pending id (default "undefined" (c_containerId cfg)) url cfg)), s,
     [Invoked f [c_userId cfg]]).
Proof.
  intros Hid Hne Hr Hc Hu Hp Hf. unfold addGame_begin, lookup_game. unmonad.
  rewrite Hid. apply String.eqb_neq in Hne. rewrite Hne. simpl. rewrite Hr. simpl.
  rewrite bool_decide_eq_true_2 by done. simpl.
  rewrite Hu, (prefix_http_nonempty url Hp), Hp, Hf. done.
Qed.

(** A rejected [addGame] writes to the console and does nothing else. *)
Lemma addGame_begin_rejects arg s :
  (∀ k, (addGame_begin arg s).1.1 ≠ Ret (Awaiting k)) →
  visible (addGame_begin arg s).2 = [].
Proof.
  unfold addGame_begin, lookup_game. unmonad. destruct arg as [cfg|]; [|done].
  destruct (c_gameId cfg); try done.
  destruct (String.eqb s0 EmptyString); [done|]. simpl.
  destruct (read _ _); try done. simpl.
  destruct (negb _); [done|].
  destruct (c_iframeUrl cfg); [|done].
  destruct (_ && _); [|done].
  destruct (c_getUserBalance cfg); try done. simpl.
  intros Hk. by destruct (Hk _ eq_refl).
Qed.

Lemma addGame_begin_checked cfg s k :
  (addGame_begin (Some cfg) s).1.1 = Ret (Awaiting k) →
  ∃ id url f,
    c_gameId cfg = JStr id ∧ id ≠ EmptyString ∧ read (games s !! id) id = Absent ∧
    default "undefined" (c_containerId cfg) ∈ elements s ∧
    c_iframeUrl cfg = Some url ∧ String.prefix "http" url = true ∧
    c_getUserBalance cfg = JFun f.
Proof.
  unfold addGame_begin, lookup_game. unmonad.
  destruct (c_gameId cfg) as [| |b|n|id|g|ps] eqn:Hid; try done.
  destruct (String.eqb id EmptyString) eqn:He; [done|]. simpl.
  destruct (read _ _) eqn:Hr; try done. simpl.
  destruct (bool_decide _) eqn:Hc; [|done]. simpl.
  destruct (c_iframeUrl cfg) as [url|] eqn:Hu; [|done].
  destruct (negb _ && _) eqn:Hp; [|done].
  destruct (c_getUserBalance cfg) as [| |b|n|t|f|ps] eqn:Hf; try done. simpl.
  intros _. exists id, url, f.
  apply String.eqb_neq in He. apply bool_decide_eq_true in Hc.
  apply andb_true_iff in Hp as [_ Hp]. done.
Qed.
End V1More.

(** X1.  [addGame] of the first variant gets past its checks exactly when
    the game id is a string that is not empty and reads as nothing in
    [this.games], the container is in the document, the iframe URL starts
    with [http] and [getUserBalance] is a function.  It never changes the
    state before the [await], and when it turns the configuration down it
    calls no host function and posts nothing. *)
Theorem X1_v1_addGame_admission `{Browser} (cfg : V1.config) (s : V1.sdk) :
  (V1.addGame_begin (Some cfg) s).1.2 = s ∧
  ((∃ k, (V1.addGame_begin (Some cfg) s).1.1 = Ret (Awaiting k)) ↔
   (∃ id url f,
      V1.c_gameId cfg = JStr id ∧ id ≠ EmptyString ∧
      read (V1.games s !! id) id = Absent ∧
      default "undefined" (V1.c_containerId cfg) ∈ V1.elements s ∧
      V1.c_iframeUrl cfg = Some url ∧ String.prefix "http" url = true ∧
      V1.c_getUserBalance cfg = JFun f)) ∧
  ((∀ k, (V1.addGame_begin (Some cfg) s).1.1 ≠ Ret (Awaiting k)) →
   visible (V1.addGame_begin (Some cfg) s).2 = []).
Proof.
  split_and!.
  - symmetry. apply (addGame_begin_unchanged (Some cfg) s).
  - split.
    + intros [k Hk]. by eapply addGame_begin_checked.
    + intros (id&url&f&Hid&Hne&Hr&Hc&Hu&Hp&Hf).
      eexists. by rewrite (addGame_begin_accepts cfg s id url f).
  - apply addGame_begin_rejects.
Qed.

(** X2.  Once a call of [addGame] of the first variant has got past its
    checks, it runs to its end when the balance settles, whatever has
    happened to the page in between.  It stores one game under the id of
    the configuration, with the configuration's URL, user and callbacks and
    with its locale and currency or, when those are falsy, [en-US] and
    [TZS]; it appends one iframe element, connected to the container and
    showing the URL, whose load handler holds the settled balance; it
    appends one message listener bound to the id.  Every other game, every
    older iframe and every older listener is as before, and no host
    function is called. *)
Theorem X2_v1_addGame_registers `{Browser}
    (cfg : V1.config) (s0 s : V1.sdk) (k : V1.pending) (b : settled) :
  (V1.addGame_begin (Some cfg) s0).1.1 = Ret (Awaiting k) →
  let s' := (V1.addGame_resume k b s).1.2 in
  let r := length (V1.iframes s) in
  ∃ id url,
    V1.c_gameId cfg = JStr id ∧ V1.c_iframeUrl cfg = Some url ∧
    (V1.addGame_resume k b s).1.1 = Ret tt ∧
    visible (V1.addGame_resume k b s).2 = [] ∧
    V1.games s' !! id =
      Some (V1.Game r url (V1.c_userId cfg)
              (if truthy (V1.c_locale cfg) then V1.c_locale cfg else JStr "en-US")
              (if truthy (V1.c_currency cfg) then V1.c_currency cfg else JStr "TZS")
              (V1.c_onError cfg) (V1.c_onGameResult cfg)) ∧
    (∀ id', id' ≠ id → V1.games s' !! id' = V1.games s !! id') ∧
    V1.iframes s' =
      V1.iframes s ++
        [Element url (Some (default "undefined" (V1.c_containerId cfg))) (Some r)
           (Some (V1.Closure id (V1.c_userId cfg) (settled_balance b)
                    (V1.c_onGameLoad cfg)))] ∧
    V1.listeners s' = V1.listeners s ++ [(V1.next_fn s, id)] ∧
    V1.elements s' = V1.elements s.
Proof.
  intros Hk s' r.
  destruct (addGame_begin_checked cfg s0 k Hk) as (id&url&f&Hid&Hne&Hr&Hc&Hu&Hp&Hf).
  rewrite (addGame_begin_accepts cfg s0 id url f) in Hk by done.
  simpl in Hk. injection Hk as <-.
  exists id, url. unfold s', r. rewrite addGame_resume_eq. simpl.
  split_and!; try done.
  - by destruct b.
  - apply lookup_insert_eq.
  - intros id' Hne'. by apply lookup_insert_ne.
Qed.

(** The first [addGame] on the sample page, settled with 500. *)
Lemma X2_v1_addGame_registers_witness :
  let k := V1.Pending "a" "slot-a" "https://games.example/dice" Sample.cfg_a in
  let s := V1.page Sample.v1_boot in
  ∃ id url,
    V1.c_gameId Sample.cfg_a = JStr id ∧ V1.c_iframeUrl Sample.cfg_a = Some url ∧
    V1.listeners (V1.addGame_resume k (Resolved (JNum 500)) s).1.2
      = V1.listeners s ++ [(V1.next_fn s, id)].
Proof.
  intros k s.
  destruct (X2_v1_addGame_registers (H:=Sample.browser) Sample.cfg_a s s k
              (Resolved (JNum 500)) ltac:(vm_compute; reflexivity))
    as (id&url&Hid&Hu&_&_&_&_&_&Hl&_).
  exact (ex_intro _ id (ex_intro _ url (conj Hid (conj Hu Hl)))).
Defined.

(** X3.  In every state the first variant reaches, each registered game is
    stored under an id that is not empty and is no name inherited from
    [Object.prototype]; its iframe element exists, is connected, shows the
    game's URL, has a window of its own and carries the load handler made
    for that id and user.  No two registered games share an iframe. *)
Theorem X3_v1_registry_invariant `{Browser} (w : V1.world) :
  V1.reachable w →
  (∀ id g, V1.games (V1.page w) !! id = Some g →
     id ≠ EmptyString ∧ inherited id = false ∧
     ∃ e cl, V1.iframes (V1.page w) !! V1.iframe g = Some e ∧
             is_Some (parentElement e) ∧ contentWindow e = Some (V1.iframe g) ∧
             src e = V1.iframeUrl g ∧ onload e = Some cl ∧
             V1.cl_gameId cl = id ∧ V1.cl_userId cl = V1.userId g) ∧
  (∀ a b ga gb,
     V1.games (V1.page w) !! a = Some ga → V1.games (V1.page w) !! b = Some gb →
     V1.iframe ga = V1.iframe gb → a = b).
Proof.
  intros Hw%v1_reachable_consistent. split.
  - intros id g Hg. apply (V1.games_ok w Hw id g Hg).
  - intros a b ga gb Ha Hb Heq.
    destruct (V1.games_ok w Hw a ga Ha) as (_&_&ea&cla&Hea&_&_&_&Hoa&Hida&_).
    destruct (V1.games_ok w Hw b gb Hb) as (_&_&eb&clb&Heb&_&_&_&Hob&Hidb&_).
    rewrite Heq, Heb in Hea. congruence.
Qed.

Lemma v1_two_reachable : V1.reachable (H:=Sample.browser) Sample.v1_two.
Proof. unfold Sample.v1_two, Sample.v1_one. simpl. repeat constructor. Qed.

(** Game [b] of the sample page. *)
Lemma X3_v1_registry_invariant_witness :
  "b" ≠ EmptyString ∧ inherited "b" = false ∧
  ∃ e cl, V1.iframes (V1.page Sample.v1_two) !! 1 = Some e ∧
          is_Some (parentElement e) ∧ contentWindow e = Some 1 ∧
          src e = "https://games.example/slots" ∧ onload e = Some cl ∧
          V1.cl_gameId cl = "b" ∧ V1.cl_userId cl = JStr "u1".
Proof.
  refine (proj1 (X3_v1_registry_invariant (H:=Sample.browser) Sample.v1_two
                   v1_two_reachable) "b"
            (V1.Game 1 "https://games.example/slots" (JStr "u1")
                     (JStr "sw-TZ") (JStr "KES")
                     (Some Sample.fn_error_b) (Some Sample.fn_result_b)) _).
  vm_compute. reflexivity.
Defined.

(** X4.  In every state the first variant reaches, [removeGame] of a
    registered id returns without an exception.  It deletes that game and no
    other, disconnects that game's iframe and no other, leaves the message
    listeners as they are, and calls no host function.  Afterwards
    [postMessage] to that id does nothing. *)
Theorem X4_v1_removeGame_removes `{Browser}
    (w : V1.world) (id : string) (g : V1.game) (d : jsval) :
  V1.reachable w → V1.games (V1.page w) !! id = Some g →
  let s := V1.page w in
  let s' := (V1.removeGame id s).1.2 in
  (V1.removeGame id s).1.1 = Ret Removed ∧
  visible (V1.removeGame id s).2 = [] ∧
  V1.games s' = delete id (V1.games s) ∧
  V1.iframes s' = alter detached (V1.iframe g) (V1.iframes s) ∧
  V1.iframes s' !! V1.iframe g ≫= contentWindow = None ∧
  (∀ id' g', id' ≠ id → V1.games s !! id' = Some g' →
     V1.games s' !! id' = Some g' ∧
     V1.iframes s' !! V1.iframe g' = V1.iframes s !! V1.iframe g') ∧
  V1.listeners s' = V1.listeners s ∧
  V1.postMessage id d s' = (Ret tt, s', []).
Proof.
  intros Hw%v1_reachable_consistent Hg s s'.
  pose proof (V1.games_ok w Hw) as Hok.
  destruct (Hok id g Hg) as (_&_&e&cl&He&[c Hc]&_&_&Ho&Hid&_).
  pose proof (removeGame_listeners w id Hw) as Hls.
  unfold s', s in *. rewrite (removeGame_own id g (V1.page w) Hg) in *;
    [|rewrite He; simpl; eauto..]. simpl in *.
  split_and!; try done.
  - rewrite list_lookup_alter_eq, He. done.
  - intros id' g' Hne Hg'. split; [by rewrite lookup_delete_ne|].
    destruct (Hok id' g' Hg') as (_&_&e'&cl'&He'&_&_&_&Ho'&Hid'&_).
    rewrite list_lookup_alter_ne; [done|].
    intros Heq. rewrite Heq, He' in He. congruence.
  - apply postMessage_absent. simpl. apply lookup_delete_eq.
Qed.

(** Game [a] of the sample page is removed; [b] stays. *)
Lemma X4_v1_removeGame_removes_witness :
  (V1.removeGame "a" (V1.page Sample.v1_two)).1.1 = Ret Removed ∧
  V1.games (V1.removeGame "a" (V1.page Sample.v1_two)).1.2
    = delete "a" (V1.games (V1.page Sample.v1_two)).
Proof.
  pose proof (X4_v1_removeGame_removes (H:=Sample.browser) Sample.v1_two "a"
    (V1.Game 0 "https://games.example/dice" (JStr "u1") (JStr "en-US") (JStr "TZS")
             (Some Sample.fn_error_a) (Some Sample.fn_result_a))
    JNull v1_two_reachable ltac:(vm_compute; reflexivity)) as (Hr&_&Hg&_).
  exact (conj Hr Hg).
Defined.

(** X5.  [removeGame] of an id that is neither registered nor a name
    inherited from [Object.prototype] writes a warning and changes nothing.
    So, in every state the first variant reaches, once [removeGame] has
    removed a game, a second [removeGame] of the same id does just that. *)
Theorem X5_v1_removeGame_twice `{Browser} (w : V1.world) (id : string) :
  V1.reachable w → (V1.removeGame id (V1.page w)).1.1 = Ret Removed →
  let s' := (V1.removeGame id (V1.page w)).1.2 in
  V1.removeGame id s' =
    (Ret NotFound, s',
     [Console LWarn
        (tag +:+ "Game with ID " +:+ dq +:+ id +:+ dq +:+ " does not exist.") []]).
Proof.
  intros Hw%v1_reachable_consistent Hrm s'.
  apply removeGame_absent. by apply removeGame_again.
Qed.

(** Game [a] of the sample page, removed twice. *)
Lemma X5_v1_removeGame_twice_witness :
  (V1.removeGame "a" (V1.removeGame "a" (V1.page Sample.v1_two)).1.2).1.1 = Ret NotFound.
Proof.
  pose proof (X5_v1_removeGame_twice (H:=Sample.browser) Sample.v1_two "a"
    v1_two_reachable ltac:(vm_compute; reflexivity)) as Hr.
  exact (f_equal (fun x => x.1.1) Hr).
Defined.

Section V1Messages.
Context `{Browser}.
Import V1.

Lemma log_emits P m d : (∀ l t a, P (Console l t a)) → emits P (log m d).
Proof. intros HP. unfold log. repeat first [apply emits_emit; apply HP | step_emits]. Qed.

(** A message handler posts nothing. *)
Lemma handleMessage_posts_nothing id ev :
  emits (fun e => is_posted e = false) (handleMessage id ev).
Proof.
  unfold handleMessage, lookup_game. cbv zeta.
  repeat first [apply log_emits; done | step_emits].
Qed.

Lemma run_listeners_posts_nothing ls ev s :
  Forall (fun e => is_posted e = false) (run_listeners ls ev s).1.2.
Proof.
  revert s. induction ls as [|l ls IH]; intros s; simpl; [constructor|].
  pose proof (handleMessage_posts_nothing (snd l) ev s) as Hh.
  destruct (handleMessage _ _ _) as [[o s1] es1]. simpl in Hh.
  specialize (IH s1). destruct (run_listeners _ _ _) as [[s2 es2] xs]. simpl in *.
  by apply Forall_app.
Qed.

Lemma posts_nil es : Forall (fun e => is_posted e = false) es → posts es = [].
Proof.
  induction 1 as [|e es He _ IH]; [done|]. unfold posts in *. simpl. by rewrite He.
Qed.

Lemma is_str_exclusive v a b :
  a ≠ b → is_str v a = true → is_str v b = false.
Proof.
  intros Hab. unfold is_str. destruct v; try done.
  intros ->%String.eqb_eq. by apply String.eqb_neq.
Qed.

(** What a listener does with a message from its game's origin. *)
Lemma handleMessage_actions id g ev s :
  games s !! id = Some g →
  url_origin (iframeUrl g) = Some (origin ev) →
  nullish (data ev) = false →
  (handleMessage id ev s).1.1 = Ret tt ∧
  visible (handleMessage id ev s).2 =
    (if is_str (get "action" (data ev)) "gameResult" then
       invocation (onGameResult g) [get "data" (data ev)]
     else if is_str (get "action" (data ev)) "error" then
       invocation (onError g) [get "message" (data ev)]
     else []) ∧
  (is_str (get "action" (data ev)) "updateLocaleAndCurrency" = false →
   (handleMessage id ev s).1.2 = s).
Proof.
  intros Hg Hurl Hnull.
  destruct (is_str (get "action" (data ev)) "updateLocaleAndCurrency") eqn:Hu.
  { destruct (handleMessage_update id g ev s Hg Hurl Hnull Hu) as (Hr&_&Hv).
    rewrite (is_str_exclusive _ "updateLocaleAndCurrency" "gameResult"),
      (is_str_exclusive _ "updateLocaleAndCurrency" "error") by done.
    done. }
  destruct (is_str (get "action" (data ev)) "gameResult") eqn:Hgr.
  { pose proof (is_str_exclusive _ "gameResult" "error" ltac:(done) Hgr) as He.
    unfold handleMessage, lookup_game, log. unmonad. simpl.
    rewrite Hg. simpl. rewrite Hurl, String.eqb_refl, Hnull. simpl.
    rewrite Hgr, Hu, He. simpl. by destruct (onGameResult g). }
  destruct (is_str (get "action" (data ev)) "error") eqn:He.
  - unfold handleMessage, lookup_game, log. unmonad. simpl.
    rewrite Hg. simpl. rewrite Hurl, String.eqb_refl, Hnull. simpl.
    rewrite Hgr, Hu, He. simpl. by destruct (onError g).
  - unfold handleMessage, lookup_game, log. unmonad. simpl.
    rewrite Hg. simpl. rewrite Hurl, String.eqb_refl, Hnull. simpl.
    by rewrite Hgr, Hu, He.
Qed.
End V1Messages.

(** X6.  When the listener of a registered game of the first variant gets
    a message from the origin of the game's URL with a payload that is not
    null or undefined, it returns, and apart from console output it does
    this: on [gameResult] it calls the game's [onGameResult] with the
    payload's [data], on [error] it calls the game's [onError] with the
    payload's [message], on anything else it calls nothing.  It leaves the
    state as it is unless the action is [updateLocaleAndCurrency]. *)
Theorem X6_v1_handleMessage_actions `{Browser}
    (s : V1.sdk) (id : string) (g : V1.game) (ev : message_event) :
  V1.games s !! id = Some g →
  url_origin (V1.iframeUrl g) = Some (origin ev) →
  nullish (data ev) = false →
  (V1.handleMessage id ev s).1.1 = Ret tt ∧
  visible (V1.handleMessage id ev s).2 =
    (if is_str (get "action" (data ev)) "gameResult" then
       invocation (V1.onGameResult g) [get "data" (data ev)]
     else if is_str (get "action" (data ev)) "error" then
       invocation (V1.onError g) [get "message" (data ev)]
     else []) ∧
  (is_str (get "action" (data ev)) "updateLocaleAndCurrency" = false →
   (V1.handleMessage id ev s).1.2 = s).
Proof. apply handleMessage_actions. Qed.

(** An [error] message for game [a] of the sample page. *)
Lemma X6_v1_handleMessage_actions_witness :
  visible (V1.handleMessage (H:=Sample.browser) "a"
     (Sample.msg "error" [("message", JStr "boom")] 0) (V1.page Sample.v1_one)).2 =
    [Invoked Sample.fn_error_a [JStr "boom"]].
Proof.
  exact (proj1 (proj2 (X6_v1_handleMessage_actions (H:=Sample.browser)
    (V1.page Sample.v1_one) "a"
    (V1.Game 0 "https://games.example/dice" (JStr "u1") (JStr "en-US") (JStr "TZS")
             (Some Sample.fn_error_a) (Some Sample.fn_result_a))
    (Sample.msg "error" [("message", JStr "boom")] 0)
    ltac:(vm_compute; reflexivity) ltac:(vm_compute; reflexivity)
    ltac:(vm_compute; reflexivity)))).
Defined.

(** X7.  A message event never makes the first variant post a message, and
    whatever its payload it changes nothing but the locale and currency of
    games: the iframes, the listeners, the set of registered ids and every
    other field of every game are as before. *)
Theorem X7_v1_messages_touch_locale_and_currency_only `{Browser}
    (ev : message_event) (s : V1.sdk) :
  let s' := (V1.dispatch_message ev s).1.1 in
  posts (V1.dispatch_message ev s).1.2 = [] ∧
  V1.iframes s' = V1.iframes s ∧ V1.listeners s' = V1.listeners s ∧
  V1.elements s' = V1.elements s ∧
  dom (V1.games s') = dom (V1.games s) ∧
  (∀ id, V1.identity <$> V1.games s' !! id = V1.identity <$> V1.games s !! id).
Proof.
  intros s'. unfold s', V1.dispatch_message.
  pose proof (v1_run_listeners_frames (V1.listeners s) ev s) as (_&He&Hi&Hl&_&Hid).
  split_and!; try done.
  - apply posts_nil, run_listeners_posts_nothing.
  - apply set_eq. intros id. rewrite !elem_of_dom. specialize (Hid id).
    destruct (V1.games _ !! id), (V1.games s !! id); simpl in Hid; try done;
      split; intros [? ?]; done.
Qed.

Section V1Steps.
Context `{Browser}.
Import V1.

(** What one event does to the list of listeners. *)
Lemma step_listeners w i :
  consistent w →
  listeners (page (after w i)) = listeners (page w) ∨
  ∃ k b, i = Settle k b ∧ ∃ id,
    listeners (page (after w i)) = listeners (page w) ++ [(next_fn (page w), id)].
Proof.
  intros Hw. unfold after, step. destruct i as [arg|i b|id|r|ev].
  - left. pose proof (addGame_begin_unchanged arg (page w)) as Hp.
    destruct (addGame_begin arg (page w)) as [[o s] es]. simpl in Hp. subst s.
    by destruct o as [[| | |k|]|].
  - destruct (suspended w !! i) as [k|]; [|by left].
    right. exists i, b. split; [done|]. exists (p_gameId k).
    by rewrite addGame_resume_eq.
  - left. pose proof (removeGame_listeners w id Hw) as Hl.
    by destruct (removeGame _ _) as [[o s] es].
  - left. pose proof (load_signal_unchanged r (page w)) as Hp.
    destruct (load_signal _ _) as [[o s] es]. simpl in *. by subst s.
  - left. pose proof (v1_run_listeners_frames (listeners (page w)) ev (page w))
      as (_&_&_&Hl&_).
    unfold dispatch_message. by destruct (run_listeners _ _ _) as [[s es] xs].
Qed.

(** What one event does to the registration of a game. *)
Lemma step_keeps_game w i id g :
  consistent w → games (page w) !! id = Some g →
  games (page (after w i)) !! id = None → i = CallRemoveGame id.
Proof.
  intros Hw Hg. unfold after, step. destruct i as [arg|i b|id'|r|ev].
  - pose proof (addGame_begin_unchanged arg (page w)) as Hp.
    destruct (addGame_begin arg (page w)) as [[o s] es]. simpl in Hp. subst s.
    destruct o as [[| | |k|]|]; simpl; congruence.
  - destruct (suspended w !! i) as [k|]; [|simpl; congruence].
    rewrite addGame_resume_eq. simpl. rewrite lookup_insert.
    case_decide; [done|congruence].
  - destruct (read (games (page w) !! id') id') as [g'| |] eqn:Hr.
    + apply read_own in Hr.
      destruct (games_ok w Hw id' g' Hr) as (_&_&e&cl&He&[c Hc]&_).
      rewrite (removeGame_own _ _ _ Hr); [|rewrite He; simpl; eauto]. simpl.
      rewrite lookup_delete. case_decide; [by subst|congruence].
    + rewrite removeGame_inherited by done. simpl. congruence.
    + rewrite removeGame_absent by done. simpl. congruence.
  - pose proof (load_signal_unchanged r (page w)) as Hp.
    destruct (load_signal _ _) as [[o s] es]. simpl in *. subst s. congruence.
  - pose proof (v1_run_listeners_frames (listeners (page w)) ev (page w))
      as (_&_&_&_&_&Hid).
    unfold dispatch_message. destruct (run_listeners _ _ _) as [[s es] xs].
    simpl in *. specialize (Hid id). rewrite Hg in Hid. intros Hn.
    by rewrite Hn in Hid.
Qed.
End V1Steps.

(** X8.  In every state the first variant reaches, no event takes a message
    listener away: a host call, a load event, a message event and
    [removeGame] leave the listeners as they are, and the settling of a
    balance appends one. *)
Theorem X8_v1_listeners_only_grow `{Browser} (w : V1.world) (i : V1.input) :
  V1.reachable w →
  V1.listeners (V1.page (V1.after w i)) = V1.listeners (V1.page w) ∨
  ∃ k b, i = V1.Settle k b ∧ ∃ id,
    V1.listeners (V1.page (V1.after w i)) =
      V1.listeners (V1.page w) ++ [(V1.next_fn (V1.page w), id)].
Proof. intros Hw%v1_reachable_consistent. by apply step_listeners. Qed.

(** Removing game [a] of the sample page keeps both listeners. *)
Lemma X8_v1_listeners_only_grow_witness :
  V1.listeners (V1.page (V1.after (H:=Sample.browser) Sample.v1_two (V1.CallRemoveGame "a")))
    = V1.listeners (V1.page Sample.v1_two).
Proof.
  destruct (X8_v1_listeners_only_grow (H:=Sample.browser) Sample.v1_two
              (V1.CallRemoveGame "a") v1_two_reachable) as [Hl|(k&b&Hi&_)].
  - exact Hl.
  - discriminate Hi.
Defined.

(** X9.  The check for a taken id and the registration are apart: two calls
    of [addGame] of the first variant with the same id that are both made
    before either balance settles both get past the check.  When both have
    run to their end, the id holds the game of the call that settled last,
    the iframe of the other call is still connected and still carries its
    load handler for that id, and two listeners are bound to the id. *)
Theorem X9_v1_concurrent_addGame_overwrites `{Browser}
    (cfg1 cfg2 : V1.config) (s : V1.sdk) (k1 k2 : V1.pending) (b1 b2 : settled) :
  (V1.addGame_begin (Some cfg1) s).1.1 = Ret (Awaiting k1) →
  (V1.addGame_begin (Some cfg2) s).1.1 = Ret (Awaiting k2) →
  V1.p_gameId k1 = V1.p_gameId k2 →
  let r := length (V1.iframes s) in
  let s1 := (V1.addGame_resume k1 b1 s).1.2 in
  let s2 := (V1.addGame_resume k2 b2 s1).1.2 in
  V1.games s2 !! V1.p_gameId k1 = Some (V1.new_game k2 (S r)) ∧
  V1.iframes s2 !! r =
    Some (Element (V1.p_iframeUrl k1) (Some (V1.p_container k1)) (Some r)
            (Some (V1.new_closure k1 (settled_balance b1)))) ∧
  V1.iframes s2 !! S r =
    Some (Element (V1.p_iframeUrl k2) (Some (V1.p_container k2)) (Some (S r))
            (Some (V1.new_closure k2 (settled_balance b2)))) ∧
  V1.listeners s2 =
    V1.listeners s ++ [(V1.next_fn s, V1.p_gameId k1); (S (V1.next_fn s), V1.p_gameId k1)].
Proof.
  intros _ _ Hid r s1 s2. unfold s2, s1, r.
  rewrite !addGame_resume_eq. simpl. rewrite Hid.
  split_and!.
  - rewrite lookup_insert_eq. do 2 f_equal. rewrite length_app. simpl. lia.
  - rewrite lookup_app_l by (rewrite length_app; simpl; lia).
    by apply list_lookup_middle.
  - rewrite length_app. simpl. replace (length (V1.iframes s) + 1) with (S (length (V1.iframes s))) by lia.
    apply list_lookup_middle. rewrite length_app. simpl. lia.
  - by rewrite <- app_assoc.
Qed.

(** Two calls for the id [a] on the sample page before any game is there. *)
Lemma X9_v1_concurrent_addGame_overwrites_witness :
  let k := V1.Pending "a" "slot-a" "https://games.example/dice" Sample.cfg_a in
  let s := V1.page Sample.v1_boot in
  V1.listeners
    (V1.addGame_resume k (Resolved (JNum 2))
       (V1.addGame_resume k (Resolved (JNum 1)) s).1.2).1.2
    = V1.listeners s ++ [(V1.next_fn s, "a"); (S (V1.next_fn s), "a")].
Proof.
  intros k s.
  exact (proj2 (proj2 (proj2
    (X9_v1_concurrent_addGame_overwrites (H:=Sample.browser)
       Sample.cfg_a Sample.cfg_a s k k (Resolved (JNum 1)) (Resolved (JNum 2))
       ltac:(vm_compute; reflexivity) ltac:(vm_compute; reflexivity) eq_refl)))).
Defined.

(** X10.  What [updateLocaleAndCurrency] changes is what a later load
    handshake sends.  In every state the first variant reaches, after the
    listener of a registered game has handled such a message from the
    game's origin, the load event of the game's iframe posts [userDetails]
    with the locale and currency of the payload where they are truthy and
    with the game's former ones where they are not. *)
Theorem X10_v1_update_then_load `{Browser}
    (w : V1.world) (id : string) (g : V1.game) (ev : message_event) :
  V1.reachable w → V1.games (V1.page w) !! id = Some g →
  url_origin (V1.iframeUrl g) = Some (origin ev) →
  nullish (data ev) = false →
  is_str (get "action" (data ev)) "updateLocaleAndCurrency" = true →
  let s' := (V1.handleMessage id ev (V1.page w)).1.2 in
  let loc := get "locale" (data ev) in
  let cur := get "currency" (data ev) in
  ∃ cl,
    V1.iframes s' !! V1.iframe g ≫= onload = Some cl ∧
    (V1.load_signal (V1.iframe g) s').1.1 = Ret tt ∧
    visible (V1.load_signal (V1.iframe g) s').2 =
      [ Posted (V1.iframe g) V1.setParentDomain (V1.iframeUrl g);
        Posted (V1.iframe g)
          (V1.userDetails (V1.userId g) (V1.cl_balance cl)
             (if truthy loc then loc else V1.locale g)
             (if truthy cur then cur else V1.currency g))
          (V1.iframeUrl g) ] ++ invocation (V1.cl_onGameLoad cl) [].
Proof.
  intros Hw%v1_reachable_consistent Hg Hurl Hnull Hact s' loc cur.
  pose proof (V1.games_ok w Hw id g Hg) as Hreg.
  destruct (handleMessage_update id g ev (V1.page w) Hg Hurl Hnull Hact) as (_&Hs&_).
  fold s' in Hs. fold loc cur in Hs.
  assert (V1.games s' !! id = Some (V1.updated loc cur g)) as Hg'.
  { rewrite Hs. simpl. apply lookup_insert_eq. }
  assert (V1.registered s' id (V1.updated loc cur g)) as Hreg'.
  { eapply v1_registered_frames; [apply (handleMessage_frames id ev (V1.page w))|done|done]. }
  destruct (load_registered s' id (V1.updated loc cur g) (origin ev) Hreg' Hg' Hurl)
    as (cl&Hcl&_&_&Hrun).
  exists cl. simpl in Hcl, Hrun. rewrite Hrun. simpl.
  split_and!; [done..|]. apply visible_handshake.
Qed.

(** Game [a] of the sample page gets a new currency and then loads. *)
Lemma X10_v1_update_then_load_witness :
  ∃ cl,
    visible (V1.load_signal (H:=Sample.browser) 0
      (V1.handleMessage (H:=Sample.browser) "a"
         (Sample.msg "updateLocaleAndCurrency" [("currency", JStr "USD")] 0)
         (V1.page Sample.v1_one)).1.2).2 =
      [ Posted 0 (V1.setParentDomain (H:=Sample.browser)) "https://games.example/dice";
        Posted 0 (V1.userDetails (JStr "u1") (V1.cl_balance cl) (JStr "en-US") (JStr "USD"))
          "https://games.example/dice" ] ++ invocation (V1.cl_onGameLoad cl) [].
Proof.
  destruct (X10_v1_update_then_load (H:=Sample.browser) Sample.v1_one "a"
    (V1.Game 0 "https://games.example/dice" (JStr "u1") (JStr "en-US") (JStr "TZS")
             (Some Sample.fn_error_a) (Some Sample.fn_result_a))
    (Sample.msg "updateLocaleAndCurrency" [("currency", JStr "USD")] 0)
    v1_one_reachable ltac:(vm_compute; reflexivity) ltac:(vm_compute; reflexivity)
    ltac:(vm_compute; reflexivity) ltac:(vm_compute; reflexivity)) as (cl&_&_&Hv).
  exists cl. exact Hv.
Defined.

(** X11.  [postMessage] of the first variant never changes the state.  To
    an id that is not registered it does nothing at all.  In every state
    the SDK reaches, to a registered game it posts the data once, to the
    window of that game's iframe, with the game's URL as target origin,
    when that URL parses, and it throws with nothing posted when it does
    not. *)
Theorem X11_v1_postMessage `{Browser} (w : V1.world) (id : string) (d : jsval) :
  V1.reachable w →
  (V1.postMessage id d (V1.page w)).1.2 = V1.page w ∧
  (V1.games (V1.page w) !! id = None →
   V1.postMessage id d (V1.page w) = (Ret tt, V1.page w, [])) ∧
  (∀ g, V1.games (V1.page w) !! id = Some g →
     match url_origin (V1.iframeUrl g) with
     | Some _ =>
       (V1.postMessage id d (V1.page w)).1.1 = Ret tt ∧
       visible (V1.postMessage id d (V1.page w)).2 =
         [Posted (V1.iframe g) d (V1.iframeUrl g)]
     | None =>
       V1.postMessage id d (V1.page w) =
         (Throw (SyntaxError "Invalid target origin in a call to 'postMessage'"),
          V1.page w, [])
     end).
Proof.
  intros Hw%v1_reachable_consistent. split_and!.
  - symmetry. apply (postMessage_unchanged id d (V1.page w)).
  - apply postMessage_absent.
  - intros g Hg.
    destruct (V1.games_ok w Hw id g Hg) as (_&_&e&cl&He&_&Hwin&_).
    destruct (url_origin (V1.iframeUrl g)) as [o|] eqn:Hurl.
    + rewrite (postMessage_own id g d (V1.page w) e (V1.iframe g) o) by done.
      simpl. split; [done|]. unfold V1.sent_note. by destruct (V1.debug _).
    + unfold V1.postMessage, V1.lookup_game. unmonad. simpl.
      rewrite Hg. simpl. rewrite He. simpl. by rewrite Hwin, Hurl.
Qed.

(** A message for game [b] of the sample page. *)
Lemma X11_v1_postMessage_witness :
  visible (V1.postMessage (H:=Sample.browser) "b" (JStr "hello") (V1.page Sample.v1_two)).2
    = [Posted 1 (JStr "hello") "https://games.example/slots"].
Proof.
  exact (proj2 (proj2 (proj2 (X11_v1_postMessage (H:=Sample.browser) Sample.v1_two "b"
    (JStr "hello") v1_two_reachable))
    (V1.Game 1 "https://games.example/slots" (JStr "u1") (JStr "sw-TZ") (JStr "KES")
             (Some Sample.fn_error_b) (Some Sample.fn_result_b))
    ltac:(vm_compute; reflexivity))).
Defined.

(** X12.  In every state the first variant reaches, a registered game
    leaves the registry in one way only: by [removeGame] of its id.  No
    other host call and no load or message event unregisters it. *)
Theorem X12_v1_only_removeGame_unregisters `{Browser}
    (w : V1.world) (i : V1.input) (id : string) (g : V1.game) :
  V1.reachable w → V1.games (V1.page w) !! id = Some g →
  V1.games (V1.page (V1.after w i)) !! id = None → i = V1.CallRemoveGame id.
Proof. intros Hw%v1_reachable_consistent. by apply step_keeps_game. Qed.

(** Game [a] of the sample page is gone after [removeGame]. *)
Lemma X12_v1_only_removeGame_unregisters_witness :
  V1.CallRemoveGame "a" = V1.CallRemoveGame "a".
Proof.
  exact (X12_v1_only_removeGame_unregisters (H:=Sample.browser) Sample.v1_two
    (V1.CallRemoveGame "a") "a"
    (V1.Game 0 "https://games.example/dice" (JStr "u1") (JStr "en-US") (JStr "TZS")
             (Some Sample.fn_error_a) (Some Sample.fn_result_a))
    v1_two_reachable ltac:(vm_compute; reflexivity) ltac:(vm_compute; reflexivity)).
Defined.

(** X13.  [removeGame] does not cancel an [addGame] of the first variant
    that is waiting for its balance.  Called between the call of [addGame]
    and the settling of the balance, [removeGame] of that id finds no game:
    it writes its warning, throws nothing and changes nothing; and when the
    balance settles the game is registered and its iframe connected all the
    same. *)
Theorem X13_v1_removeGame_during_await `{Browser}
    (w : V1.world) (cfg : V1.config) (k : V1.pending) (b : settled) :
  (V1.addGame_begin (Some cfg) (V1.page w)).1.1 = Ret (Awaiting k) →
  let w1 := V1.after w (V1.CallAddGame (Some cfg)) in
  let w2 := V1.after w1 (V1.CallRemoveGame (V1.p_gameId k)) in
  let w3 := V1.after w2 (V1.Settle (length (V1.suspended w)) b) in
  let r := length (V1.iframes (V1.page w)) in
  w2 = w1 ∧
  (V1.step w1 (V1.CallRemoveGame (V1.p_gameId k))).2 = [] ∧
  visible (V1.step w1 (V1.CallRemoveGame (V1.p_gameId k))).1.2 = [] ∧
  V1.games (V1.page w3) !! V1.p_gameId k = Some (V1.new_game k r) ∧
  V1.iframes (V1.page w3) !! r =
    Some (Element (V1.p_iframeUrl k) (Some (V1.p_container k)) (Some r)
            (Some (V1.new_closure k (settled_balance b)))) ∧
  V1.suspended w3 = V1.suspended w.
Proof.
  intros Hk w1 w2 w3 r.
  destruct (addGame_begin_checked cfg (V1.page w) k Hk)
    as (id&url&f&Hid&Hne&Hr&Hc&Hu&Hp&Hf).
  pose proof (addGame_begin_accepts cfg (V1.page w) id url f Hid Hne Hr Hc Hu Hp Hf) as Hb.
  rewrite Hb in Hk. simpl in Hk. injection Hk as Hk.
  assert (w1 = V1.World (V1.page w) (V1.suspended w ++ [k])) as Hw1.
  { unfold w1, V1.after, V1.step. rewrite Hb. simpl. by rewrite Hk. }
  assert (V1.step w1 (V1.CallRemoveGame (V1.p_gameId k)) =
          (w1, [Console LWarn (tag +:+ "Game with ID " +:+ dq +:+ V1.p_gameId k +:+ dq
                                   +:+ " does not exist.") []], [])) as Hrm.
  { rewrite Hw1. unfold V1.step. simpl.
    rewrite removeGame_absent; [done|]. by rewrite <- Hk. }
  assert (w2 = w1) as Hw2 by (unfold w2, V1.after; by rewrite Hrm).
  assert (w3 = V1.World (V1.addGame_resume k b (V1.page w)).1.2 (V1.suspended w)) as Hw3.
  { unfold w3. rewrite Hw2, Hw1. unfold V1.after, V1.step. simpl.
    rewrite list_lookup_middle by done.
    destruct (V1.addGame_resume k b (V1.page w)) as [[o s] es]. simpl.
    by rewrite (delete_middle _ []), app_nil_r. }
  rewrite Hrm, Hw3, addGame_resume_eq. simpl.
  split_and!; try done.
  - apply lookup_insert_eq.
  - by apply list_lookup_middle.
Qed.

(** The first [addGame] on the sample page, with a [removeGame] before the
    balance settles. *)
Lemma X13_v1_removeGame_during_await_witness :
  let k := V1.Pending "a" "slot-a" "https://games.example/dice" Sample.cfg_a in
  let w1 := V1.after (H:=Sample.browser) Sample.v1_boot (V1.CallAddGame (Some Sample.cfg_a)) in
  let w2 := V1.after (H:=Sample.browser) w1 (V1.CallRemoveGame "a") in
  let w3 := V1.after (H:=Sample.browser) w2 (V1.Settle 0 (Resolved (JNum 500))) in
  V1.games (V1.page w3) !! "a" = Some (V1.new_game k 0).
Proof.
  intros k w1 w2 w3.
  exact (proj1 (proj2 (proj2 (proj2
    (X13_v1_removeGame_during_await (H:=Sample.browser) Sample.v1_boot Sample.cfg_a k
       (Resolved (JNum 500)) ltac:(vm_compute; reflexivity)))))).
Defined.

(** ** Second variant

    With the inspector on, [_renderInspector] writes the panel anew on
    every registration and on every message sent or received; that can
    throw, and it can throw an iframe out of the document.  The statements
    of this part are about an SDK created without the inspector. *)

Section V2More.
Context `{Browser}.
Import V2.

(** The guards of [addGame], one after the other. *)
Lemma addGame_begin_guards cfg s :
  inspector s = None →
  match filled (c_gameId cfg), filled (c_containerId cfg), filled (c_iframeUrl cfg) with
  | Some id, Some c, Some url =>
    if truthy (c_tenantName cfg) && truthy (c_callbackUrl cfg) then
      match read (own id (games s)) id with
      | Absent =>
        if bool_decide (c ∈ elements s) then
          match c_getUserBalance cfg with
          | JFun f =>
            addGame_begin (Some cfg) s =
              (Ret (Awaiting (Pending id c url cfg)), s, [Invoked f [c_userId cfg]])
          | _ =>
            addGame_begin (Some cfg) s =
              (Ret Registered, (addGame_finish (Pending id c url cfg) (JNum 0) s).1.2, [])
          end
        else
          addGame_begin (Some cfg) s =
            (Ret TargetNotFound, s,
             [Console LError (tag +:+ "Container " +:+ c +:+ " not found") []])
      | _ =>
        addGame_begin (Some cfg) s =
          (Ret DuplicateSession, s,
           [Console LError (tag +:+ "Game " +:+ id +:+ " already exists") []])
      end
    else
      addGame_begin (Some cfg) s =
        (Ret InvalidConfig, s,
         [Console LError (tag +:+ "Missing required game configuration") []])
  | _, _, _ =>
    addGame_begin (Some cfg) s =
      (Ret InvalidConfig, s,
       [Console LError (tag +:+ "Missing required game configuration") []])
  end.
Proof.
  intros Hi. unfold addGame_begin, lookup_game, _fail. simpl.
  destruct (filled (c_gameId cfg)) as [id|]; [|done].
  destruct (filled (c_containerId cfg)) as [c|]; [|done].
  destruct (filled (c_iframeUrl cfg)) as [u|]; [|done].
  destruct (truthy _ && truthy _); [|done].
  erewrite bind_run by apply runs_gets. simpl.
  destruct (read (own id (games s)) id); simpl; try done.
  erewrite bind_run by apply runs_gets. simpl.
  destruct (bool_decide (c ∈ elements s)); simpl; [|done].
  destruct (c_getUserBalance cfg); try done;
    unfold bind; by rewrite addGame_finish_eq.
Qed.

(** The handler once it has found the game of the sender, in full. *)
Lemma _handleMessage_found_eq ev s k g :
  let d0 := if truthy (data ev) then data ev else JObj [] in
  inspector s = None →
  truthy (get "action" d0) = true → converts (get "action" d0) = true →
  find_by_source (iframes s) (source ev) (games s) = Some (k, g) →
  (_handleMessage ev s).1.1 = Ret tt ∧
  (_handleMessage ev s).1.2 =
    (if is_str (get "action" d0) "gameLoaded" then set_games (mutate set_ready k) s
     else s).
Proof.
  intros d0 Hi Hact Hconv Hfind.
  assert (∀ m d, ∃ es, runs (_log m d) s tt s es) as Hlog.
  { intros m d. unfold runs, _log. unmonad. destruct (debug s); simpl; eauto. }
  destruct (Hlog (arrow (get "action" d0)) (get "data" d0)) as (es0&Hl0).
  assert (∃ es, runs (_handleMessage ev) s tt
    (if is_str (get "action" d0) "gameLoaded" then set_games (mutate set_ready k) s
     else s) es) as (es&Hr); [|by rewrite Hr].
  unfold _handleMessage. cbv zeta. fold d0. rewrite Hact. simpl.
  destruct (is_str (get "action" d0) "gameLoaded");
    [|destruct (is_str (get "action" d0) "gameResult");
      [|destruct (is_str (get "action" d0) "error")]];
    eexists;
    (eapply runs_bind; [apply runs_gets|]; cbv beta; rewrite Hfind; cbv beta iota;
     rewrite Hconv;
     eapply runs_bind; [apply Hl0|];
     eapply runs_bind; [by apply inspector_push_runs|]).
  - apply runs_modify.
  - apply runs_invoke.
  - eapply runs_bind; [apply runs_invoke|]. by apply inspector_push_runs.
  - apply runs_ret.
Qed.

Lemma is_str_truthy v a : a ≠ EmptyString → is_str v a = true → truthy v = true.
Proof.
  intros Ha. unfold is_str. destruct v; try done.
  intros ->%String.eqb_eq. simpl. apply negb_true_iff. by apply String.eqb_neq.
Qed.

End V2More.

Ltac v2_reject Hb :=
  rewrite Hb; simpl; split_and!;
  [ eexists; split; [done|]; by intros _
  | split; [by intros [? ?]|]
  | split; [done|] ].

(** X14.  Without the inspector, [addGame] of the second variant never
    throws before the [await].  It gets past its guards exactly when the
    tenant name, game id, container id, iframe URL and callback URL are all
    truthy, the id reads as nothing in [this.games] and the container is in
    the document; it then suspends when [getUserBalance] is a function and
    runs on to its end without suspending when it is not.  When it turns
    the configuration down it changes nothing, calls nothing and posts
    nothing. *)
Theorem X14_v2_addGame_admission (cfg : V2.config) (s : V2.sdk) :
  V2.inspector s = None →
  let admissible :=
    ∃ id c, V2.filled (V2.c_gameId cfg) = Some id ∧
            V2.filled (V2.c_containerId cfg) = Some c ∧
            is_Some (V2.filled (V2.c_iframeUrl cfg)) ∧
            truthy (V2.c_tenantName cfg) = true ∧ truthy (V2.c_callbackUrl cfg) = true ∧
            read (V2.own id (V2.games s)) id = Absent ∧ c ∈ V2.elements s in
  (∃ st, (V2.addGame_begin (Some cfg) s).1.1 = Ret st ∧
     ((st = InvalidConfig ∨ st = DuplicateSession ∨ st = TargetNotFound) →
      (V2.addGame_begin (Some cfg) s).1.2 = s ∧
      visible (V2.addGame_begin (Some cfg) s).2 = [])) ∧
  ((∃ k, (V2.addGame_begin (Some cfg) s).1.1 = Ret (Awaiting k)) ↔
   admissible ∧ is_function (V2.c_getUserBalance cfg) = true) ∧
  ((V2.addGame_begin (Some cfg) s).1.1 = Ret Registered ↔
   admissible ∧ is_function (V2.c_getUserBalance cfg) = false).
Proof.
  intros Hi admissible. unfold admissible.
  pose proof (addGame_begin_guards cfg s Hi) as Hb.
  destruct (V2.filled (V2.c_gameId cfg)) as [id|];
    [|v2_reject Hb;
      by intros [(?&?&?&_) _]].
  destruct (V2.filled (V2.c_containerId cfg)) as [c|];
    [|v2_reject Hb;
      by intros [(?&?&_&?&_) _]].
  destruct (V2.filled (V2.c_iframeUrl cfg)) as [u|];
    [|v2_reject Hb;
      by intros [(?&?&_&_&[? ?]&_) _]].
  destruct (truthy (V2.c_tenantName cfg)) eqn:Ht; simpl in Hb;
    [|v2_reject Hb;
      by intros [(?&?&_&_&_&?&_) _]].
  destruct (truthy (V2.c_callbackUrl cfg)) eqn:Hc; simpl in Hb;
    [|v2_reject Hb;
      by intros [(?&?&_&_&_&_&?&_) _]].
  destruct (read (V2.own id (V2.games s)) id) eqn:Hr;
    [v2_reject Hb;
      intros [(?&?&[= <-]&_&_&_&_&Hr'&_) _]; congruence..|].
  destruct (bool_decide (c ∈ V2.elements s)) eqn:He;
    [apply bool_decide_eq_true in He
    |apply bool_decide_eq_false in He; v2_reject Hb;
     by intros [(?&?&_&[= <-]&_&_&_&_&?) _]].
  assert (∃ id0 c0, Some id = Some id0 ∧ Some c = Some c0 ∧ is_Some (Some u) ∧
            true = true ∧ true = true ∧
            read (V2.own id0 (V2.games s)) id0 = Absent ∧ c0 ∈ V2.elements s) as Hadm
    by (exists id, c; eauto 10).
  destruct (V2.c_getUserBalance cfg) as [| |b|n|t|f|ps]; rewrite Hb; simpl;
    (split_and!;
     [ eexists; split; [done|]; by intros [?|[?|?]]
     | split; [try (by intros [? ?]); intros _; by split | try (by intros [_ ?]); eauto]
     | split; [try done; intros _; by split | try (by intros [_ ?]); eauto] ]).
Qed.

Section V2Messages.
Context `{Browser}.
Import V2.

(** A message whose sender is the window of the registered game [a]. *)
Lemma v2_message_from_game w a ga ev :
  let d0 := if truthy (data ev) then data ev else JObj [] in
  consistent w → inspector (page w) = None →
  own a (games (page w)) = Some ga →
  source ev = Some (iframe ga) → truthy (get "action" d0) = true →
  converts (get "action" d0) = true →
  (step w (Message ev)).2 = [] ∧
  visible (step w (Message ev)).1.2 =
    (if is_str (get "action" d0) "gameLoaded" then []
     else if is_str (get "action" d0) "gameResult" then
       invocation (onGameResult ga) [get "data" d0]
     else if is_str (get "action" d0) "error" then
       invocation (onError ga) [get "message" d0]
     else []) ∧
  page (after w (Message ev)) =
    (if is_str (get "action" d0) "gameLoaded" then
       set_games (mutate set_ready a) (page w)
     else page w) ∧
  suspended (after w (Message ev)) = suspended w.
Proof.
  intros d0 Hw Hi Ha Hsrc Hact Hconv.
  pose proof (find_by_source_registered w a ga Hw Ha) as Hf.
  rewrite <- Hsrc in Hf.
  pose proof Hw as [_ _ _ Hls _].
  destruct (_handleMessage_found ev (page w) a ga Hi Hact Hconv Hf) as [Ho Hv].
  destruct (_handleMessage_found_eq ev (page w) a ga Hi Hact Hconv Hf) as [_ Hs].
  fold d0 in Hv, Hs.
  unfold after, step, dispatch_message. rewrite Hls. simpl.
  destruct (_handleMessage ev (page w)) as [[o s1] es1]. simpl in *.
  subst o. simpl. split_and!; [done|by rewrite app_nil_r|done..].
Qed.

Lemma v2_log_emits P m d : (∀ l t a, P (Console l t a)) → emits P (_log m d).
Proof. intros HP. unfold _log. repeat first [apply emits_emit; apply HP | step_emits]. Qed.

Lemma inspector_push_emits P id e : emits P (inspector_push id e).
Proof. unfold inspector_push. repeat step_emits. Qed.

(** The message handler posts nothing. *)
Lemma _handleMessage_posts_nothing ev :
  emits (fun e => is_posted e = false) (_handleMessage ev).
Proof.
  unfold _handleMessage. cbv zeta.
  repeat first
    [ apply inspector_push_emits | apply v2_log_emits; by intros
    | apply emits_invoke; by intros | step_emits ].
Qed.

Lemma v2_run_listeners_posts_nothing ls ev s :
  Forall (fun e => is_posted e = false) (run_listeners ls ev s).1.2.
Proof.
  revert s. induction ls as [|l ls IH]; intros s; simpl; [constructor|].
  pose proof (_handleMessage_posts_nothing ev s) as Hh.
  destruct (_handleMessage _ _) as [[o s1] es1]. simpl in Hh.
  specialize (IH s1). destruct (run_listeners _ _ _) as [[s2 es2] xs]. simpl in *.
  by apply Forall_app.
Qed.
End V2Messages.

(** The first [addGame] on the sample page suspends at the [await]. *)
Lemma X14_v2_addGame_admission_witness :
  ∃ k, (V2.addGame_begin (Some Sample.cfg2_a) (V2.page Sample.v2_plain_boot)).1.1
         = Ret (Awaiting k).
Proof.
  apply (proj1 (proj2 (X14_v2_addGame_admission Sample.cfg2_a
                         (V2.page Sample.v2_plain_boot) eq_refl))).
  split; [|reflexivity].
  exists "a", "slot-a". split_and!; first [by eexists | vm_compute; reflexivity].
Defined.

Lemma v2_plain_two_reachable : V2.reachable (H:=Sample.browser) Sample.v2_plain_two.
Proof. unfold Sample.v2_plain_two, Sample.v2_plain_one. simpl. repeat constructor. Qed.

(** X15.  In every state the second variant reaches without the inspector,
    a registered game is stored under its own [gameId], which is no name
    inherited from [Object.prototype]; its iframe element exists, has a
    window of its own and carries the load handler made for the game.  The
    lookup by sending window that [_handleMessage] makes finds this game
    for this window, and no other registered game has the same iframe. *)
Theorem X15_v2_window_owner `{Browser} (w : V2.world) (a : string) (ga : V2.game) :
  V2.reachable w → V2.inspector (V2.page w) = None →
  V2.own a (V2.games (V2.page w)) = Some ga →
  inherited a = false ∧ V2.gameId ga = a ∧
  (∃ e cl, V2.iframes (V2.page w) !! V2.iframe ga = Some e ∧
           contentWindow e = Some (V2.iframe ga) ∧ onload e = Some cl ∧
           V2.cl_gameId cl = a ∧ V2.cl_userId cl = V2.userId ga ∧
           V2.cl_balance cl = V2.balance ga) ∧
  V2.find_by_source (V2.iframes (V2.page w)) (Some (V2.iframe ga)) (V2.games (V2.page w))
    = Some (a, ga) ∧
  (∀ b gb, V2.own b (V2.games (V2.page w)) = Some gb →
           V2.iframe gb = V2.iframe ga → b = a ∧ gb = ga).
Proof.
  intros Hr Hi Ha. pose proof (v2_reachable_consistent w Hr Hi) as Hw.
  pose proof (find_by_source_registered w a ga Hw Ha) as Hf.
  destruct (V2.games_ok w Hw a ga Ha) as (Hinh&Hid&e&cl&He&Hwin&Ho&Hcl&_&Hu&Hb&_).
  split_and!; [done..| |done|].
  - exists e, cl. split_and!; try done. by rewrite Hcl.
  - intros b gb Hb' Heq.
    pose proof (find_by_source_registered w b gb Hw Hb') as Hf'.
    rewrite Heq, Hf in Hf'. by injection Hf' as -> ->.
Qed.

(** Game [b] of the sample page owns the second iframe. *)
Lemma X15_v2_window_owner_witness :
  V2.find_by_source (V2.iframes (V2.page Sample.v2_plain_two)) (Some 1)
    (V2.games (V2.page Sample.v2_plain_two))
  = Some ("b", V2.Game 1 "https://games.example/slots" (JStr "tenant") "b" (JStr "u1")
                 (JStr "https://host.example/callback") (JStr "sw-TZ") (JStr "KES")
                 (JNum 500) (Some Sample.fn_error_b) (Some Sample.fn_result_b) false).
Proof.
  exact (proj1 (proj2 (proj2 (proj2 (X15_v2_window_owner (H:=Sample.browser)
    Sample.v2_plain_two "b" _ v2_plain_two_reachable
    ltac:(vm_compute; reflexivity) ltac:(vm_compute; reflexivity)))))).
Defined.

Section V2Switch.
Context `{Browser}.
Import V2.

Lemma action_payload k v :
  truthy (get k v) = true → (if truthy v then v else JObj []) = v.
Proof. by destruct v as [| |b|n|t|f|ps]. Qed.

Lemma world_eq w w' : page w' = page w → suspended w' = suspended w → w' = w.
Proof. destruct w, w'. simpl. by intros -> ->. Qed.

Global Instance ready_kept_preorder : PreOrder ready_kept.
Proof.
  split; [intros s id g; by eauto|].
  intros s1 s2 s3 H12 H23 id g Hg Hr.
  destruct (H12 id g Hg Hr) as (g2&Hg2&Hr2). by apply (H23 id g2).
Qed.

Lemma ready_kept_inspector f s : ready_kept s (set_inspector f s).
Proof. intros id g; eauto. Qed.

Lemma ready_kept_ready k s : ready_kept s (set_games (mutate set_ready k) s).
Proof.
  intros id g Hg Hr. simpl. rewrite own_mutate, Hg. simpl.
  case_decide; eexists; (split; [done|]); by simpl.
Qed.

Lemma ready_kept_iframes f s : ready_kept s (set_iframes f s).
Proof. intros id g; eauto. Qed.

Lemma _renderInspector_ready : keeps ready_kept _renderInspector.
Proof.
  unfold _renderInspector.
  repeat first [apply keeps_modify; intros ?; apply ready_kept_iframes | step_keeps].
Qed.

Lemma inspector_push_ready id e : keeps ready_kept (inspector_push id e).
Proof.
  unfold inspector_push.
  repeat first
    [ apply _renderInspector_ready
    | apply keeps_modify; intros ?; apply ready_kept_inspector | step_keeps ].
Qed.

Lemma _log_ready m d : keeps ready_kept (_log m d).
Proof. unfold _log. repeat step_keeps. Qed.

Lemma load_signal_ready r : keeps ready_kept (load_signal r).
Proof.
  unfold load_signal, run_onload, _send, lookup_game.
  repeat first [apply inspector_push_ready | apply _log_ready | step_keeps].
Qed.

(** A [ready] flag that is set stays set when a message is handled. *)
Lemma _handleMessage_ready ev : keeps ready_kept (_handleMessage ev).
Proof.
  unfold _handleMessage. cbv zeta.
  repeat first
    [ apply inspector_push_ready | apply _log_ready
    | apply keeps_modify; intros ?; apply ready_kept_ready | step_keeps ].
Qed.

Lemma run_listeners_ready ls ev s : ready_kept s (run_listeners ls ev s).1.1.
Proof.
  revert s. induction ls as [|l ls IH]; intros s; simpl; [reflexivity|].
  pose proof (_handleMessage_ready ev s) as Hh.
  destruct (_handleMessage _ _) as [[o s1] es1]. simpl in Hh.
  specialize (IH s1). destruct (run_listeners _ _ _) as [[s2 es2] xs]. simpl in *.
  by etrans.
Qed.

(** A message that names no action is dropped before anything happens. *)
Lemma _handleMessage_no_action ev s :
  truthy (get "action" (data ev)) = false → _handleMessage ev s = (Ret tt, s, []).
Proof.
  intros Ha. unfold _handleMessage. cbv zeta.
  assert (truthy (get "action" (if truthy (data ev) then data ev else JObj [])) = false)
    as -> by (by destruct (truthy (data ev))).
  done.
Qed.
End V2Switch.

(** X16.  What the second variant does with a message whose action is a
    string that is not empty and whose sender is the window of a registered
    game, in every state it reaches without the inspector.  Nothing is
    thrown and nothing is posted.  [gameResult] calls the [onGameResult] of
    that game with the payload's [data], [error] calls its [onError] with
    the payload's [message], each once when the configuration gave the
    callback, and no callback of another game runs; every other action
    calls nothing.  Unless the action is [gameLoaded] the state is left as
    it was. *)
Theorem X16_v2_message_from_game `{Browser}
    (w : V2.world) (a : string) (ga : V2.game) (ev : message_event) (act : string) :
  V2.reachable w → V2.inspector (V2.page w) = None →
  V2.own a (V2.games (V2.page w)) = Some ga →
  source ev = Some (V2.iframe ga) →
  get "action" (data ev) = JStr act → act ≠ EmptyString →
  (V2.step w (V2.Message ev)).2 = [] ∧
  visible (V2.step w (V2.Message ev)).1.2 =
    (if String.eqb act "gameLoaded" then []
     else if String.eqb act "gameResult" then
       invocation (V2.onGameResult ga) [get "data" (data ev)]
     else if String.eqb act "error" then
       invocation (V2.onError ga) [get "message" (data ev)]
     else []) ∧
  (act ≠ "gameLoaded" → V2.after w (V2.Message ev) = w).
Proof.
  intros Hr Hi Ha Hsrc Hact Hne. pose proof (v2_reachable_consistent w Hr Hi) as Hw.
  assert (truthy (get "action" (data ev)) = true) as Ht.
  { rewrite Hact. simpl. apply negb_true_iff. by apply String.eqb_neq. }
  pose proof (action_payload _ _ Ht) as Hd.
  destruct (v2_message_from_game w a ga ev Hw Hi Ha Hsrc) as (Hx&Hv&Hp&Hs).
  { by rewrite Hd. }
  { by rewrite Hd, Hact. }
  rewrite Hd in Hv, Hp. rewrite Hact in Hv, Hp. simpl in Hv, Hp.
  split_and!; [done..|].
  intros Hl. apply world_eq; [|done]. rewrite Hp.
  apply String.eqb_neq in Hl. by rewrite Hl.
Qed.

(** A result from game [b] of the sample page reaches [b]'s callback. *)
Lemma X16_v2_message_from_game_witness :
  visible (V2.step (H:=Sample.browser) Sample.v2_plain_two
             (V2.Message (Sample.msg "gameResult" [("data", JNum 7)] 1))).1.2
    = [Invoked Sample.fn_result_b [JNum 7]].
Proof.
  exact (proj1 (proj2 (X16_v2_message_from_game (H:=Sample.browser) Sample.v2_plain_two "b"
    (V2.Game 1 "https://games.example/slots" (JStr "tenant") "b" (JStr "u1")
             (JStr "https://host.example/callback") (JStr "sw-TZ") (JStr "KES")
             (JNum 500) (Some Sample.fn_error_b) (Some Sample.fn_result_b) false)
    (Sample.msg "gameResult" [("data", JNum 7)] 1) "gameResult"
    v2_plain_two_reachable
    ltac:(vm_compute; reflexivity) ltac:(vm_compute; reflexivity)
    ltac:(vm_compute; reflexivity) ltac:(vm_compute; reflexivity)
    ltac:(discriminate)))).
Defined.

(** X17.  [gameLoaded] from the window of a registered game sets the
    [ready] flag of that game and does nothing else: in every state the
    second variant reaches without the inspector, no callback is called,
    nothing is posted or thrown, the sender's game is as before but ready,
    and every other game, the iframes and the listener are untouched. *)
Theorem X17_v2_gameLoaded_sets_ready `{Browser}
    (w : V2.world) (a : string) (ga : V2.game) (ev : message_event) :
  V2.reachable w → V2.inspector (V2.page w) = None →
  V2.own a (V2.games (V2.page w)) = Some ga →
  source ev = Some (V2.iframe ga) →
  is_str (get "action" (data ev)) "gameLoaded" = true →
  let s' := V2.page (V2.after w (V2.Message ev)) in
  (V2.step w (V2.Message ev)).2 = [] ∧
  visible (V2.step w (V2.Message ev)).1.2 = [] ∧
  V2.own a (V2.games s') = Some (V2.set_ready ga) ∧
  (∀ b, b ≠ a → V2.own b (V2.games s') = V2.own b (V2.games (V2.page w))) ∧
  (V2.games s').*1 = (V2.games (V2.page w)).*1 ∧
  V2.iframes s' = V2.iframes (V2.page w) ∧
  V2.listeners s' = V2.listeners (V2.page w) ∧
  V2.elements s' = V2.elements (V2.page w) ∧
  V2.inspector s' = None ∧
  V2.suspended (V2.after w (V2.Message ev)) = V2.suspended w.
Proof.
  intros Hr Hi Ha Hsrc Hact s'. pose proof (v2_reachable_consistent w Hr Hi) as Hw.
  assert (truthy (get "action" (data ev)) = true) as Ht
    by (by eapply is_str_truthy; [|exact Hact]).
  pose proof (action_payload _ _ Ht) as Hd.
  destruct (v2_message_from_game w a ga ev Hw Hi Ha Hsrc) as (Hx&Hv&Hp&Hs).
  { by rewrite Hd. }
  { rewrite Hd. by eapply converts_str. }
  rewrite Hd, Hact in Hv, Hp.
  fold s' in Hp. rewrite Hp. simpl.
  split_and!; try done.
  - rewrite own_mutate, Ha. simpl. by rewrite decide_True.
  - intros b Hb. rewrite own_mutate. rewrite decide_False by done.
    by destruct (V2.own b _).
  - apply mutate_keys.
Qed.

(** Game [a] of the sample page reports that it has loaded. *)
Lemma X17_v2_gameLoaded_sets_ready_witness :
  V2.ready <$>
    V2.own "a" (V2.games (V2.page (V2.after (H:=Sample.browser) Sample.v2_plain_two
                                     (V2.Message (Sample.msg "gameLoaded" [] 0)))))
  = Some true.
Proof.
  refine (eq_trans (f_equal (fmap (M:=option) V2.ready) (proj1 (proj2 (proj2
    (X17_v2_gameLoaded_sets_ready (H:=Sample.browser) Sample.v2_plain_two "a"
      (V2.Game 0 "https://games.example/dice" (JStr "tenant") "a" (JStr "u1")
               (JStr "https://host.example/callback") (JStr "en-US") (JStr "TZS")
               (JNum 500) (Some Sample.fn_error_a) (Some Sample.fn_result_a) false)
      (Sample.msg "gameLoaded" [] 0)
      v2_plain_two_reachable
      ltac:(vm_compute; reflexivity) ltac:(vm_compute; reflexivity)
      ltac:(vm_compute; reflexivity) ltac:(vm_compute; reflexivity)))))) _).
  reflexivity.
Defined.

(** X18.  A message event never makes the second variant post a message,
    whatever its payload and sender.  Without the inspector it leaves the
    iframes, the listener, the debug flag and the ids of the registered
    games as they were, changes no field of any game other than [ready],
    and a game that was ready is ready afterwards. *)
Theorem X18_v2_messages_only_set_ready (ev : message_event) (s : V2.sdk) :
  V2.inspector s = None →
  let s' := (V2.dispatch_message ev s).1.1 in
  posts (V2.dispatch_message ev s).1.2 = [] ∧
  V2.iframes s' = V2.iframes s ∧ V2.listeners s' = V2.listeners s ∧
  V2.elements s' = V2.elements s ∧ V2.debug s' = V2.debug s ∧
  (V2.games s').*1 = (V2.games s).*1 ∧
  (∀ id, V2.identity <$> V2.own id (V2.games s') = V2.identity <$> V2.own id (V2.games s)) ∧
  (∀ id g, V2.own id (V2.games s) = Some g → V2.ready g = true →
           ∃ g', V2.own id (V2.games s') = Some g' ∧ V2.ready g' = true).
Proof.
  intros Hn s'. unfold s', V2.dispatch_message.
  destruct (v2_run_listeners_frames (V2.listeners s) ev s Hn) as [(Hd&He&Hi&Hl&Hk&Hid) Hn'].
  split_and!; try done.
  - apply posts_nil, v2_run_listeners_posts_nothing.
  - apply run_listeners_ready.
Qed.

(** A [gameLoaded] on the sample page posts nothing. *)
Lemma X18_v2_messages_only_set_ready_witness :
  posts (V2.dispatch_message (Sample.msg "gameLoaded" [] 0)
           (V2.page Sample.v2_plain_two)).1.2 = [].
Proof.
  exact (proj1 (X18_v2_messages_only_set_ready (Sample.msg "gameLoaded" [] 0)
                  (V2.page Sample.v2_plain_two) ltac:(vm_compute; reflexivity))).
Defined.

(** X19.  In every state the second variant reaches without the inspector,
    no call of [addGame], no settling of a balance, no load event and no
    message event ends in an exception, as long as the action of the
    message is not an object (the template string of the debug line turns
    the action into text before anything else is done with it).  A message
    whose payload is [null], [undefined] or any other value without a
    truthy [action] is dropped: the state is as before and nothing at all
    is emitted, not even a console line. *)
Theorem X19_v2_total_handlers `{Browser} (w : V2.world) (i : V2.input) :
  V2.reachable w → V2.inspector (V2.page w) = None →
  (∀ ev ps, i = V2.Message ev → get "action" (data ev) ≠ JObj ps) →
  (V2.step w i).2 = [] ∧
  (∀ ev, i = V2.Message ev → truthy (get "action" (data ev)) = false →
         V2.step w i = (w, [], [])).
Proof.
  intros Hw Hi Hobj. split.
  { apply v2_no_uncaught_exception; [done..|]. intros ev ->.
    specialize (Hobj ev). by destruct (get "action" (data ev)) as [| | | | | |ps];
      [..|destruct (Hobj ps)]. }
  intros ev -> Ha. apply v2_reachable_consistent in Hw as [_ _ _ Hl _]; [|done].
  unfold V2.step, V2.dispatch_message. rewrite Hl. simpl.
  rewrite _handleMessage_no_action by done. simpl. by destruct w.
Qed.

(** A [null] payload on the sample page. *)
Lemma X19_v2_total_handlers_witness :
  V2.step (H:=Sample.browser) Sample.v2_plain_one
    (V2.Message (MessageEvent JNull Sample.games_origin (Some 0)))
  = (Sample.v2_plain_one, [], []).
Proof.
  refine (proj2 (X19_v2_total_handlers (H:=Sample.browser) Sample.v2_plain_one
            (V2.Message (MessageEvent JNull Sample.games_origin (Some 0)))
            v2_plain_one_reachable ltac:(vm_compute; reflexivity) _) _ eq_refl eq_refl).
  intros ev ps [= <-]. discriminate.
Defined.

Section V2Stay.
Context `{Browser}.
Import V2.

Lemma frames_ready_own s s' id g :
  frames_kept s s' → ready_kept s s' → own id (games s) = Some g →
  ∃ g', own id (games s') = Some g' ∧ identity g' = identity g ∧
        (ready g = true → ready g' = true).
Proof.
  intros (_&_&_&_&_&Hid) Hr Hg. specialize (Hid id). rewrite Hg in Hid.
  destruct (own id (games s')) as [g'|] eqn:Hg'; [|done].
  exists g'. split_and!; [done|simpl in Hid; congruence|].
  intros Hrg. destruct (Hr id g Hg Hrg) as (g''&Hg''&?). congruence.
Qed.
End V2Stay.

(** X20.  The second variant never unregisters a game.  In every state it
    reaches without the inspector, an id that is registered is registered
    after any event; and unless the event is the settling of a balance,
    which lets a suspended [addGame] for the same id run on and replace the
    entry, the game keeps every field but [ready], and [ready] stays set
    once it is. *)
Theorem X20_v2_games_stay `{Browser}
    (w : V2.world) (i : V2.input) (id : string) (g : V2.game) :
  V2.reachable w → V2.inspector (V2.page w) = None →
  V2.own id (V2.games (V2.page w)) = Some g →
  ∃ g', V2.own id (V2.games (V2.page (V2.after w i))) = Some g' ∧
        ((∀ k b, i ≠ V2.Settle k b) →
         V2.identity g' = V2.identity g ∧ (V2.ready g = true → V2.ready g' = true)).
Proof.
  intros Hw Hi Hg. unfold V2.after, V2.step. destruct i as [arg|k b|r|ev].
  - destruct (addGame_begin_plain arg (V2.page w) Hi)
      as [(st&es&->&_&Hst)|[(k&f&Ha&Hf&->)|(k&Ha&Hf&->)]].
    + exists g. by destruct Hst as [->|[->| ->]].
    + by exists g.
    + rewrite addGame_finish_eq by done. simpl.
      destruct Ha as (_&_&_&Hfree&_).
      rewrite own_assign_ne by congruence. by exists g.
  - destruct (V2.suspended w !! k) as [p|]; [|by exists g; split; [|intros Hn; destruct (Hn k b)]].
    unfold V2.addGame_resume. rewrite addGame_finish_eq by done. simpl.
    rewrite own_assign. case_decide.
    + eexists. split; [done|]. intros Hn. by destruct (Hn k b).
    + exists g. split; [done|]. intros Hn. by destruct (Hn k b).
  - destruct (load_signal_frames r (V2.page w) Hi) as [Hf _].
    pose proof (load_signal_ready r (V2.page w)) as Hr.
    destruct (V2.load_signal _ _) as [[o s] es]. simpl in *.
    destruct (frames_ready_own _ _ id g Hf Hr Hg) as (g'&?&?&?). by exists g'.
  - destruct (v2_run_listeners_frames (V2.listeners (V2.page w)) ev (V2.page w) Hi)
      as [Hf _].
    pose proof (run_listeners_ready (V2.listeners (V2.page w)) ev (V2.page w)) as Hr.
    unfold V2.dispatch_message.
    destruct (V2.run_listeners _ _ _) as [[s es] xs]. simpl in *.
    destruct (frames_ready_own _ _ id g Hf Hr Hg) as (g'&?&?&?). by exists g'.
Qed.

(** Game [a] of the sample page after the load event of its iframe. *)
Lemma X20_v2_games_stay_witness :
  ∃ g', V2.own "a" (V2.games (V2.page (V2.after (H:=Sample.browser) Sample.v2_plain_two
                                         (V2.Load 0)))) = Some g' ∧
        ((∀ k b, V2.Load 0 ≠ V2.Settle k b) →
         V2.identity g' =
           V2.identity
             (V2.Game 0 "https://games.example/dice" (JStr "tenant") "a" (JStr "u1")
                (JStr "https://host.example/callback") (JStr "en-US") (JStr "TZS")
                (JNum 500) (Some Sample.fn_error_a) (Some Sample.fn_result_a) false) ∧
         (false = true → V2.ready g' = true)).
Proof.
  exact (X20_v2_games_stay (H:=Sample.browser) Sample.v2_plain_two (V2.Load 0) "a"
           (V2.Game 0 "https://games.example/dice" (JStr "tenant") "a" (JStr "u1")
              (JStr "https://host.example/callback") (JStr "en-US") (JStr "TZS")
              (JNum 500) (Some Sample.fn_error_a) (Some Sample.fn_result_a) false)
           v2_plain_two_reachable
           ltac:(vm_compute; reflexivity) ltac:(vm_compute; reflexivity)).
Defined.

Section V2Orphan.
Context `{Browser}.
Import V2.

(** Two suspended calls for one id that both run to their end. *)
Lemma v2_two_settlements w k1 k2 bal1 bal2 :
  consistent w → inspector (page w) = None →
  inherited (p_gameId k1) = false → p_gameId k1 = p_gameId k2 →
  consistent
    (World (addGame_finish k2 bal2 (addGame_finish k1 bal1 (page w)).1.2).1.2
           (suspended w)).
Proof.
  intros Hw Hi Hinh Hid.
  pose proof (v2_consistent_finish w k1 bal1 (suspended w) Hw Hi Hinh
                (fun k' Hk' => or_introl Hk')) as H1.
  apply (v2_consistent_finish (World _ (suspended w)) k2 bal2 (suspended w) H1).
  - simpl. by rewrite addGame_finish_eq.
  - congruence.
  - intros k' Hk'. by left.
Qed.
End V2Orphan.

(** X21.  In the second variant too the check for a taken id and the
    registration are apart.  From a state reached without the inspector,
    when two calls of [addGame] with the same id both get past the check
    before either balance settles and both run to their end, the id holds
    the game of the call that settled last, with the later iframe.  The
    iframe of the other call stays connected but belongs to no game: a
    message from its window is dropped with no effect, and its load event
    sends the handshake, with the user and balance of its own call, to the
    window of the other iframe. *)
Theorem X21_v2_concurrent_addGame_orphans `{Browser}
    (w : V2.world) (cfg1 cfg2 : V2.config) (k1 k2 : V2.pending) (b1 b2 : settled) :
  V2.reachable w → V2.inspector (V2.page w) = None →
  (V2.addGame_begin (Some cfg1) (V2.page w)).1.1 = Ret (Awaiting k1) →
  (V2.addGame_begin (Some cfg2) (V2.page w)).1.1 = Ret (Awaiting k2) →
  V2.p_gameId k1 = V2.p_gameId k2 →
  let r := length (V2.iframes (V2.page w)) in
  let s1 := (V2.addGame_resume k1 b1 (V2.page w)).1.2 in
  let s2 := (V2.addGame_resume k2 b2 s1).1.2 in
  let g2 := V2.new_game k2 (S r) (settled_balance b2) in
  let cl1 := V2.new_closure k1 (settled_balance b1) in
  V2.own (V2.p_gameId k1) (V2.games s2) = Some g2 ∧
  V2.iframes s2 !! r =
    Some (Element (V2.p_iframeUrl k1) (Some (V2.p_container k1)) (Some r) (Some cl1)) ∧
  (∀ ev, source ev = Some r → V2.dispatch_message ev s2 = (s2, [], [])) ∧
  (V2.load_signal r s2).1.1 = Ret tt ∧
  visible (V2.load_signal r s2).2 =
    [ Posted (S r) (V2.envelope "setParentDomain" (JStr location_origin)) "*";
      Posted (S r)
        (V2.envelope "userDetails" (V2.userDetails cl1 (V2.locale g2) (V2.currency g2)))
        "*" ] ++ invocation (V2.cl_onGameLoad cl1) [].
Proof.
  intros Hr0 Hi Hb1 _ Hid r s1 s2 g2 cl1.
  pose proof (v2_reachable_consistent w Hr0 Hi) as Hw.
  assert (inherited (V2.p_gameId k1) = false) as Hinh.
  { destruct (addGame_begin_cases (Some cfg1) (V2.page w))
      as [(st&es&Hb&_&Hst)|[(k&f&Ha&Hf&Hb)|(k&Ha&Hf&Hb)]]; rewrite Hb in Hb1;
      simpl in Hb1.
    - by destruct Hst as [->|[->| ->]].
    - injection Hb1 as <-. by destruct Ha as (_&_&?&_).
    - unfold bind in Hb1. by rewrite addGame_finish_eq in Hb1. }
  pose proof (v2_two_settlements w k1 k2 (settled_balance b1) (settled_balance b2)
                Hw Hi Hinh Hid) as Hc.
  fold (V2.addGame_resume k1 b1) in Hc. fold (V2.addGame_resume k2 b2) in Hc.
  fold s1 in Hc. fold s2 in Hc.
  assert (V2.games s2 =
          V2.assign (V2.p_gameId k2) g2
            (V2.assign (V2.p_gameId k1)
               (V2.new_game k1 r (settled_balance b1)) (V2.games (V2.page w))) ∧
          V2.iframes s2 =
            (V2.iframes (V2.page w) ++
             [Element (V2.p_iframeUrl k1) (Some (V2.p_container k1)) (Some r) (Some cl1)]) ++
             [Element (V2.p_iframeUrl k2) (Some (V2.p_container k2)) (Some (S r))
                (Some (V2.new_closure k2 (settled_balance b2)))] ∧
          V2.inspector s2 = None ∧ V2.debug s2 = V2.debug (V2.page w)) as (Hg&Hf&Hi2&Hd).
  { unfold s2, s1, V2.addGame_resume.
    rewrite (addGame_finish_eq k1 _ (V2.page w)) by done. cbn [fst snd].
    rewrite addGame_finish_eq by done. simpl. rewrite length_app. simpl.
    replace (length (V2.iframes (V2.page w)) + 1) with (S r) by (unfold r; lia).
    done. }
  clearbody s2. clear s1.
  assert (V2.own (V2.p_gameId k1) (V2.games s2) = Some g2) as Hown.
  { rewrite Hg, Hid. apply own_assign_eq. }
  assert (V2.iframes s2 !! r =
    Some (Element (V2.p_iframeUrl k1) (Some (V2.p_container k1)) (Some r) (Some cl1)))
    as Hr.
  { rewrite Hf. rewrite lookup_app_l by (rewrite length_app; simpl; unfold r; lia).
    by apply list_lookup_middle. }
  pose proof (V2.games_ok _ Hc _ _ Hown) as Hreg2. simpl in Hreg2.
  split_and!; [done|done| | |].
  - intros ev Hsrc. apply v2_run_listeners_unresolved. rewrite Hsrc.
    apply find_by_source_None. intros k g Hin Hwin.
    apply (elem_own _ _ _ (V2.keys_ok _ Hc)) in Hin. simpl in Hin.
    destruct (V2.games_ok _ Hc _ _ Hin) as (_&Hgid&e&cl&He&Hcw&Ho&Hm&_).
    simpl in He. rewrite He in Hwin. simpl in Hwin. rewrite Hcw in Hwin.
    injection Hwin as Hwin. rewrite Hwin, Hr in He. injection He as <-.
    simpl in Ho. injection Ho as <-. simpl in Hm.
    assert (k = V2.p_gameId k1) as -> by congruence.
    rewrite Hown in Hin. injection Hin as <-. simpl in Hwin. lia.
  - unfold V2.load_signal. erewrite bind_run by apply runs_gets.
    rewrite Hr. simpl.
    by rewrite (run_onload_registered s2 (V2.p_gameId k1) g2 cl1).
  - unfold V2.load_signal. erewrite bind_run by apply runs_gets.
    rewrite Hr. simpl.
    rewrite (run_onload_registered s2 (V2.p_gameId k1) g2 cl1) by done. simpl.
    rewrite !visible_app. simpl. rewrite !visible_app, !v2_visible_sent_note.
    by destruct (V2.c_onGameLoad (V2.p_cfg k1)).
Qed.

(** Two calls for the id [a] on the sample page before any game is there:
    a message from the window of the first iframe is dropped. *)
Lemma X21_v2_concurrent_addGame_orphans_witness :
  let k := V2.Pending "a" "slot-a" "https://games.example/dice" Sample.cfg2_a in
  let s := V2.page Sample.v2_plain_boot in
  let s2 := (V2.addGame_resume k (Resolved (JNum 2))
               (V2.addGame_resume k (Resolved (JNum 1)) s).1.2).1.2 in
  V2.dispatch_message (Sample.msg "gameResult" [] 0) s2 = (s2, [], []).
Proof.
  intros k s s2.
  exact (proj1 (proj2 (proj2
    (X21_v2_concurrent_addGame_orphans (H:=Sample.browser) Sample.v2_plain_boot
       Sample.cfg2_a Sample.cfg2_a k k (Resolved (JNum 1)) (Resolved (JNum 2))
       (V2.reach_boot false false Sample.page_elements)
       eq_refl ltac:(vm_compute; reflexivity) ltac:(vm_compute; reflexivity) eq_refl)))
    (Sample.msg "gameResult" [] 0) eq_refl).
Defined.

(** ** The debug flag, in both variants *)

Lemma unlogged_app (es1 es2 : list effect) :
  unlogged (es1 ++ es2) = unlogged es1 ++ unlogged es2.
Proof. apply List.filter_app. Qed.

Section Commutes.
Context {S : Type} (f : S → S).

Lemma commutes_ret {A} (a : A) : commutes f (ret a).
Proof. done. Qed.
Lemma commutes_throw {A} e : commutes f (throw (A:=A) e).
Proof. done. Qed.
Lemma commutes_emit e : commutes f (emit e).
Proof. done. Qed.
Lemma commutes_invoke h args : commutes f (invoke h args).
Proof. by destruct h. Qed.
Lemma commutes_gets {A} (g : S → A) : (∀ s, g (f s) = g s) → commutes f (gets g).
Proof. intros Hg s. simpl. by rewrite Hg. Qed.
Lemma commutes_modify g : (∀ s, g (f s) = f (g s)) → commutes f (modify g).
Proof. intros Hg s. simpl. by rewrite Hg. Qed.
Lemma commutes_when b m : commutes f m → commutes f (when b m).
Proof. by destruct b. Qed.
Lemma commutes_bind {A B} (m : M A) (k : A → M B) :
  commutes f m → (∀ a, commutes f (k a)) → commutes f (bind m k).
Proof.
  intros Hm Hk s. unfold bind. destruct (Hm s) as (Ho&Hs&He).
  destruct (m (f s)) as [[o' s1'] es1'], (m s) as [[o s1] es1]. simpl in *.
  subst o' s1'. destruct o as [a|e]; simpl; [|done].
  destruct (Hk a s1) as (Ho2&Hs2&He2).
  destruct (k a (f s1)) as [[o2' s2'] es2'], (k a s1) as [[o2 s2] es2]. simpl in *.
  by rewrite !unlogged_app, He, He2.
Qed.
End Commutes.

(** Break a handler body down along its structure, for what it does from
    two states. *)
Ltac step_commutes :=
  first
    [ apply commutes_ret | apply commutes_throw | apply commutes_emit
    | apply commutes_invoke
    | apply commutes_gets; done
    | apply commutes_modify; done
    | apply commutes_when
    | apply commutes_bind; [|intros ?]
    | match goal with
      | |- commutes _ (match ?x with _ => _ end) => destruct x
      end ].

Section V1Debug.
Context `{Browser}.
Import V1.

Lemma log_commutes b m d : commutes (set_debug b) (log m d).
Proof. intros s. unfold log. unmonad. simpl. by destruct b, (debug s). Qed.

Lemma addGame_begin_commutes b arg : commutes (set_debug b) (addGame_begin arg).
Proof. unfold addGame_begin, lookup_game. repeat step_commutes. Qed.

Lemma addGame_resume_commutes b k bal : commutes (set_debug b) (addGame_resume k bal).
Proof. unfold addGame_resume, bind_handler. repeat step_commutes. Qed.

Lemma removeGame_commutes b id : commutes (set_debug b) (removeGame id).
Proof. unfold removeGame, lookup_game, bind_handler. repeat step_commutes. Qed.

Lemma postMessage_commutes b id d : commutes (set_debug b) (postMessage id d).
Proof.
  unfold postMessage, lookup_game. repeat first [apply log_commutes | step_commutes].
Qed.

Lemma load_signal_commutes b r : commutes (set_debug b) (load_signal r).
Proof.
  unfold load_signal, run_onload, lookup_game.
  repeat first [apply postMessage_commutes | step_commutes].
Qed.

Lemma handleMessage_commutes b id ev : commutes (set_debug b) (handleMessage id ev).
Proof.
  unfold handleMessage, lookup_game. cbv zeta.
  repeat first [apply log_commutes | step_commutes].
Qed.

Lemma run_listeners_commutes b ls ev s :
  (run_listeners ls ev (set_debug b s)).1.1 = set_debug b (run_listeners ls ev s).1.1 ∧
  unlogged (run_listeners ls ev (set_debug b s)).1.2
    = unlogged (run_listeners ls ev s).1.2 ∧
  (run_listeners ls ev (set_debug b s)).2 = (run_listeners ls ev s).2.
Proof.
  revert s. induction ls as [|l ls IH]; intros s; simpl; [done|].
  destruct (handleMessage_commutes b l.2 ev s) as (Ho&Hs&He).
  destruct (handleMessage l.2 ev (set_debug b s)) as [[o' s1'] es1'].
  destruct (handleMessage l.2 ev s) as [[o s1] es1]. simpl in *. subst o' s1'.
  destruct (IH s1) as (Hs2&He2&Hx2).
  destruct (run_listeners ls ev (set_debug b s1)) as [[s2' es2'] xs'].
  destruct (run_listeners ls ev s1) as [[s2 es2] xs]. simpl in *.
  by rewrite !unlogged_app, He, He2, Hs2, Hx2.
Qed.
End V1Debug.

(** X22.  The debug flag of the first variant only adds lines of
    [console.log].  Whatever the state and the event, with the flag set
    either way the SDK ends in the same state, flag aside, throws the same
    exceptions, and posts the same messages, calls the same host functions
    and writes the same warnings and errors, in the same order. *)
Theorem X22_v1_debug_is_passive `{Browser} (b : bool) (w : V1.world) (i : V1.input) :
  V1.after (V1.debugging b w) i = V1.debugging b (V1.after w i) ∧
  unlogged (V1.step (V1.debugging b w) i).1.2 = unlogged (V1.step w i).1.2 ∧
  (V1.step (V1.debugging b w) i).2 = (V1.step w i).2.
Proof.
  unfold V1.after, V1.step, V1.debugging. destruct i as [arg|n bal|id|r|ev]; simpl.
  - destruct (addGame_begin_commutes b arg (V1.page w)) as (Ho&Hs&He).
    destruct (V1.addGame_begin arg (V1.set_debug b (V1.page w))) as [[o' s'] es'].
    destruct (V1.addGame_begin arg (V1.page w)) as [[o s] es]. simpl in *. subst o' s'.
    by destruct o as [[| | |k|]|e].
  - destruct (V1.suspended w !! n) as [k|]; [|done].
    destruct (addGame_resume_commutes b k bal (V1.page w)) as (Ho&Hs&He).
    destruct (V1.addGame_resume k bal (V1.set_debug b (V1.page w))) as [[o' s'] es'].
    destruct (V1.addGame_resume k bal (V1.page w)) as [[o s] es]. simpl in *.
    by subst o' s'.
  - destruct (removeGame_commutes b id (V1.page w)) as (Ho&Hs&He).
    destruct (V1.removeGame id (V1.set_debug b (V1.page w))) as [[o' s'] es'].
    destruct (V1.removeGame id (V1.page w)) as [[o s] es]. simpl in *.
    by subst o' s'.
  - destruct (load_signal_commutes b r (V1.page w)) as (Ho&Hs&He).
    destruct (V1.load_signal r (V1.set_debug b (V1.page w))) as [[o' s'] es'].
    destruct (V1.load_signal r (V1.page w)) as [[o s] es]. simpl in *.
    by subst o' s'.
  - unfold V1.dispatch_message. simpl.
    destruct (run_listeners_commutes b (V1.listeners (V1.page w)) ev (V1.page w))
      as (Hs&He&Hx).
    destruct (V1.run_listeners _ ev (V1.set_debug b (V1.page w))) as [[s' es'] xs'].
    destruct (V1.run_listeners _ ev (V1.page w)) as [[s es] xs]. simpl in *.
    by subst s' xs'.
Qed.

Section V2Debug.
Context `{Browser}.
Import V2.

Lemma _log_commutes b m d : commutes (set_debug b) (_log m d).
Proof. intros s. unfold _log. unmonad. simpl. by destruct b, (debug s). Qed.

Lemma inspector_push_commutes b id e : commutes (set_debug b) (inspector_push id e).
Proof. unfold inspector_push. repeat step_commutes. Qed.

Lemma addGame_finish_commutes b k bal : commutes (set_debug b) (addGame_finish k bal).
Proof. unfold addGame_finish, inspector_addGame. repeat step_commutes. Qed.

Lemma v2_addGame_begin_commutes b arg : commutes (set_debug b) (addGame_begin arg).
Proof.
  unfold addGame_begin, lookup_game, _fail. cbv zeta.
  repeat first [apply addGame_finish_commutes | step_commutes].
Qed.

Lemma _send_commutes b id act d : commutes (set_debug b) (_send id act d).
Proof.
  unfold _send, lookup_game. cbv zeta.
  repeat first [apply _log_commutes | apply inspector_push_commutes | step_commutes].
Qed.

Lemma v2_load_signal_commutes b r : commutes (set_debug b) (load_signal r).
Proof.
  unfold load_signal, run_onload, lookup_game. cbv zeta.
  repeat first [apply _send_commutes | step_commutes].
Qed.

Lemma _handleMessage_commutes b ev : commutes (set_debug b) (_handleMessage ev).
Proof.
  unfold _handleMessage. cbv zeta.
  repeat first [apply _log_commutes | apply inspector_push_commutes | step_commutes].
Qed.

Lemma v2_run_listeners_commutes b ls ev s :
  (run_listeners ls ev (set_debug b s)).1.1 = set_debug b (run_listeners ls ev s).1.1 ∧
  unlogged (run_listeners ls ev (set_debug b s)).1.2
    = unlogged (run_listeners ls ev s).1.2 ∧
  (run_listeners ls ev (set_debug b s)).2 = (run_listeners ls ev s).2.
Proof.
  revert s. induction ls as [|l ls IH]; intros s; simpl; [done|].
  destruct (_handleMessage_commutes b ev s) as (Ho&Hs&He).
  destruct (_handleMessage ev (set_debug b s)) as [[o' s1'] es1'].
  destruct (_handleMessage ev s) as [[o s1] es1]. simpl in *. subst o' s1'.
  destruct (IH s1) as (Hs2&He2&Hx2).
  destruct (run_listeners ls ev (set_debug b s1)) as [[s2' es2'] xs'].
  destruct (run_listeners ls ev s1) as [[s2 es2] xs]. simpl in *.
  by rewrite !unlogged_app, He, He2, Hs2, Hx2.
Qed.
End V2Debug.

(** X23.  The debug flag of the second variant only adds lines of
    [console.log].  Whatever the state and the event, with the flag set
    either way the SDK ends in the same state, flag aside, throws the same
    exceptions, and posts the same messages, calls the same host functions
    and writes the same errors, in the same order. *)
Theorem X23_v2_debug_is_passive `{Browser} (b : bool) (w : V2.world) (i : V2.input) :
  V2.after (V2.debugging b w) i = V2.debugging b (V2.after w i) ∧
  unlogged (V2.step (V2.debugging b w) i).1.2 = unlogged (V2.step w i).1.2 ∧
  (V2.step (V2.debugging b w) i).2 = (V2.step w i).2.
Proof.
  unfold V2.after, V2.step, V2.debugging. destruct i as [arg|n bal|r|ev]; simpl.
  - destruct (v2_addGame_begin_commutes b arg (V2.page w)) as (Ho&Hs&He).
    destruct (V2.addGame_begin arg (V2.set_debug b (V2.page w))) as [[o' s'] es'].
    destruct (V2.addGame_begin arg (V2.page w)) as [[o s] es]. simpl in *. subst o' s'.
    by destruct o as [[| | |k|]|e].
  - destruct (V2.suspended w !! n) as [k|]; [|done].
    destruct (addGame_finish_commutes b k (settled_balance bal) (V2.page w)) as (Ho&Hs&He).
    unfold V2.addGame_resume.
    destruct (V2.addGame_finish k _ (V2.set_debug b (V2.page w))) as [[o' s'] es'].
    destruct (V2.addGame_finish k _ (V2.page w)) as [[o s] es]. simpl in *.
    by subst o' s'.
  - destruct (v2_load_signal_commutes b r (V2.page w)) as (Ho&Hs&He).
    destruct (V2.load_signal r (V2.set_debug b (V2.page w))) as [[o' s'] es'].
    destruct (V2.load_signal r (V2.page w)) as [[o s] es]. simpl in *.
    by subst o' s'.
  - unfold V2.dispatch_message. simpl.
    destruct (v2_run_listeners_commutes b (V2.listeners (V2.page w)) ev (V2.page w))
      as (Hs&He&Hx).
    destruct (V2.run_listeners _ ev (V2.set_debug b (V2.page w))) as [[s' es'] xs'].
    destruct (V2.run_listeners _ ev (V2.page w)) as [[s es] xs]. simpl in *.
    by subst s' xs'.
Qed.
